(** * LEPL: the trampoline scheduler and the stream/position model

    A shallow embedding of [lepl/parser.py], [lepl/monitor.py] and
    [lepl/stream.py].  Python objects with identity (generators, [Line]
    instances) are addresses into an explicit store; code that may raise
    returns a [res]; code that mutates threads its store through a small
    state-and-exception monad. *)

From Stdlib Require Import ZArith Lia Bool Ascii.
From stdpp Require Import base option list.

Local Open Scope Z_scope.

(** ** Python preliminaries *)

Module Py.

(** The exception classes the modelled code raises or inspects.  [Failure]
    stands for any other subclass of [Exception]; [Interrupt] for a
    [BaseException] outside [Exception] (KeyboardInterrupt, GeneratorExit),
    which [except Exception] does not catch. *)
Inductive exn :=
| StopIteration
| IndexError (missing : option Z)
| TypeError
| NameError
| Failure (tag : nat)
| Interrupt (tag : nat).

Definition is_Exception (e : exn) : bool :=
  match e with Interrupt _ => false | _ => true end.

Definition is_StopIteration (e : exn) : bool :=
  match e with StopIteration => true | _ => false end.

Definition exn_eqb (a b : exn) : bool :=
  match a, b with
  | StopIteration, StopIteration => true
  | IndexError x, IndexError y =>
      match x, y with
      | Some n, Some m => Z.eqb n m
      | None, None => true
      | _, _ => false
      end
  | TypeError, TypeError => true
  | NameError, NameError => true
  | Failure n, Failure m => Nat.eqb n m
  | Interrupt n, Interrupt m => Nat.eqb n m
  | _, _ => false
  end.

(** The result of a call: a returned value, a raised exception, or no
    result at all ([Diverge]: the call does not return, or the bound put
    on a loop of the model was reached). *)
Inductive res (X : Type) :=
| Ret (x : X)
| Raise (e : exn)
| Diverge.
Arguments Ret {X} x.
Arguments Raise {X} e.
Arguments Diverge {X}.

(** State threaded through a call that may raise; the state reached when
    the exception was raised is kept. *)
Definition M (S X : Type) : Type := S -> res X * S.

Definition ret {S X} (x : X) : M S X := fun s => (Ret x, s).
Definition raise {S X} (e : exn) : M S X := fun s => (Raise e, s).
Definition bind {S X Y} (m : M S X) (k : X -> M S Y) : M S Y :=
  fun s => match m s with
           | (Ret x, s') => k x s'
           | (Raise e, s') => (Raise e, s')
           | (Diverge, s') => (Diverge, s')
           end.
Definition diverge {S X} : M S X := fun s => (Diverge, s).
Definition lift {S X} (r : res X) : M S X := fun s => (r, s).
Definition get {S} : M S S := fun s => (Ret s, s).
Definition modify {S} (f : S -> S) : M S unit := fun s => (Ret tt, f s).

(** [list.pop()]: the last item and the list without it. *)
Definition list_pop {X} (l : list X) : option (X * list X) :=
  match reverse l with
  | [] => None
  | x :: r => Some (x, reverse r)
  end.

End Py.
Import Py.

Declare Scope py_scope.
Delimit Scope py_scope with py.
Notation "'let*' x ':=' m 'in' k" := (bind m (fun x => k))
  (at level 10, x name, m at level 100, k at level 200) : py_scope.
Notation "m ';;' k" := (bind m (fun _ => k))
  (at level 100, k at level 200, right associativity) : py_scope.
Local Open Scope py_scope.

(** ** parser.py and monitor.py: the scheduler and its observers *)

Module Parser.

(** A [GeneratorWrapper] is known by its identity. *)
Definition gen := nat.

Section Values.
(** [obj]: the ordinary Python values matchers yield. *)
Variable obj : Type.

(** What the [value] register of [trampoline] may hold;
    [type(value) is GeneratorWrapper] holds exactly for [VGen]. *)
Inductive value :=
| VGen (g : gen)
| VExc (e : exn)
| VObj (o : obj).

(** How a suspended generator is resumed. *)
Inductive action :=
| ANext
| ASend (v : value)
| AThrow (v : value).

(** Arguments passed to the callbacks of a monitor. *)
Inductive arg :=
| AInt (n : nat)
| ABool (b : bool)
| AValue (v : value)
| AStack (s : list gen).

(** The callbacks of [MonitorInterface]. *)
Inductive mname :=
| NextIteration | BeforeNext | AfterNext | BeforeThrow | AfterThrow
| BeforeSend | AfterSend | Exception_ | Raise_ | Yield_ | Push | Pop.

(** A Python method: the number of positional parameters after [self]
    and its body over the object's own state.  The callbacks modelled
    are those that work on the monitor's own attributes: they read what
    they are passed and may raise, but they neither change the list
    [stack] that [trampoline] hands to [next_iteration] nor resume or
    close the generators they are handed. *)
Record method (MS : Type) := Method {
  params : nat;
  body : list arg -> M MS unit
}.
Arguments params {MS} _.
Arguments body {MS} _.

(** Calling a method with the wrong number of arguments raises
    [TypeError] before the body runs. *)
Definition call {MS} (m : method MS) (args : list arg) : M MS unit :=
  if Nat.eqb (length args) (params m) then body m args
  else raise TypeError.

(** A monitor object: its truth value (what [if monitor:] tests) and
    its callbacks. *)
Record Monitor (MS : Type) := {
  truthy : bool;
  meth : mname -> method MS
}.
Arguments truthy {MS} _.
Arguments meth {MS} _ _.

Definition pass {MS} : list arg -> M MS unit := fun _ => ret tt.

(** [class MonitorInterface]: every callback is [pass]; the parameter
    counts are those of the [def] lines.  An instance is true: the class
    defines neither [__bool__] nor [__len__]. *)
Definition MonitorInterface : Monitor unit :=
  {| truthy := true;
     meth := fun n =>
       match n with
       | NextIteration => Method _ 3 pass
       | BeforeNext => Method _ 1 pass
       | AfterNext => Method _ 1 pass
       | BeforeThrow => Method _ 2 pass
       | AfterThrow => Method _ 1 pass
       | BeforeSend => Method _ 2 pass
       | AfterSend => Method _ 1 pass
       | Exception_ => Method _ 1 pass
       | Raise_ => Method _ 1 pass
       | Yield_ => Method _ 1 pass
       | Push => Method _ 1 pass
       | Pop => Method _ 1 pass
       end |}.

End Values.

Arguments VGen {obj} g.
Arguments VExc {obj} e.
Arguments VObj {obj} o.
Arguments ANext {obj}.
Arguments ASend {obj} v.
Arguments AThrow {obj} v.
Arguments AInt {obj} n.
Arguments ABool {obj} b.
Arguments AValue {obj} v.
Arguments AStack {obj} s.
Arguments Method {obj MS} _ _.
Arguments params {obj MS} _.
Arguments body {obj MS} _.
Arguments call {obj MS} _ _.
Arguments truthy {obj MS} _.
Arguments meth {obj MS} _ _.
Arguments pass {obj MS} _.
Arguments Build_Monitor {obj MS} _ _.

Definition is_generator {obj} (v : value obj) : bool :=
  match v with VGen _ => true | _ => false end.

(** *** [trampoline] *)

Section Trampoline.
Variable obj : Type.
(** The generators of the matcher graph: [W] holds the suspended state
    of every generator, [resume g a] runs generator [g] until it yields
    ([Ret]) or raises. *)
Variable W : Type.
Variable resume : gen -> action obj -> M W (value obj).
(** The state of the attached monitor, and the [monitor] argument. *)
Variable MS : Type.
Variable monitor : option (Monitor obj MS).
(** The [main] argument. *)
Variable main : value obj.

Inductive log_entry :=
| LogTraceback (e : exn)
| LogStack (g : gen).

(** The local variables of [trampoline], the world of generators, the
    monitor's state, the log, and (as a history variable) the monitor
    callbacks invoked so far. *)
Record tstate := TState {
  stack : list gen;
  cur : value obj;
  exception : bool;
  epoch : nat;
  last_exc : option exn;
  world : W;
  mstate : MS;
  calls : list (mname * list (arg obj));
  log : list log_entry
}.

Definition set_stack (x : list gen) (s : tstate) : tstate :=
  TState x (cur s) (exception s) (epoch s) (last_exc s) (world s)
         (mstate s) (calls s) (log s).
Definition set_cur (x : value obj) (s : tstate) : tstate :=
  TState (stack s) x (exception s) (epoch s) (last_exc s) (world s)
         (mstate s) (calls s) (log s).
Definition set_exception (x : bool) (s : tstate) : tstate :=
  TState (stack s) (cur s) x (epoch s) (last_exc s) (world s)
         (mstate s) (calls s) (log s).
Definition set_epoch (x : nat) (s : tstate) : tstate :=
  TState (stack s) (cur s) (exception s) x (last_exc s) (world s)
         (mstate s) (calls s) (log s).
Definition set_last_exc (x : option exn) (s : tstate) : tstate :=
  TState (stack s) (cur s) (exception s) (epoch s) x (world s)
         (mstate s) (calls s) (log s).
Definition set_world (x : W) (s : tstate) : tstate :=
  TState (stack s) (cur s) (exception s) (epoch s) (last_exc s) x
         (mstate s) (calls s) (log s).
Definition set_mstate (x : MS) (s : tstate) : tstate :=
  TState (stack s) (cur s) (exception s) (epoch s) (last_exc s) (world s)
         x (calls s) (log s).
Definition set_calls (x : list (mname * list (arg obj))) (s : tstate)
  : tstate :=
  TState (stack s) (cur s) (exception s) (epoch s) (last_exc s) (world s)
         (mstate s) x (log s).
Definition set_log (x : list log_entry) (s : tstate) : tstate :=
  TState (stack s) (cur s) (exception s) (epoch s) (last_exc s) (world s)
         (mstate s) (calls s) x.

Definition T (X : Type) : Type := M tstate X.

(** [if monitor: monitor.<n>(args)], for a callback that works on the
    monitor's own attributes. *)
Definition notify (n : mname) (args : list (arg obj)) : T unit :=
  fun s =>
    match monitor with
    | None => (Ret tt, s)
    | Some m =>
        if truthy m then
          let '(r, ms) := call (meth m n) args (mstate s) in
          (r, set_mstate ms (set_calls (calls s ++ [(n, args)]) s))
        else (Ret tt, s)
    end.

(** [next(g)], [g.send(v)], [g.throw(v)] *)
Definition resume_gen (g : gen) (a : action obj) : T (value obj) :=
  fun s => let '(r, w) := resume g a (world s) in (r, set_world w s).

(** [stack.pop()] *)
Definition pop_stack : T gen :=
  fun s =>
    match list_pop (stack s) with
    | Some (g, rest) => (Ret g, set_stack rest s)
    | None => (Raise (IndexError None), s)
    end.

(** [raise value] *)
Definition raise_value (v : value obj) : T unit :=
  match v with
  | VExc e => raise e
  | _ => raise TypeError
  end.

(** How the body of the [try] leaves one iteration: falling through to
    the next iteration, or suspended at [yield value]. *)
Inductive flow :=
| Next
| Suspend (v : value obj).

(** The body of the [try] statement. *)
Definition try_body : T flow :=
  let* s := get in
  notify NextIteration
    [AInt (epoch s); AValue (cur s); ABool (exception s);
     AStack (stack s)];;
  match cur s with
  | VGen g =>
      notify Push [AValue (VGen g)];;
      modify (fun s => set_stack (stack s ++ [g]) s);;
      notify BeforeNext [AValue (VGen g)];;
      let* v := resume_gen g ANext in
      modify (set_cur v);;
      notify AfterNext [AValue v];;
      ret Next
  | v =>
      let* p := pop_stack in
      notify Pop [AValue (VGen p)];;
      let* s1 := get in
      match last (stack s1) with
      | Some top =>
          if exception s1 then
            modify (set_exception false);;
            notify BeforeThrow [AValue (VGen top); AValue v];;
            let* v' := resume_gen top (AThrow v) in
            modify (set_cur v');;
            notify AfterThrow [AValue v'];;
            ret Next
          else
            notify BeforeSend [AValue (VGen top); AValue v];;
            let* v' := resume_gen top (ASend v) in
            modify (set_cur v');;
            notify AfterSend [AValue v'];;
            ret Next
      | None =>
          if exception s1 then
            notify Raise_ [AValue v];;
            raise_value v;;
            ret Next
          else
            notify Yield_ [AValue v];;
            ret (Suspend v)
      end
  end.

(** The [else] branch of the [except] clause: record the exception as
    the current value and log it once.  Exceptions are values here: two
    exception objects of the same class and arguments are not told
    apart, so [value != last_exc] is the test on values; only [last_exc]
    and [log] depend on it. *)
Definition handler (e : exn) : T unit :=
  modify (set_cur (VExc e));;
  modify (set_exception true);;
  notify Exception_ [AValue (VExc e)];;
  let* s := get in
  if negb (is_StopIteration e) &&
     negb (match last_exc s with
           | Some l => exn_eqb e l
           | None => false
           end)
  then
    modify (set_last_exc (Some e));;
    modify (fun s => set_log (log s ++ [LogTraceback e]) s);;
    modify (fun s => set_log (log s ++ map LogStack (stack s)) s)
  else ret tt.

(** One iteration of [while True]: the loop goes on, the generator
    is suspended at [yield] (the state given is the one it resumes
    from, after [value = main]), an exception leaves [trampoline], or
    a call made by the iteration does not return. *)
Inductive outcome :=
| Continue (s : tstate)
| Yield (v : value obj) (s : tstate)
| Raised (e : exn) (s : tstate)
| Hangs (s : tstate).

Definition step (s : tstate) : outcome :=
  match try_body (set_epoch (S (epoch s)) s) with
  | (Ret Next, s1) => Continue s1
  | (Ret (Suspend v), s1) => Yield v (set_cur main s1)
  | (Raise e, s1) =>
      if is_Exception e then
        if exception s1 then Raised e s1
        else
          match handler e s1 with
          | (Ret _, s2) => Continue s2
          | (Raise e', s2) => Raised e' s2
          | (Diverge, s2) => Hangs s2
          end
      else Raised e s1
  | (Diverge, s1) => Hangs s1
  end.

(** The state in which the first [next()] on the generator returned by
    [trampoline(main, monitor)] starts running. *)
Definition init (w : W) (ms : MS) : tstate :=
  TState [] main false 0 None w ms [] [].

(** [next()] on the trampoline generator: iterate until it yields or
    raises, for at most [fuel] iterations. *)
Fixpoint pull (fuel : nat) : T (value obj) :=
  fun s =>
    match fuel with
    | O => (Diverge, s)
    | S fuel' =>
        match step s with
        | Continue s' => pull fuel' s'
        | Yield v s' => (Ret v, s')
        | Raised e s' => (Raise e, s')
        | Hangs s' => (Diverge, s')
        end
    end.

(** The first [k] results a caller takes from the trampoline generator,
    as [list(islice(trampoline(main, monitor), k))] does, with [fuel]
    iterations for each: after an exception, or without a result, the
    caller gets nothing more. *)
Fixpoint take_results (fuel k : nat) (s : tstate) : list (res (value obj)) :=
  match k with
  | O => []
  | S k' =>
      let '(r, s') := pull fuel s in
      r :: match r with
           | Ret _ => take_results fuel k' s'
           | _ => []
           end
  end.

(** The number of arguments [trampoline] passes to each callback. *)
Definition sent_args (n : mname) : nat :=
  match n with
  | NextIteration => 4
  | BeforeThrow | BeforeSend => 2
  | _ => 1
  end%nat.

(** A monitor whose callbacks take the arguments [trampoline] passes
    and return. *)
Definition observers_return : Prop :=
  match monitor with
  | None => True
  | Some m =>
      forall n args ms, length args = sent_args n ->
        exists ms', call (meth m n) args ms = (Ret tt, ms')
  end.

(** Whether the callbacks are invoked at all. *)
Definition observed : bool :=
  match monitor with
  | None => false
  | Some m => truthy m
  end.

(** The [push] and [pop] notifications among the callbacks invoked. *)
Definition stack_notes (l : list (mname * list (arg obj)))
  : list (mname * list (arg obj)) :=
  List.filter
    (fun c => match fst c with Push | Pop => true | _ => false end) l.

(** The state left by an exception that the [except] clause turned
    into the current value. *)
Definition caught (e : exn) (frames : list gen) (w : W) (s : tstate) : Prop :=
  stack s = frames /\ cur s = VExc e /\ exception s = true /\ world s = w.

(** The state left by a frame that was resumed and yielded [v]. *)
Definition resumed (v : value obj) (frames : list gen) (w : W) (s : tstate)
  : Prop :=
  stack s = frames /\ cur s = v /\ exception s = false /\ world s = w.

(** While the flag [exception] is up, the current value is the exception
    that raised it. *)
Definition failure_held (s : tstate) : Prop :=
  exception s = true -> exists e, cur s = VExc e.

(** Two states of the loop that differ at most in what belongs to the
    monitor. *)
Definition same_run (s s0 : tstate) : Prop :=
  stack s = stack s0 /\ cur s = cur s0 /\ exception s = exception s0 /\
  epoch s = epoch s0 /\ last_exc s = last_exc s0 /\ world s = world s0 /\
  log s = log s0.

End Trampoline.

Arguments TState {obj W MS} _ _ _ _ _ _ _ _ _.
Arguments stack {obj W MS} _.
Arguments cur {obj W MS} _.
Arguments exception {obj W MS} _.
Arguments epoch {obj W MS} _.
Arguments last_exc {obj W MS} _.
Arguments world {obj W MS} _.
Arguments mstate {obj W MS} _.
Arguments calls {obj W MS} _.
Arguments log {obj W MS} _.
Arguments set_stack {obj W MS} _ _.
Arguments set_cur {obj W MS} _ _.
Arguments set_exception {obj W MS} _ _.
Arguments set_epoch {obj W MS} _ _.
Arguments set_last_exc {obj W MS} _ _.
Arguments set_world {obj W MS} _ _.
Arguments set_mstate {obj W MS} _ _.
Arguments set_calls {obj W MS} _ _.
Arguments set_log {obj W MS} _ _.
Arguments notify {obj W MS} monitor n args _.
Arguments resume_gen {obj W} resume {MS} g a _.
Arguments pop_stack {obj W MS} _.
Arguments raise_value {obj W MS} v _.
Arguments Next {obj}.
Arguments Suspend {obj} v.
Arguments try_body {obj W} resume {MS} monitor _.
Arguments handler {obj W MS} monitor e _.
Arguments Continue {obj W MS} s.
Arguments Yield {obj W MS} v s.
Arguments Raised {obj W MS} e s.
Arguments Hangs {obj W MS} s.
Arguments step {obj W} resume {MS} monitor main s.
Arguments init {obj W MS} main w ms.
Arguments pull {obj W} resume {MS} monitor main fuel _.
Arguments take_results {obj W} resume {MS} monitor main fuel k _.
Arguments observers_return {obj MS} monitor.
Arguments observed {obj MS} monitor.
Arguments stack_notes {obj} l.
Arguments caught {obj W MS} e frames w s.
Arguments resumed {obj W MS} v frames w s.
Arguments failure_held {obj W MS} s.
Arguments same_run {obj W MS} s s0.

(** *** [MultipleMonitors.__init__] and [Configuration.__init__] *)

Section Configuration.
Variable obj : Type.
Variable MS : Type.
(** The entries of [flatten] and [memoizers]. *)
Variable Flat : Type.
Variable Memo : Type.
(** [lepl.support] is not among the sources: what the constructor of
    [LogMixin], reached by [super(MonitorInterface, self).__init__],
    does with the keyword [monitors=None] is left open. *)
Variable LogMixin_init : res unit.

(** The object stored in [conf.monitor]: one of the monitors given, or
    an instance of [MultipleMonitors] with its [_monitors]. *)
Inductive attached :=
| Single (m : Monitor obj MS)
| Multiple (ms : list (Monitor obj MS)).

(** [def __init__(self):] declares no parameter after [self]. *)
Definition MultipleMonitors_init_params : nat := 0.

(** The body of [MultipleMonitors.__init__]: after the call to the
    superclass, [monitors] is read, a name bound nowhere. *)
Definition MultipleMonitors_init_body : res (list (Monitor obj MS)) :=
  match LogMixin_init with
  | Ret _ => Raise NameError
  | Raise e => Raise e
  | Diverge => Diverge
  end.

(** A call [MultipleMonitors(...)] with the positional arguments [args]. *)
Definition MultipleMonitors_new (args : list (list (Monitor obj MS)))
  : res attached :=
  if Nat.eqb (length args) MultipleMonitors_init_params then
    match MultipleMonitors_init_body with
    | Ret ms => Ret (Multiple ms)
    | Raise e => Raise e
    | Diverge => Diverge
    end
  else Raise TypeError.

Record Configuration := {
  flatten : list Flat;
  memoizers : list Memo;
  conf_monitor : option attached
}.

(** [Configuration(flatten, memoizers, monitors)] *)
Definition Configuration_init (flatten : option (list Flat))
    (memoizers : option (list Memo))
    (monitors : option (list (Monitor obj MS))) : res Configuration :=
  let flatten := match flatten with None => [] | Some f => f end in
  let memoizers := match memoizers with None => [] | Some m => m end in
  match monitors with
  | None | Some [] =>
      Ret (Build_Configuration flatten memoizers None)
  | Some [m] =>
      Ret (Build_Configuration flatten memoizers (Some (Single m)))
  | Some ms =>
      match MultipleMonitors_new [ms] with
      | Ret a => Ret (Build_Configuration flatten memoizers (Some a))
      | Raise e => Raise e
      | Diverge => Diverge
      end
  end.

End Configuration.

(** *** [make_parser] *)

Section MakeParser.
(** A result is a pair (matched values, remaining stream). *)
Variable Values : Type.
Variable Pos : Type.
Variable Arg : Type.
Variable W : Type.
Variable resume : gen -> action (Values * Pos) -> M W (value (Values * Pos)).
Variable MS : Type.
Variable monitor : option (Monitor (Values * Pos) MS).
Variable ms0 : MS.
(** [matcher(stream(arg, conf))] for the prepared matcher: the main
    generator and the world of generators it runs in. *)
Variable graph : Arg -> value (Values * Pos) * W.

(** [v[0]] *)
Definition item0 (v : value (Values * Pos)) : res Values :=
  match v with
  | VObj (vals, _) => Ret vals
  | _ => Raise TypeError
  end.

(** [except StopIteration: return None] *)
Definition or_None {S} (e : exn) (s : S) : res (option Values) * S :=
  if is_StopIteration e then (Ret None, s) else (Raise e, s).

(** [single(arg)]: the generator [matcher(arg)] is created and asked
    for one item. *)
Definition single (fuel : nat) (arg : Arg)
  : res (option Values) * tstate (Values * Pos) W MS :=
  let '(main, w) := graph arg in
  match pull resume monitor main fuel (init main w ms0) with
  | (Ret v, s) =>
      match item0 v with
      | Ret x => (Ret (Some x), s)
      | Raise e => or_None e s
      | Diverge => (Diverge, s)
      end
  | (Raise e, s) => or_None e s
  | (Diverge, s) => (Diverge, s)
  end.

End MakeParser.

End Parser.

(** A small matcher graph: generator 0 asks for the sub-computation
    generator 1, which fails; generator 0 catches the failure thrown into
    it and yields the result 7, and is exhausted when asked again. *)
Module SchedulerExample.
Import Parser.

Definition resume (g : gen) (a : action nat) : M (nat * nat) (value nat) :=
  fun w =>
    match g with
    | O =>
        match fst w, a with
        | O, ANext => (Ret (VGen 1%nat), (1%nat, snd w))
        | 1%nat, AThrow _ => (Ret (VObj 7%nat), (2%nat, snd w))
        | 1%nat, ASend v => (Ret v, (2%nat, snd w))
        | _, _ => (Raise StopIteration, w)
        end
    | 1%nat => (Raise (Failure 5), (fst w, S (snd w)))
    | _ => (Raise StopIteration, w)
    end.

Definition main : value nat := VGen 0%nat.

Definition start : tstate nat (nat * nat) unit :=
  init main (0%nat, 0%nat) tt.

(** After the first two iterations without a monitor: generator 1 has
    failed on top of generator 0. *)
Definition failed : tstate nat (nat * nat) unit :=
  TState [0%nat; 1%nat] (VExc (Failure 5)) true 2%nat None
         (1%nat, 1%nat) tt [] [].

(** A monitor that counts the callbacks it receives. *)
Definition Counting : Monitor nat nat :=
  Build_Monitor true
    (fun n => Method (sent_args n) (fun _ => modify S)).

(** Two prepared matchers for [make_parser]: for the input [true] the
    main generator yields the result ([1; 2], 3) at once, for [false] it
    is exhausted from the start. *)
Definition parse_resume (g : gen) (a : action (list nat * nat))
  : M nat (value (list nat * nat)) :=
  fun w =>
    match g, w, a with
    | O, O, ANext => (Ret (VObj ([1%nat; 2%nat], 3%nat)), 1%nat)
    | _, _, _ => (Raise StopIteration, w)
    end.

Definition graph (arg : bool) : value (list nat * nat) * nat :=
  if arg then (VGen 0%nat, 0%nat) else (VGen 1%nat, 0%nat).

End SchedulerExample.

(** ** stream.py: lines, views and sources *)

Module Stream.

(** [bool(x)] for a line: [None] and the empty sequence are false. *)
Definition truth {A} (l : option (list A)) : bool :=
  match l with
  | Some (_ :: _) => true
  | _ => false
  end.

Definition len {A} (l : list A) : Z := Z.of_nat (length l).

(** An index or a slice bound brought into [0, n], counting from the end
    when negative. *)
Definition clamp (n i : Z) : Z :=
  if i <? 0 then Z.max 0 (i + n) else Z.min i n.

(** [l[a:b]] *)
Definition py_slice {A} (l : list A) (a b : Z) : list A :=
  let a' := clamp (len l) a in
  let b' := clamp (len l) b in
  take (Z.to_nat (b' - a')) (drop (Z.to_nat a') l).

(** [l[i]] *)
Definition py_index {A} (l : list A) (i : Z) : res A :=
  let j := if i <? 0 then i + len l else i in
  if j <? 0 then Raise (IndexError None)
  else match l !! Z.to_nat j with
       | Some x => Ret x
       | None => Raise (IndexError None)
       end.

(** [sample(prefix, rest, size)]; strings are lists of characters. *)
Definition sample (prefix rest : list ascii) (size : Z) : list ascii :=
  let text := prefix ++ rest in
  if size <? len text then
    prefix ++ py_slice rest 0 (size - len prefix - 3)
           ++ ["."%char; "."%char; "."%char]
  else text.

(** A [StreamView]: the address of a [Line] and an offset. *)
Record StreamView := View {
  sv_line : nat;
  sv_offset : Z
}.

(** A [StreamView] object among those of all the streams of a program.
    Every call of the factory makes a class [Line] of its own and its
    [Line] objects: a [Line] object is known by the dataset it belongs
    to (the call that made it) and its address there. *)
Record Position := InData {
  p_data : nat;
  p_view : StreamView
}.

(** Any Python object a view may be compared with. *)
Inductive pyobj :=
| OView (v : Position)
| OOther (tag : nat).

(** [a.__line == b.__line]: [Line] defines no [__eq__], so [==] on lines
    is identity. *)
Definition same_Line (a b : Position) : bool :=
  Nat.eqb (p_data a) (p_data b) &&
  Nat.eqb (sv_line (p_view a)) (sv_line (p_view b)).

(** [StreamView.__eq__] *)
Definition StreamView_eq (self : Position) (other : pyobj) : bool :=
  match other with
  | OView o =>
      same_Line self o &&
      Z.eqb (sv_offset (p_view self)) (sv_offset (p_view o))
  | OOther _ => false
  end.

Section Lines.
(** The items of the data, the location state a source attaches to a
    line, the state of the [Source] object, and what [location]
    returns. *)
Variable A : Type.
Variable LS : Type.
Variable Src : Type.
Variable Loc : Type.
(** [Source.__next__], [Source.location] and [Source.join]. *)
Variable source_next : M Src (option (list A) * option LS).
Variable source_location :
  Z -> option (list A) -> option LS -> M Src Loc.
Variable join : list (list A) -> list A.

(** An instance of the class [Line] made by [DefaultStreamFactory]. *)
Record Line := MkLine {
  line : option (list A);
  previous_length : Z;
  location_state : option LS;
  next_ : option nat
}.

(** The [Line] objects of one dataset, by address, and the [Source]
    they share (the class attribute [source]). *)
Record store := Store {
  heap : list Line;
  source : Src
}.

(** The object at an address.  Addresses are only made by [new_Line], so
    one outside the heap is never followed; it gives no result. *)
Definition deref (r : nat) : M store Line :=
  fun st => match heap st !! r with
            | Some L => (Ret L, st)
            | None => (Diverge, st)
            end.

Definition with_source {X} (m : M Src X) : M store X :=
  fun st => let '(r, src) := m (source st) in (r, Store (heap st) src).

(** [Line(line, previous_length, location_state)] *)
Definition new_Line (l : option (list A)) (prev : Z) (ls : option LS)
  : M store nat :=
  fun st => (Ret (length (heap st)),
             Store (heap st ++ [MkLine l prev ls None]) (source st)).

Definition set_next (r r' : nat) : M store unit :=
  fun st =>
    match heap st !! r with
    | Some L =>
        (Ret tt,
         Store (<[r := MkLine (line L) (previous_length L)
                              (location_state L) (Some r')]> (heap st))
               (source st))
    | None => (Diverge, st)
    end.

(** The property [Line.next]. *)
Definition Line_next (self : nat) : M store nat :=
  let* L := deref self in
  match next_ L with
  | Some r => ret r
  | None =>
      let* item := with_source source_next in
      let previous_length :=
        match line L with
        | Some l => previous_length L + len l
        | None => previous_length L
        end in
      let* r := new_Line (fst item) previous_length (snd item) in
      set_next self r;;
      ret r
  end.

(** [Line.location] *)
Definition Line_location (self : nat) (offset : Z) : M store Loc :=
  let* L := deref self in
  with_source (source_location offset (line L) (location_state L)).

(** The loop of [StreamView.__at]; [fuel] bounds its iterations. *)
Fixpoint at_loop (fuel : nat) (ln : nat) (index : Z) : M store (nat * Z) :=
  let* L := deref ln in
  match line L with
  | Some l =>
      if truth (Some l) && (len l <=? index) then
        match fuel with
        | O => diverge
        | S fuel' =>
            let* nxt := Line_next ln in
            at_loop fuel' nxt (index - len l)
        end
      else ret (ln, index)
  | None => ret (ln, index)
  end.

(** [StreamView.__at]: every iteration of the loop lowers [index] by at
    least one, so [index] iterations are enough. *)
Definition StreamView_at (self : StreamView) (index : Z) (strict : bool)
  : M store (nat * Z) :=
  let index := index + sv_offset self in
  let* found := at_loop (Z.to_nat index) (sv_line self) index in
  let* L := deref (fst found) in
  if negb (truth (line L)) && (strict || negb (snd found =? 0)) then
    raise (IndexError None)
  else ret found.

(** [self[n]] *)
Definition getitem_int (self : StreamView) (n : Z) : M store A :=
  let* found := StreamView_at self n true in
  let* L := deref (fst found) in
  match line L with
  | Some l => lift (py_index l (snd found))
  | None => raise TypeError
  end.

(** [self[n:]] *)
Definition getitem_open (self : StreamView) (n : Z) : M store StreamView :=
  if (n =? 0) && (sv_offset self =? 0) then ret self
  else
    let* found := StreamView_at self n false in
    ret (View (fst found) (snd found)).

(** The loop of [self[n:m]]: the line reached, the pieces gathered and
    what is still missing. *)
Fixpoint slice_loop (fuel : nat) (ln : nat) (lines : list (list A))
    (remainder : Z) : M store (nat * list (list A) * Z) :=
  let* L := deref ln in
  if truth (line L) && (0 <? remainder) then
    match fuel with
    | O => diverge
    | S fuel' =>
        let* nxt := Line_next ln in
        let* L' := deref nxt in
        match line L' with
        | Some (x :: l') =>
            let l := x :: l' in
            slice_loop fuel' nxt
              (lines ++ [py_slice l 0 (Z.min remainder (len l))])
              (remainder - len l)
        | _ => slice_loop fuel' nxt lines remainder
        end
    end
  else ret (ln, lines, remainder).

(** [self[n:m]] *)
Definition getitem_slice (self : StreamView) (n m : Z) : M store (list A) :=
  let length := m - n in
  if length =? 0 then ret (join [])
  else
    let* found := StreamView_at self n true in
    let* L := deref (fst found) in
    match line L with
    | Some l =>
        let start := snd found in
        let line_length := len l in
        let remainder := length - (line_length - start) in
        let lines := [py_slice l start (Z.min (start + length) line_length)] in
        let* out := slice_loop (S (Z.to_nat remainder)) (fst found) lines remainder in
        if 0 <? snd out then raise (IndexError (Some (snd out)))
        else ret (join (snd (fst out)))
    | None => raise TypeError
    end.

(** [StreamView.__bool__] *)
Definition StreamView_bool (self : StreamView) : M store bool :=
  let* L := deref (sv_line self) in
  ret (truth (line L)).

(** The property [StreamView.location] *)
Definition StreamView_location (self : StreamView) : M store Loc :=
  Line_location (sv_line self) (sv_offset self).

(** Any number of accesses to [next], on any lines, in any order. *)
Inductive reads : store -> store -> Prop :=
| reads_none st : reads st st
| reads_next st q y st1 st2 :
    Line_next q st = (y, st1) -> reads st1 st2 -> reads st st2.

(** The lines of one dataset form a single list: only the line made last
    is still without its [next]. *)
Definition one_frontier (st : store) : Prop :=
  forall r L, heap st !! r = Some L -> next_ L = None ->
              S r = length (heap st).

(** [pending src ls ended]: the next lines the source gives are the
    non-empty lines [ls]; then, if [ended], comes a line that is false
    ([None] or empty), which is where the views stop. *)
Inductive pending : Src -> list (list A) -> bool -> Prop :=
| pending_open src : pending src [] false
| pending_end src item src' :
    source_next src = (Ret item, src') -> truth (fst item) = false ->
    pending src [] true
| pending_line src l ls src' rest ended :
    source_next src = (Ret (Some l, ls), src') -> truth (Some l) = true ->
    pending src' rest ended ->
    pending src (l :: rest) ended.

(** [chain st r ls ended]: the data from the line at [r] on, made or still
    to be read from the source, are the non-empty lines [ls]; if [ended],
    the data stop there. *)
Inductive chain (st : store) : nat -> list (list A) -> bool -> Prop :=
| chain_open r : chain st r [] false
| chain_end r L :
    heap st !! r = Some L -> truth (line L) = false -> chain st r [] true
| chain_made r L l r' rest ended :
    heap st !! r = Some L -> line L = Some l -> truth (Some l) = true ->
    next_ L = Some r' -> chain st r' rest ended ->
    chain st r (l :: rest) ended
| chain_unread r L l rest ended :
    heap st !! r = Some L -> line L = Some l -> truth (Some l) = true ->
    next_ L = None -> pending (source st) rest ended ->
    chain st r (l :: rest) ended.

(** The items that remain from a view on, given the lines from its line
    on. *)
Definition remaining (self : StreamView) (ls : list (list A)) : list A :=
  drop (Z.to_nat (sv_offset self)) (concat ls).

(** The data of the lines made so far are still there. *)
Definition grows (st st' : store) : Prop :=
  forall a ol, line <$> heap st !! a = Some ol ->
               line <$> heap st' !! a = Some ol.

(** The item a view stands on, when its offset lies within its line. *)
Definition item_at (st : store) (v : StreamView) (x : A) : Prop :=
  exists l,
    line <$> heap st !! sv_line v = Some (Some l) /\
    0 <= sv_offset v /\ l !! Z.to_nat (sv_offset v) = Some x.

(** A view as [__at] leaves it: on a line of the store, with an offset
    inside the line unless the line is false. *)
Definition settled (st : store) (v : StreamView) : Prop :=
  exists ol,
    line <$> heap st !! sv_line v = Some ol /\ 0 <= sv_offset v /\
    forall l, ol = Some l -> truth (Some l) = true -> sv_offset v < len l.

(** [DefaultStreamFactory.__call__]: [StreamView(Line().next)] *)
Definition factory (src : Src) : res StreamView * store :=
  (let* r := Line_next 0%nat in ret (View r 0))
    (Store [MkLine None 0 None None] src).

(** The datasets of a program, in the order the factory made them. *)
Definition world := list store.

(** A call on an object of dataset [d]. *)
Definition in_data {X} (d : nat) (m : M store X) : M world X :=
  fun w =>
    match w !! d with
    | Some st => let '(r, st') := m st in (r, <[d := st']> w)
    | None => (Diverge, w)
    end.

(** [DefaultStreamFactory.__call__] as one call among others: the class
    [Line] it defines is a new one, and so are its objects. *)
Definition new_stream (src : Src) : M world Position :=
  fun w =>
    let '(r, st) := factory src in
    (match r with
     | Ret v => Ret (InData (length w) v)
     | Raise e => Raise e
     | Diverge => Diverge
     end, w ++ [st]).

(** [self[n]] and [self[n:]] on a view among those of all streams: the
    view made stands on a line of the same dataset. *)
Definition Position_getitem (self : Position) (n : Z) : M world A :=
  in_data (p_data self) (getitem_int (p_view self) n).

Definition Position_open (self : Position) (n : Z) : M world Position :=
  let* v := in_data (p_data self) (getitem_open (p_view self) n) in
  ret (InData (p_data self) v).

(** The lines stand in the order they were made: the [next] of a line is
    the line made right after it, and the line made last has none. *)
Definition in_order (st : store) : Prop :=
  forall r L, heap st !! r = Some L ->
    next_ L = if decide (S r < length (heap st))%nat then Some (S r) else None.

End Lines.

Arguments MkLine {A LS} _ _ _ _.
Arguments line {A LS} _.
Arguments previous_length {A LS} _.
Arguments location_state {A LS} _.
Arguments next_ {A LS} _.
Arguments Store {A LS Src} _ _.
Arguments heap {A LS Src} _.
Arguments source {A LS Src} _.
Arguments deref {A LS Src} r _.
Arguments with_source {A LS Src X} m _.
Arguments new_Line {A LS Src} l prev ls _.
Arguments set_next {A LS Src} r r' _.
Arguments Line_next {A LS Src} source_next self _.
Arguments Line_location {A LS Src Loc} source_location self offset _.
Arguments at_loop {A LS Src} source_next fuel ln index _.
Arguments StreamView_at {A LS Src} source_next self index strict _.
Arguments getitem_int {A LS Src} source_next self n _.
Arguments getitem_open {A LS Src} source_next self n _.
Arguments slice_loop {A LS Src} source_next fuel ln lines remainder _.
Arguments getitem_slice {A LS Src} source_next join self n m _.
Arguments StreamView_bool {A LS Src} self _.
Arguments StreamView_location {A LS Src Loc} source_location self _.
Arguments factory {A LS Src} source_next src.
Arguments reads {A LS Src} source_next _ _.
Arguments one_frontier {A LS Src} st.
Arguments pending {A LS Src} source_next _ _ _.
Arguments chain {A LS Src} source_next st _ _ _.
Arguments remaining {A} self ls.
Arguments grows {A LS Src} st st'.
Arguments item_at {A LS Src} st v x.
Arguments settled {A LS Src} st v.
Arguments in_order {A LS Src} st.
Arguments world : clear implicits.
Arguments in_data {A LS Src X} d m _.
Arguments new_stream {A LS Src} source_next src _.
Arguments Position_getitem {A LS Src} source_next self n _.
Arguments Position_open {A LS Src} source_next self n _.

(** *** [StreamView.__len__] *)

Section Length.
Variable A : Type.
Variable LS : Type.
Variable Src : Type.
Variable source_next : M Src (option (list A) * option LS).
(** The attribute [total_length] of the source. *)
Variable total_length : Src -> option Z.

(** The [while] loop of [__len__], which follows [next] until the source
    knows its total length, and the total length it then finds. *)
Fixpoint len_loop (fuel : nat) (ln : nat) : M (store A LS Src) Z :=
  let* st := get in
  match total_length (source st) with
  | Some total => ret total
  | None =>
      match fuel with
      | O => diverge
      | S fuel' =>
          let* nxt := Line_next source_next ln in
          len_loop fuel' nxt
      end
  end.

(** [StreamView.__len__] *)
Definition StreamView_len (fuel : nat) (self : StreamView)
  : M (store A LS Src) Z :=
  let* total := len_loop fuel (sv_line self) in
  let* L := deref (sv_line self) in
  ret (total - (previous_length L + sv_offset self)).

End Length.

Arguments len_loop {A LS Src} source_next total_length fuel ln _.
Arguments StreamView_len {A LS Src} source_next total_length fuel self _.

(** The lines of [lines] before its first empty line. *)
Fixpoint upto_empty {A} (lines : list (list A)) : list (list A) :=
  match lines with
  | (x :: l) :: rest => (x :: l) :: upto_empty rest
  | _ => []
  end.

(** *** Sources *)

(** The tuple returned by [location]: line number, line offset, character
    offset, the current line and the description of the source. *)
Record location (A Desc : Type) := Location {
  line_number : option Z;
  line_offset : Z;
  character_offset : Z;
  current_line : option (list A);
  description : option Desc
}.
Arguments Location {A Desc} _ _ _ _ _.

Section LineSource.
Variable A : Type.
Variable Desc : Type.

(** [LineSource]: the iterator over the lines still to come and the
    counters. *)
Record LineSource := MkLineSource {
  ls_description : Desc;
  ls_total_length : option Z;
  ls_lines : list (list A);
  ls_line_count : Z;
  ls_character_count : Z
}.

(** [LineSource.__init__] *)
Definition LineSource_init (lines : list (list A)) (description : Desc)
  : LineSource :=
  MkLineSource description None lines 1 0.

(** [LineSource.__next__] *)
Definition LineSource_next : M LineSource (option (list A) * option (Z * Z)) :=
  fun self =>
    match ls_lines self with
    | l :: rest =>
        let character_count := ls_character_count self in
        let line_count := ls_line_count self in
        (Ret (Some l, Some (character_count, line_count)),
         MkLineSource (ls_description self) (ls_total_length self) rest
                      (line_count + 1) (character_count + len l))
    | [] =>
        (Ret (None, Some (-1, -1)),
         MkLineSource (ls_description self)
                      (Some (ls_character_count self)) []
                      (ls_line_count self) (ls_character_count self))
    end.

(** [LineSource.location] *)
Definition LineSource_location (offset : Z) (l : option (list A))
    (location_state : option (Z * Z)) : M LineSource (location A Desc) :=
  let* self := get in
  match location_state with
  | Some (character_count, line_count) =>
      ret (Location (Some line_count) offset (character_count + offset)
                    l (Some (ls_description self)))
  | None => raise TypeError
  end.

End LineSource.

Arguments MkLineSource {A Desc} _ _ _ _ _.
Arguments ls_lines {A Desc} _.
Arguments ls_total_length {A Desc} _.
Arguments ls_description {A Desc} _.
Arguments ls_line_count {A Desc} _.
Arguments ls_character_count {A Desc} _.

(** The stores of a stream over a [LineSource] made of the lines [all]. *)
Section LineSourceLayout.
Variable A : Type.
Variable Desc : Type.
Variable all : list (list A).
Variable d : Desc.

(** The number of items in the first [k] lines. *)
Definition before (k : nat) : Z := len (concat (take k all)).

(** The source after [made] calls of [__next__]. *)
Definition LineSource_after (made : nat) : LineSource A Desc :=
  MkLineSource d
    (if decide (length all < made)%nat then Some (len (concat all)) else None)
    (drop made all)
    (1 + Z.of_nat (min made (length all)))
    (before made).

(** The [Line] made of what call [k] of [__next__] returned (counting
    from 0), when [made] calls have been made. *)
Definition LineSource_line (made k : nat) : Line A (Z * Z) :=
  MkLine (all !! k) (before k)
    (Some (if decide (k < length all)%nat then (before k, Z.of_nat k + 1)
           else (-1, -1)))
    (if decide (S k < made)%nat then Some (S (S k)) else None).

(** The store after [made] calls: the line the factory starts from at
    address 0, then the lines read, in order. *)
Definition laid_out (made : nat) (st : store A (Z * Z) (LineSource A Desc))
  : Prop :=
  length (heap st) = S made /\
  source st = LineSource_after made /\
  heap st !! 0%nat =
    Some (MkLine None 0 None (if decide (0 < made)%nat then Some 1%nat else None)) /\
  forall k, (k < made)%nat -> heap st !! S k = Some (LineSource_line made k).

End LineSourceLayout.

Arguments before {A} all k.
Arguments LineSource_after {A Desc} all d made.
Arguments LineSource_line {A} all made k.
Arguments laid_out {A Desc} all d made st.

Section CharacterSource.
Variable A : Type.
Variable Desc : Type.

(** [CharacterSource]: the iterator over the items still to come, the
    length of a chunk and the counter. *)
Record CharacterSource := MkCharacterSource {
  cs_description : Desc;
  cs_total_length : option Z;
  cs_characters : list A;
  cs_line_length : Z;
  cs_character_count : Z
}.

(** [CharacterSource.__init__] *)
Definition CharacterSource_init (characters : list A) (description : Desc)
    (line_length : Z) : CharacterSource :=
  MkCharacterSource description None characters line_length 0.

(** [CharacterSource.__next__]: [range(line_length)] is empty when
    [line_length <= 0]. *)
Definition CharacterSource_next : M CharacterSource (option (list A) * option Z) :=
  fun self =>
    let count := Z.to_nat (cs_line_length self) in
    let line := take count (cs_characters self) in
    let rest := drop count (cs_characters self) in
    match line with
    | _ :: _ =>
        let character_count := cs_character_count self in
        (Ret (Some line, Some character_count),
         MkCharacterSource (cs_description self) (cs_total_length self) rest
                           (cs_line_length self) (character_count + len line))
    | [] =>
        (Ret (None, Some (-1)),
         MkCharacterSource (cs_description self)
                           (Some (cs_character_count self)) rest
                           (cs_line_length self) (cs_character_count self))
    end.

End CharacterSource.

Arguments MkCharacterSource {A Desc} _ _ _ _ _.
Arguments cs_total_length {A Desc} _.
Arguments cs_characters {A Desc} _.
Arguments cs_line_length {A Desc} _.
Arguments cs_character_count {A Desc} _.
Arguments CharacterSource_init {A Desc} characters description line_length.
Arguments CharacterSource_next {A Desc} _.

Section Delegate.
(** The stream a derived source reads from. *)
Variable A0 : Type.
Variable LS0 : Type.
Variable Src0 : Type.
Variable Desc : Type.
Variable source_next0 : M Src0 (option (list A0) * option LS0).
Variable source_location0 :
  Z -> option (list A0) -> option LS0 -> M Src0 (location A0 Desc).
(** The items of the transformed data; each item produced by the
    transformation becomes the [line] of one [Line]. *)
Variable B : Type.
Variable transform : A0 -> list (list B).

(** [(-1, -1, -1, None, None)] *)
Definition no_location : location A0 Desc :=
  Location (Some (-1)) (-1) (-1) None None.

(** [BaseDelegateSource.location]; [location_state] is a view into the
    stream read from, whose store the call may extend. *)
Definition BaseDelegateSource_location (offset : Z) (l : option (list B))
    (location_state : option StreamView)
  : M (store A0 LS0 Src0) (location A0 Desc) :=
  match location_state with
  | Some original =>
      let* nonempty := StreamView_bool original in
      if nonempty then
        let* shifted :=
          getitem_open source_next0 original offset in
        StreamView_location source_location0 shifted
      else ret no_location
  | None => ret no_location
  end.

(** [BaseTransformedSource]: its private attributes and the store of
    the stream it reads from. *)
Record BTS := MkBTS {
  bts_total_length : option Z;
  bts_stream : StreamView;
  bts_length : Z;
  bts_state : option StreamView * list (list B);
  bts_under : store A0 LS0 Src0
}.

(** [BaseTransformedSource.__init__] *)
Definition BTS_init (stream : StreamView) (under : store A0 LS0 Src0) : BTS :=
  MkBTS None stream 0 (None, []) under.

Definition with_under {X} (m : M (store A0 LS0 Src0) X) : M BTS X :=
  fun self =>
    let '(r, st) := m (bts_under self) in
    (r, MkBTS (bts_total_length self) (bts_stream self) (bts_length self)
              (bts_state self) st).

Definition set_bts_stream (v : StreamView) (self : BTS) : BTS :=
  MkBTS (bts_total_length self) v (bts_length self) (bts_state self)
        (bts_under self).

(** The [while] loop of [BaseTransformedSource.__next__]. *)
Fixpoint BTS_loop (fuel : nat) (stream_before : option StreamView)
    (transformed : list (list B))
  : M BTS (option StreamView * list (list B)) :=
  let* self := get in
  match transformed with
  | _ :: _ => ret (stream_before, transformed)
  | [] =>
      let* more := with_under (StreamView_bool (bts_stream self)) in
      if more then
        match fuel with
        | O => diverge
        | S fuel' =>
            let* x := with_under
              (getitem_int source_next0 (bts_stream self) 0) in
            let* rest := with_under
              (getitem_open source_next0 (bts_stream self) 1) in
            modify (set_bts_stream rest);;
            BTS_loop fuel' (Some (bts_stream self)) (transform x)
        end
      else ret (stream_before, transformed)
  end.

(** [BaseTransformedSource.__next__] *)
Definition BTS_next (fuel : nat)
  : M BTS (option (list B) * option StreamView) :=
  let* self := get in
  let* found := BTS_loop fuel (fst (bts_state self)) (snd (bts_state self)) in
  match snd found with
  | item :: rest =>
      modify (fun self =>
        MkBTS (bts_total_length self) (bts_stream self)
              (bts_length self + 1) (fst found, rest) (bts_under self));;
      ret (Some item, fst found)
  | [] =>
      modify (fun self =>
        MkBTS (Some (bts_length self)) (bts_stream self)
              (bts_length self) (bts_state self) (bts_under self));;
      ret (None, None)
  end.

(** [BaseDelegateSource.location] as the method of the derived source. *)
Definition BTS_location (offset : Z) (l : option (list B))
    (location_state : option StreamView) : M BTS (location A0 Desc) :=
  with_under (BaseDelegateSource_location offset l location_state).

(** What [__next__] gives with a line: with an item, the view on the
    item of the stream read from that the transformation made it of; at
    the end, [None]. *)
Definition recorded (under : store A0 LS0 Src0) (l : option (list B))
    (location_state : option StreamView) : Prop :=
  match l with
  | Some item =>
      exists original x,
        location_state = Some original /\ item_at under original x /\
        item ∈ transform x
  | None => location_state = None
  end.

(** The items of [__state] still to be handed out come from the item
    under the view kept with them. *)
Definition kept (under : store A0 LS0 Src0)
    (state : option StreamView * list (list B)) : Prop :=
  snd state <> [] ->
  exists original x,
    fst state = Some original /\ item_at under original x /\
    forall item, item ∈ snd state -> item ∈ transform x.

Definition BTS_ok (self : BTS) : Prop :=
  settled (bts_under self) (bts_stream self) /\
  kept (bts_under self) (bts_state self).

(** The stores of a transformed stream: the one the factory starts from,
    and those reached by reading [next] or asking for a [location]. *)
Inductive derived (fuel : nat) : store B StreamView BTS -> Prop :=
| derived_new stream under :
    settled under stream ->
    derived fuel (Store [MkLine None 0 None None] (BTS_init stream under))
| derived_next dst q y dst' :
    derived fuel dst ->
    Line_next (BTS_next fuel) q dst = (y, dst') ->
    derived fuel dst'
| derived_location dst q offset y dst' :
    derived fuel dst ->
    Line_location BTS_location q offset dst = (y, dst') ->
    derived fuel dst'.

End Delegate.

Arguments MkBTS {A0 LS0 Src0 B} _ _ _ _ _.
Arguments bts_under {A0 LS0 Src0 B} _.
Arguments bts_state {A0 LS0 Src0 B} _.
Arguments bts_stream {A0 LS0 Src0 B} _.
Arguments bts_length {A0 LS0 Src0 B} _.
Arguments bts_total_length {A0 LS0 Src0 B} _.
Arguments BTS_init {A0 LS0 Src0 B} stream under.
Arguments with_under {A0 LS0 Src0 B X} m _.
Arguments BaseDelegateSource_location {A0 LS0 Src0 Desc} source_next0
  source_location0 {B} offset l location_state _.
Arguments BTS_loop {A0 LS0 Src0} source_next0 {B} transform fuel
  stream_before transformed _.
Arguments BTS_next {A0 LS0 Src0} source_next0 {B} transform fuel _.
Arguments BTS_location {A0 LS0 Src0 Desc} source_next0 source_location0 {B}
  offset l location_state _.
Arguments no_location {A0 Desc}.
Arguments LineSource_init {A Desc} lines description.
Arguments LineSource_next {A Desc} _.
Arguments LineSource_location {A Desc} offset l location_state _.
Arguments recorded {A0 LS0 Src0 B} transform under l location_state.
Arguments kept {A0 LS0 Src0 B} transform under state.
Arguments BTS_ok {A0 LS0 Src0 B} transform self.
Arguments derived {A0 LS0 Src0 Desc} source_next0 source_location0 {B}
  transform fuel _.

(** [FilteredSource.__init__] over a stream of text: the transformation
    [lambda item: [item] if predicate(item) else []].  The item kept is
    itself the line made of it; an item of a stream of text is a string
    of one character, that is, as a line, the sequence of that one
    character.  (An item that is not a sequence, a number say, cannot
    be a line: [len] of it raises [TypeError].) *)
Definition FilteredSource_transform (predicate : ascii -> bool) (item : ascii)
  : list (list ascii) :=
  if predicate item then [[item]] else [].

End Stream.

(** The stream made from the two lines [1; 2] and [3], as
    [from_lines] makes it: the first line is read, the second is not. *)
Module StreamExample.
Import Stream.

Definition src : LineSource nat unit :=
  LineSource_init [[1%nat; 2%nat]; [3%nat]] tt.

Definition st0 : store nat (Z * Z) (LineSource nat unit) :=
  snd (factory LineSource_next src).

Definition s0 : StreamView := View 1 0.

(** The store after [s0[2]] has been read, and after [s0[2:]] has been
    taken. *)
Definition st_read : store nat (Z * Z) (LineSource nat unit) :=
  snd (getitem_int LineSource_next s0 2 st0).

Definition st_open : store nat (Z * Z) (LineSource nat unit) :=
  snd (getitem_open LineSource_next s0 2 st0).

(** A transformation that keeps the even items and makes a line of one
    item of each: [lambda x: [[x]] if x % 2 == 0 else []]. *)
Definition keep_even (x : nat) : list (list nat) :=
  if Nat.even x then [[x]] else [].

(** The transformed stream as the factory makes it, and after its second
    line, the one that ends the data, has been read. *)
Definition dst0 : store nat StreamView (BTS nat (Z * Z) (LineSource nat unit) nat) :=
  snd (factory (BTS_next LineSource_next keep_even 5) (BTS_init s0 st0)).

Definition dst1 : store nat StreamView (BTS nat (Z * Z) (LineSource nat unit) nat) :=
  snd (Line_next (BTS_next LineSource_next keep_even 5) 1 dst0).

(** A stream of text made of the lines "a1" and "b". *)
Definition text_src : LineSource ascii unit :=
  LineSource_init [["a"; "1"]; ["b"]]%char tt.

Definition st_text : store ascii (Z * Z) (LineSource ascii unit) :=
  snd (factory LineSource_next text_src).

(** [str.isalpha] on the characters of the example. *)
Definition is_letter (c : ascii) : bool := negb (Ascii.eqb c "1").

(** A transformation that makes a line of two items of every item,
    [lambda x: [[x, x + 10]]], and the transformed stream once its three
    lines have been read. *)
Definition pair_up (x : nat) : list (list nat) := [[x; (x + 10)%nat]].

Definition dst_pairs
  : store nat StreamView (BTS nat (Z * Z) (LineSource nat unit) nat) :=
  snd (Line_next (BTS_next LineSource_next pair_up 5) 2
    (snd (Line_next (BTS_next LineSource_next pair_up 5) 1
      (snd (factory (BTS_next LineSource_next pair_up 5) (BTS_init s0 st0)))))).

(** A transformation that makes an empty line of every item,
    [lambda x: [[]]], and the transformed stream as the factory makes
    it. *)
Definition blank (x : nat) : list (list nat) := [[]].

Definition dst_blank
  : store nat StreamView (BTS nat (Z * Z) (LineSource nat unit) nat) :=
  snd (factory (BTS_next LineSource_next blank 5) (BTS_init s0 st0)).

End StreamExample.

(** ** matchers/complex.py: the columns of [_Columns] *)

Module Columns.

(** An entry of [indices]: a pair [(left, right)] or a number of
    characters. *)
Inductive col :=
| Range (left_ right_ : Z)
| Width (n : Z).

Section Clean.
Variable Matcher : Type.

(** The generator [clean()] of [__build_matcher], from a given value of
    its variable [right]: unpacking a number raises the [TypeError] that
    makes the column start where the one before ended. *)
Fixpoint clean_from (right_ : Z) (pairs : list (col * Matcher))
  : list (Z * Z * Matcher) :=
  match pairs with
  | [] => []
  | (Range left' right', matcher) :: rest =>
      (left', right', matcher) :: clean_from right' rest
  | (Width n, matcher) :: rest =>
      (right_, right_ + n, matcher) :: clean_from (right_ + n) rest
  end.

(** [list(clean())] *)
Definition clean (indices : list col) (matchers : list Matcher)
  : list (Z * Z * Matcher) :=
  clean_from 0 (zip indices matchers).

End Clean.

Arguments clean_from {Matcher} right_ pairs.
Arguments clean {Matcher} indices matchers.

End Columns.

(** * Properties of the scheduler *)

Section MonadFacts.
Context {S X Y : Type}.

Lemma bind_Ret (m : M S X) (k : X -> M S Y) s y s' :
  bind m k s = (Ret y, s') ->
  exists x s1, m s = (Ret x, s1) /\ k x s1 = (Ret y, s').
Proof.
  unfold bind. destruct (m s) as [[x| e |] s1]; intros H; try discriminate.
  eauto.
Qed.

Lemma bind_step (m : M S X) (k : X -> M S Y) s x s1 :
  m s = (Ret x, s1) -> bind m k s = k x s1.
Proof. unfold bind. intros ->. reflexivity. Qed.

Lemma bind_Raise (m : M S X) (k : X -> M S Y) s e s1 :
  m s = (Raise e, s1) -> bind m k s = (Raise e, s1).
Proof. unfold bind. intros ->. reflexivity. Qed.

Lemma bind_Diverge (m : M S X) (k : X -> M S Y) s s1 :
  m s = (Diverge, s1) -> bind m k s = (Diverge, s1).
Proof. unfold bind. intros ->. reflexivity. Qed.

Lemma bind_inv (m : M S X) (k : X -> M S Y) s y s' :
  bind m k s = (y, s') ->
  (exists x s1, m s = (Ret x, s1) /\ k x s1 = (y, s')) \/
  (exists e, m s = (Raise e, s') /\ y = Raise e) \/
  (m s = (Diverge, s') /\ y = Diverge).
Proof.
  unfold bind. destruct (m s) as [[x|e|] s1]; intros H.
  - left. eauto.
  - injection H as <- <-. right. left. eauto.
  - injection H as <- <-. right. right. auto.
Qed.

Lemma bind_get (k : S -> M S Y) s : bind get k s = k s s.
Proof. reflexivity. Qed.

Lemma bind_modify (f : S -> S) (k : unit -> M S Y) s :
  bind (modify f) k s = k tt (f s).
Proof. reflexivity. Qed.

Lemma bind_ret (x : X) (k : X -> M S Y) s : bind (ret x) k s = k x s.
Proof. reflexivity. Qed.
End MonadFacts.

Lemma list_pop_app {X} (l : list X) (x : X) : list_pop (l ++ [x]) = Some (x, l).
Proof.
  unfold list_pop. rewrite reverse_app. simpl. rewrite reverse_involutive.
  reflexivity.
Qed.

Lemma list_pop_Some {X} (l : list X) x r : list_pop l = Some (x, r) -> l = r ++ [x].
Proof.
  unfold list_pop. destruct (reverse l) as [|y t] eqn:E; intros H; [discriminate|].
  inversion H; subst. rewrite <- (reverse_involutive l), E.
  rewrite reverse_cons. reflexivity.
Qed.

Lemma list_pop_None {X} (l : list X) : list_pop l = None -> l = [].
Proof.
  unfold list_pop. destruct (reverse l) eqn:E; intros H; [|discriminate].
  rewrite <- (reverse_involutive l), E. reflexivity.
Qed.

Section SchedulerProperties.
Import Parser.
Variable obj : Type.
Variable W : Type.
Variable resume : gen -> action obj -> M W (value obj).
Variable MS : Type.
Variable monitor : option (Monitor obj MS).
Variable main : value obj.

(** A callback changes nothing but the monitor's own state and the
    history of callbacks. *)
Lemma notify_inv n args (s s' : tstate obj W MS) r :
  notify monitor n args s = (r, s') ->
  exists ms,
    s' = set_mstate ms
           (set_calls (calls s ++ (if observed monitor then [(n, args)] else [])) s).
Proof.
  unfold notify, observed. destruct monitor as [m|].
  - destruct (truthy m).
    + destruct (call _ _ _) as [r' ms]. intros [= <- <-]. eauto.
    + intros [= <- <-]. exists (mstate s).
      rewrite app_nil_r. destruct s; reflexivity.
  - intros [= <- <-]. exists (mstate s).
    rewrite app_nil_r. destruct s; reflexivity.
Qed.

Lemma notify_quiet n args (s : tstate obj W MS) :
  observers_return monitor -> length args = sent_args n ->
  exists ms c, notify monitor n args s = (Ret tt, set_mstate ms (set_calls c s)).
Proof.
  unfold observers_return, notify. destruct monitor as [m|].
  - intros H Hlen. destruct (truthy m).
    + destruct (H n args (mstate s) Hlen) as [ms ->]. eauto.
    + exists (mstate s), (calls s). destruct s; reflexivity.
  - intros _ _. exists (mstate s), (calls s).
    destruct s; reflexivity.
Qed.

(** Stepping over a callback of a monitor that returns. *)
Ltac quiet H :=
  match goal with
  | |- context [bind (notify ?mon ?n ?a) ?k ?s] =>
      let ms := fresh "ms" in
      let c := fresh "c" in
      let E := fresh "E" in
      destruct (notify_quiet n a s H eq_refl) as (ms & c & E);
      rewrite (bind_step (notify mon n a) k s tt _ E); clear E
  end.

Lemma handler_caught e (s : tstate obj W MS) :
  observers_return monitor ->
  exists s', handler monitor e s = (Ret tt, s') /\
             caught e (stack s) (world s) s'.
Proof.
  intros Hq. unfold handler. rewrite !bind_modify. quiet Hq.
  rewrite bind_get.
  match goal with |- context [if ?b then _ else _] => destruct b end.
  - rewrite !bind_modify. eexists; split; [reflexivity|].
    repeat split.
  - eexists; split; [reflexivity|]. repeat split.
Qed.

(** The [except] clause: an exception raised in the body while the
    flag is down becomes the current value. *)
Lemma step_catches (s s1 : tstate obj W MS) e :
  observers_return monitor ->
  try_body resume monitor (set_epoch (S (epoch s)) s) = (Raise e, s1) ->
  is_Exception e = true -> exception s1 = false ->
  exists s', step resume monitor main s = Continue s' /\
             caught e (stack s1) (world s1) s'.
Proof.
  intros Hq Hb He Hx. unfold step. rewrite Hb, He, Hx.
  destruct (handler_caught e s1 Hq) as (s' & -> & Hc). eauto.
Qed.

Lemma resume_gen_eq (s : tstate obj W MS) g a r w :
  resume g a (world s) = (r, w) ->
  resume_gen resume g a s = (r, set_world w s).
Proof. unfold resume_gen. intros ->. reflexivity. Qed.

Lemma try_body_next_raises (s : tstate obj W MS) g e w :
  observers_return monitor ->
  cur s = VGen g ->
  resume g ANext (world s) = (Raise e, w) ->
  exists s1, try_body resume monitor s = (Raise e, s1) /\
             stack s1 = stack s ++ [g] /\ world s1 = w /\
             exception s1 = exception s.
Proof.
  intros Hq Hcur Hres.
  unfold try_body. rewrite bind_get. cbn beta.
  quiet Hq. rewrite Hcur.
  quiet Hq. rewrite bind_modify. quiet Hq.
  erewrite bind_Raise by (apply resume_gen_eq; simpl; exact Hres).
  eexists; split; [reflexivity|]. repeat split.
Qed.

Lemma step_next_raises (s : tstate obj W MS) g e w :
  observers_return monitor ->
  cur s = VGen g -> exception s = false ->
  resume g ANext (world s) = (Raise e, w) -> is_Exception e = true ->
  exists s', step resume monitor main s = Continue s' /\
             caught e (stack s ++ [g]) w s'.
Proof.
  intros Hq Hcur Hexc Hres He.
  destruct (try_body_next_raises (set_epoch (S (epoch s)) s) g e w Hq Hcur Hres)
    as (s1 & Hb & Hst & Hw & Hx).
  destruct (step_catches s s1 e Hq Hb He) as (s' & Hs & Hc).
  { rewrite Hx. exact Hexc. }
  exists s'. split; [exact Hs|]. rewrite Hst, Hw in Hc. exact Hc.
Qed.

Lemma pop_stack_eq (s : tstate obj W MS) rest p :
  stack s = rest ++ [p] -> pop_stack s = (Ret p, set_stack rest s).
Proof. unfold pop_stack. intros ->. rewrite list_pop_app. reflexivity. Qed.

(** The frame below the failed one is resumed by [throw]. *)
Lemma try_body_throw (s : tstate obj W MS) e p rest top r w :
  observers_return monitor ->
  exception s = true -> cur s = VExc e ->
  stack s = rest ++ [p] -> last rest = Some top ->
  resume top (AThrow (VExc e)) (world s) = (r, w) ->
  match r with
  | Ret v => exists s1, try_body resume monitor s = (Ret Next, s1) /\
                        resumed v rest w s1
  | Raise e' => exists s1, try_body resume monitor s = (Raise e', s1) /\
                           stack s1 = rest /\ world s1 = w /\
                           exception s1 = false
  | Diverge => exists s1, try_body resume monitor s = (Diverge, s1)
  end.
Proof.
  intros Hq Hx Hcur Hst Hlast Hres.
  unfold try_body. rewrite bind_get. cbn beta.
  quiet Hq. rewrite Hcur.
  erewrite bind_step by (apply pop_stack_eq; simpl; exact Hst).
  quiet Hq. rewrite bind_get. simpl. rewrite Hlast, Hx.
  rewrite bind_modify. quiet Hq.
  destruct r as [v|e'|].
  - erewrite bind_step by (apply resume_gen_eq; simpl; exact Hres).
    rewrite bind_modify. quiet Hq.
    eexists; split; [reflexivity|]. repeat split.
  - erewrite bind_Raise by (apply resume_gen_eq; simpl; exact Hres).
    eexists; split; [reflexivity|]. repeat split.
  - erewrite bind_Diverge by (apply resume_gen_eq; simpl; exact Hres).
    eexists; reflexivity.
Qed.

(** Without a failure the frame below is resumed by [send]. *)
Lemma try_body_send (s : tstate obj W MS) p rest top r w :
  observers_return monitor ->
  exception s = false -> is_generator (cur s) = false ->
  stack s = rest ++ [p] -> last rest = Some top ->
  resume top (ASend (cur s)) (world s) = (r, w) ->
  match r with
  | Ret v => exists s1, try_body resume monitor s = (Ret Next, s1) /\
                        resumed v rest w s1
  | Raise e' => exists s1, try_body resume monitor s = (Raise e', s1) /\
                           stack s1 = rest /\ world s1 = w /\
                           exception s1 = false
  | Diverge => exists s1, try_body resume monitor s = (Diverge, s1)
  end.
Proof.
  intros Hq Hx Hcur Hst Hlast Hres.
  unfold try_body. rewrite bind_get. cbn beta.
  quiet Hq.
  destruct (cur s) as [g|e|o] eqn:Ec; [discriminate| |];
    (erewrite bind_step by (apply pop_stack_eq; simpl; exact Hst);
     quiet Hq; rewrite bind_get; simpl; rewrite Hlast, Hx;
     quiet Hq;
     destruct r as [v|e'|];
     [ erewrite bind_step by (apply resume_gen_eq; simpl; exact Hres);
       rewrite bind_modify; quiet Hq;
       eexists; split; [reflexivity|]; repeat split; assumption
     | erewrite bind_Raise by (apply resume_gen_eq; simpl; exact Hres);
       eexists; split; [reflexivity|]; repeat split; assumption
     | erewrite bind_Diverge by (apply resume_gen_eq; simpl; exact Hres);
       eexists; reflexivity ]).
Qed.

(** With the last frame popped, a failure is raised by the body... *)
Lemma try_body_fatal (s : tstate obj W MS) e p :
  observers_return monitor ->
  exception s = true -> cur s = VExc e -> stack s = [p] ->
  exists s1, try_body resume monitor s = (Raise e, s1) /\
             stack s1 = [] /\ exception s1 = true /\ world s1 = world s.
Proof.
  intros Hq Hx Hcur Hst.
  unfold try_body. rewrite bind_get. cbn beta.
  quiet Hq. rewrite Hcur.
  erewrite bind_step by (apply (pop_stack_eq _ []); simpl; exact Hst).
  quiet Hq. rewrite bind_get. simpl. rewrite Hx.
  quiet Hq.
  eexists; split; [reflexivity|]. repeat split; assumption.
Qed.

(** ... and a result is yielded. *)
Lemma try_body_yield (s : tstate obj W MS) p :
  observers_return monitor ->
  exception s = false -> is_generator (cur s) = false -> stack s = [p] ->
  exists s1, try_body resume monitor s = (Ret (Suspend (cur s)), s1) /\
             stack s1 = [] /\ exception s1 = false /\ world s1 = world s.
Proof.
  intros Hq Hx Hcur Hst.
  unfold try_body. rewrite bind_get. cbn beta.
  quiet Hq.
  destruct (cur s) as [g|e|o] eqn:Ec; [discriminate| |];
    (erewrite bind_step by (apply (pop_stack_eq _ []); simpl; exact Hst);
     quiet Hq; rewrite bind_get; simpl; rewrite Hx;
     quiet Hq;
     eexists; split; [reflexivity|]; repeat split; assumption).
Qed.

Lemma resume_gen_inv (s s1 : tstate obj W MS) g a r :
  resume_gen resume g a s = (r, s1) -> exists w, s1 = set_world w s.
Proof.
  unfold resume_gen. destruct (resume g a (world s)) as [r' w].
  intros [= _ <-]. eauto.
Qed.

Lemma pop_stack_inv (s s1 : tstate obj W MS) p :
  pop_stack s = (Ret p, s1) ->
  exists rest, stack s = rest ++ [p] /\ s1 = set_stack rest s.
Proof.
  unfold pop_stack. destruct (list_pop (stack s)) as [[g rest]|] eqn:E;
    intros [= <- <-].
  exists rest. split; [apply list_pop_Some, E | reflexivity].
Qed.

(** Taking a completed run of the body apart, call by call. *)
Ltac unbind H :=
  let x := fresh "x" in
  let t := fresh "t" in
  let E := fresh "E" in
  apply bind_Ret in H; destruct H as (x & t & E & H);
  first
    [ apply notify_inv in E; destruct E as (? & ->)
    | apply resume_gen_inv in E; destruct E as (? & ->)
    | apply pop_stack_inv in E; destruct E as (? & ? & ->)
    | injection E as <- <-
    | idtac ].

(** C1: a failure raised by a frame is caught by the scheduler and
    becomes the current value with the frame still on the stack; the next
    iteration pops exactly that one frame and resumes the frame below
    with [throw]; with no frame below, the failure is raised out of
    [trampoline] to the caller of the parse. *)
Theorem trampoline_exception_one_frame :
  observers_return monitor ->
  (forall (s : tstate obj W MS) g e w,
      cur s = VGen g -> exception s = false ->
      resume g ANext (world s) = (Raise e, w) -> is_Exception e = true ->
      exists s', step resume monitor main s = Continue s' /\
                 caught e (stack s ++ [g]) w s') /\
  (forall (s : tstate obj W MS) below top p e w,
      exception s = false -> is_generator (cur s) = false ->
      stack s = below ++ [top; p] ->
      resume top (ASend (cur s)) (world s) = (Raise e, w) ->
      is_Exception e = true ->
      exists s', step resume monitor main s = Continue s' /\
                 caught e (below ++ [top]) w s') /\
  (forall (s : tstate obj W MS) e below top p,
      exception s = true -> cur s = VExc e -> stack s = below ++ [top; p] ->
      match resume top (AThrow (VExc e)) (world s) with
      | (Ret v, w) =>
          exists s', step resume monitor main s = Continue s' /\
                     resumed v (below ++ [top]) w s'
      | (Raise e', w) =>
          if is_Exception e' then
            exists s', step resume monitor main s = Continue s' /\
                       caught e' (below ++ [top]) w s'
          else exists s', step resume monitor main s = Raised e' s'
      | (Diverge, _) => exists s', step resume monitor main s = Hangs s'
      end) /\
  (forall (s : tstate obj W MS) e p,
      exception s = true -> cur s = VExc e -> stack s = [p] ->
      exists s', step resume monitor main s = Raised e s' /\ stack s' = []).
Proof.
  intros Hq. repeat split.
  - intros s g e w Hcur Hx Hres He. apply step_next_raises; assumption.
  - intros s below top p e w Hx Hcur Hst Hres He.
    assert (Hst' : stack (set_epoch (S (epoch s)) s) = (below ++ [top]) ++ [p])
      by (rewrite <- app_assoc; exact Hst).
    pose proof (try_body_send (set_epoch (S (epoch s)) s) p (below ++ [top])
                  top (Raise e) w Hq Hx Hcur Hst' (last_snoc _ _) Hres)
      as (s1 & Hb & Hs1 & Hw & Hx1).
    destruct (step_catches s s1 e Hq Hb He Hx1) as (s' & Hs & Hc).
    exists s'. split; [exact Hs|]. rewrite Hs1, Hw in Hc. exact Hc.
  - intros s e below top p Hx Hcur Hst.
    assert (Hst' : stack (set_epoch (S (epoch s)) s) = (below ++ [top]) ++ [p])
      by (rewrite <- app_assoc; exact Hst).
    destruct (resume top (AThrow (VExc e)) (world s)) as [r w] eqn:Hres.
    pose proof (try_body_throw (set_epoch (S (epoch s)) s) e p (below ++ [top])
                  top r w Hq Hx Hcur Hst' (last_snoc _ _) Hres) as H.
    destruct r as [v|e'|].
    + destruct H as (s1 & Hb & Hr). exists s1. unfold step. rewrite Hb.
      split; [reflexivity | exact Hr].
    + destruct H as (s1 & Hb & Hs1 & Hw & Hx1).
      destruct (is_Exception e') eqn:He.
      * destruct (step_catches s s1 e' Hq Hb He Hx1) as (s' & Hs & Hc).
        exists s'. split; [exact Hs|]. rewrite Hs1, Hw in Hc. exact Hc.
      * exists s1. unfold step. rewrite Hb, He. reflexivity.
    + destruct H as (s1 & Hb). exists s1. unfold step. rewrite Hb. reflexivity.
  - intros s e p Hx Hcur Hst.
    destruct (try_body_fatal (set_epoch (S (epoch s)) s) e p Hq Hx Hcur Hst)
      as (s1 & Hb & Hs1 & Hx1 & _).
    exists s1. unfold step. rewrite Hb, Hx1.
    destruct (is_Exception e); split; auto.
Qed.

(** C9: an iteration whose body completes without raising changes the
    depth of the frame stack by exactly one: it pushes the current value
    when that is a generator wrapper and pops one frame otherwise; an
    attached monitor is told of exactly that one push or pop. *)
Theorem trampoline_stack_discipline (s s' : tstate obj W MS) f :
  try_body resume monitor (set_epoch (S (epoch s)) s) = (Ret f, s') ->
  exists notes,
    calls s' = calls s ++ notes /\
    match cur s with
    | VGen g =>
        stack s' = stack s ++ [g] /\
        stack_notes notes =
          if observed monitor then [(Push, [AValue (VGen g)])] else []
    | _ =>
        exists p,
          stack s = stack s' ++ [p] /\
          stack_notes notes =
            if observed monitor then [(Pop, [AValue (VGen p)])] else []
    end.
Proof.
  intros H. unfold try_body in H.
  unbind H. unbind H. simpl in H.
  destruct (cur s) as [g|e|o] eqn:Ec.
  - do 6 unbind H. injection H as <- <-. simpl.
    eexists. split; [rewrite <- !app_assoc; reflexivity|].
    split; [reflexivity|]. destruct (observed monitor); reflexivity.
  - unbind H. unbind H. unbind H. simpl in H.
    destruct (last _); destruct (exception s).
    + do 5 unbind H. injection H as <- <-. simpl.
      eexists. split; [rewrite <- !app_assoc; reflexivity|].
      eexists. split; [eassumption|]. destruct (observed monitor); reflexivity.
    + do 4 unbind H. injection H as <- <-. simpl.
      eexists. split; [rewrite <- !app_assoc; reflexivity|].
      eexists. split; [eassumption|]. destruct (observed monitor); reflexivity.
    + do 2 unbind H. discriminate.
    + unbind H. injection H as <- <-. simpl.
      eexists. split; [rewrite <- !app_assoc; reflexivity|].
      eexists. split; [eassumption|]. destruct (observed monitor); reflexivity.
  - unbind H. unbind H. unbind H. simpl in H.
    destruct (last _); destruct (exception s).
    + do 5 unbind H. injection H as <- <-. simpl.
      eexists. split; [rewrite <- !app_assoc; reflexivity|].
      eexists. split; [eassumption|]. destruct (observed monitor); reflexivity.
    + do 4 unbind H. injection H as <- <-. simpl.
      eexists. split; [rewrite <- !app_assoc; reflexivity|].
      eexists. split; [eassumption|]. destruct (observed monitor); reflexivity.
    + do 2 unbind H. discriminate.
    + unbind H. injection H as <- <-. simpl.
      eexists. split; [rewrite <- !app_assoc; reflexivity|].
      eexists. split; [eassumption|]. destruct (observed monitor); reflexivity.
Qed.

(** A body that completes leaves the flag down. *)
Lemma try_body_lowers_flag (s s' : tstate obj W MS) f :
  failure_held s ->
  try_body resume monitor s = (Ret f, s') -> exception s' = false.
Proof.
  intros Hheld H. unfold try_body in H.
  unbind H. unbind H. simpl in H.
  destruct (cur s) as [g|e|o] eqn:Ec.
  - do 6 unbind H. injection H as <- <-. simpl.
    destruct (exception s) eqn:Ex; [|reflexivity].
    destruct (Hheld Ex) as [e He]. congruence.
  - unbind H. unbind H. unbind H. simpl in H.
    destruct (last _); destruct (exception s) eqn:Ex.
    + do 5 unbind H. injection H as <- <-. reflexivity.
    + do 4 unbind H. injection H as <- <-. simpl. exact Ex.
    + do 2 unbind H. discriminate.
    + unbind H. injection H as <- <-. simpl. exact Ex.
  - unbind H. unbind H. unbind H. simpl in H.
    destruct (last _); destruct (exception s) eqn:Ex.
    + do 5 unbind H. injection H as <- <-. reflexivity.
    + do 4 unbind H. injection H as <- <-. simpl. exact Ex.
    + do 2 unbind H. discriminate.
    + unbind H. injection H as <- <-. simpl. exact Ex.
Qed.

Lemma handler_holds (s s' : tstate obj W MS) e :
  handler monitor e s = (Ret tt, s') -> cur s' = VExc e.
Proof.
  intros H. unfold handler in H. do 4 unbind H. simpl in H.
  match type of H with context [if ?b then _ else _] => destruct b end.
  - do 2 unbind H. injection H as <-. reflexivity.
  - injection H as <-. reflexivity.
Qed.

(** In every state [trampoline] reaches, a raised flag comes with the
    exception that raised it: whatever the monitor does. *)
Lemma step_failure_held (s : tstate obj W MS) :
  failure_held s ->
  match step resume monitor main s with
  | Continue s' | Yield _ s' => failure_held s'
  | _ => True
  end.
Proof.
  intros Hheld. unfold step.
  destruct (try_body resume monitor (set_epoch (S (epoch s)) s))
    as [[f|e|] s1] eqn:Hb.
  - apply try_body_lowers_flag in Hb; [|exact Hheld].
    destruct f; intros Hx; simpl in Hx; congruence.
  - destruct (is_Exception e); [|exact I].
    destruct (exception s1); [exact I|].
    destruct (handler monitor e s1) as [[[]| |] s2] eqn:Hh; try exact I.
    intros _. exists e. eapply handler_holds; exact Hh.
  - exact I.
Qed.

Lemma init_failure_held (w : W) (ms : MS) : failure_held (init main w ms).
Proof. intros Hx. discriminate. Qed.

(** *** A monitor whose callbacks return changes nothing *)

Lemma notify_None n args (s : tstate obj W MS) :
  notify (None : option (Monitor obj MS)) n args s = (Ret tt, s).
Proof. reflexivity. Qed.

Ltac mute :=
  match goal with
  | |- context [bind (notify None ?n ?a) ?k ?s] =>
      rewrite (bind_step (notify None n a) k s tt s (notify_None n a s))
  end.

(** Running the same resumption of a generator on both sides. *)
Ltac resumes Hr Hw :=
  repeat match goal with
  | |- context [bind (resume_gen ?res ?g ?a) ?k ?s] =>
      first
        [ erewrite (bind_step (resume_gen res g a) k s)
            by (apply resume_gen_eq; simpl; rewrite ?Hw; exact Hr)
        | erewrite (bind_Raise (resume_gen res g a) k s)
            by (apply resume_gen_eq; simpl; rewrite ?Hw; exact Hr)
        | erewrite (bind_Diverge (resume_gen res g a) k s)
            by (apply resume_gen_eq; simpl; rewrite ?Hw; exact Hr) ]
  end.

Lemma pop_stack_empty (s : tstate obj W MS) :
  stack s = [] -> pop_stack s = (Raise (IndexError None), s).
Proof. unfold pop_stack. intros ->. reflexivity. Qed.

(** Running the same [stack.pop()] on both sides. *)
Ltac pops Hp Hst :=
  repeat match goal with
  | |- context [bind pop_stack ?k ?s] =>
      first
        [ erewrite (bind_step pop_stack k s)
            by (apply pop_stack_eq; simpl; rewrite ?Hst; exact Hp)
        | erewrite (bind_Raise pop_stack k s)
            by (apply pop_stack_empty; simpl; rewrite ?Hst; exact Hp) ]
  end.

Ltac same_end :=
  eexists _, _, _; split; [reflexivity|]; split; [reflexivity|];
  unfold same_run; simpl; repeat split; congruence.

Lemma try_body_transparent (s s0 : tstate obj W MS) :
  observers_return monitor -> same_run s s0 ->
  exists r s1 s01,
    try_body resume monitor s = (r, s1) /\
    try_body resume None s0 = (r, s01) /\
    same_run s1 s01.
Proof.
  intros Hq (Hst & Hcur & Hx & Hep & Hle & Hw & Hlog).
  unfold try_body. rewrite !bind_get. cbn beta.
  quiet Hq. mute. simpl cur. rewrite Hcur.
  destruct (cur s0) as [g|e|o] eqn:Ec.
  - quiet Hq. mute. rewrite !bind_modify. quiet Hq. mute.
    destruct (resume g ANext (world s0)) as [[v|e|] w'] eqn:Hr.
    + resumes Hr Hw.
      rewrite !bind_modify. quiet Hq. mute.
      eexists _, _, _. split; [reflexivity|]. split; [reflexivity|].
      unfold same_run; simpl; repeat split; congruence.
    + resumes Hr Hw.
      eexists _, _, _. split; [reflexivity|]. split; [reflexivity|].
      unfold same_run; simpl; repeat split; congruence.
    + resumes Hr Hw.
      eexists _, _, _. split; [reflexivity|]. split; [reflexivity|].
      unfold same_run; simpl; repeat split; congruence.
  - destruct (list_pop (stack s0)) as [[p rest]|] eqn:Hp;
      [apply list_pop_Some in Hp | apply list_pop_None in Hp; pops Hp Hst; same_end].
    pops Hp Hst. quiet Hq. mute. rewrite !bind_get. simpl. rewrite Hx.
    destruct (last rest) as [top|]; destruct (exception s0) eqn:Ex0.
    + rewrite !bind_modify. quiet Hq. mute.
      destruct (resume top (AThrow (VExc e)) (world s0)) as [[v|e'|] w'] eqn:Hr;
        resumes Hr Hw; rewrite ?bind_modify; try (quiet Hq; mute); same_end.
    + quiet Hq. mute.
      destruct (resume top (ASend (VExc e)) (world s0)) as [[v|e'|] w'] eqn:Hr;
        resumes Hr Hw; rewrite ?bind_modify; try (quiet Hq; mute); same_end.
    + quiet Hq. mute. same_end.
    + quiet Hq. mute. same_end.
  - destruct (list_pop (stack s0)) as [[p rest]|] eqn:Hp;
      [apply list_pop_Some in Hp | apply list_pop_None in Hp; pops Hp Hst; same_end].
    pops Hp Hst. quiet Hq. mute. rewrite !bind_get. simpl. rewrite Hx.
    destruct (last rest) as [top|]; destruct (exception s0) eqn:Ex0.
    + rewrite !bind_modify. quiet Hq. mute.
      destruct (resume top (AThrow (VObj o)) (world s0)) as [[v|e'|] w'] eqn:Hr;
        resumes Hr Hw; rewrite ?bind_modify; try (quiet Hq; mute); same_end.
    + quiet Hq. mute.
      destruct (resume top (ASend (VObj o)) (world s0)) as [[v|e'|] w'] eqn:Hr;
        resumes Hr Hw; rewrite ?bind_modify; try (quiet Hq; mute); same_end.
    + quiet Hq. mute. same_end.
    + quiet Hq. mute. same_end.
Qed.


Lemma handler_transparent (s s0 : tstate obj W MS) e :
  observers_return monitor -> same_run s s0 ->
  exists s1 s01,
    handler monitor e s = (Ret tt, s1) /\
    handler None e s0 = (Ret tt, s01) /\
    same_run s1 s01.
Proof.
  intros Hq (Hst & Hcur & Hx & Hep & Hle & Hw & Hlog).
  unfold handler. rewrite !bind_modify. quiet Hq. mute. rewrite !bind_get.
  simpl. rewrite Hle.
  destruct (negb (is_StopIteration e) && _).
  - rewrite !bind_modify. eexists _, _. split; [reflexivity|].
    split; [reflexivity|]. unfold same_run; simpl; repeat split; congruence.
  - eexists _, _. split; [reflexivity|].
    split; [reflexivity|]. unfold same_run; simpl; repeat split; congruence.
Qed.

Lemma step_transparent (s s0 : tstate obj W MS) :
  observers_return monitor -> same_run s s0 ->
  match step resume monitor main s, step resume None main s0 with
  | Continue a, Continue b | Hangs a, Hangs b => same_run a b
  | Yield v a, Yield v0 b | Raised v a, Raised v0 b => v = v0 /\ same_run a b
  | _, _ => False
  end.
Proof.
  intros Hq Hs.
  destruct (try_body_transparent (set_epoch (S (epoch s)) s)
              (set_epoch (S (epoch s0)) s0) Hq)
    as (r & s1 & s01 & H1 & H2 & Hs1).
  { destruct Hs as (Hst & Hcur & Hx & Hep & Hle & Hw & Hlog).
    unfold same_run; simpl; repeat split; congruence. }
  unfold step. rewrite H1, H2.
  destruct r as [[|v]|e|].
  - exact Hs1.
  - split; [reflexivity|].
    destruct Hs1 as (Hst & Hcur & Hx & Hep & Hle & Hw & Hlog).
    unfold same_run; simpl; repeat split; congruence.
  - destruct (is_Exception e); [|split; [reflexivity|exact Hs1]].
    assert (Hx : exception s1 = exception s01) by apply Hs1. rewrite Hx.
    destruct (exception s01); [split; [reflexivity|exact Hs1]|].
    destruct (handler_transparent s1 s01 e Hq Hs1) as (s2 & s02 & -> & -> & Hs2).
    exact Hs2.
  - exact Hs1.
Qed.

(** With a monitor whose callbacks take what they are passed and return,
    [trampoline] yields and raises what it does without one. *)
Lemma pull_transparent fuel : forall (s s0 : tstate obj W MS),
  observers_return monitor -> same_run s s0 ->
  fst (pull resume monitor main fuel s) = fst (pull resume None main fuel s0) /\
  same_run (snd (pull resume monitor main fuel s))
           (snd (pull resume None main fuel s0)).
Proof.
  induction fuel as [|fuel IH]; intros s s0 Hq Hs; [split; [reflexivity|exact Hs]|].
  pose proof (step_transparent s s0 Hq Hs) as H. cbn [pull].
  destruct (step resume monitor main s) as [a|v a|e a|a];
    destruct (step resume None main s0) as [b|v0 b|e0 b|b];
    try contradiction; cbn [fst snd].
  - apply IH; assumption.
  - destruct H as [-> H]. auto.
  - destruct H as [-> H]. auto.
  - auto.
Qed.

(** C2 (the defect): [trampoline] passes four arguments to
    [next_iteration], which [MonitorInterface] declares with three; the
    [TypeError] of the first iteration is taken for a failure of the
    parse, the one of the second iteration is raised to the caller. *)
Theorem MonitorInterface_TypeError (w : W) (fuel : nat) :
  fst (pull resume (Some (MonitorInterface obj)) main (S (S fuel))
            (init main w tt)) = Raise TypeError.
Proof. reflexivity. Qed.

(** *** Every iteration, whatever its outcome *)

Lemma pop_stack_any (s s1 : tstate obj W MS) r :
  pop_stack s = (r, s1) ->
  (r = Raise (IndexError None) /\ stack s = [] /\ s1 = s) \/
  exists rest p, r = Ret p /\ stack s = rest ++ [p] /\ s1 = set_stack rest s.
Proof.
  unfold pop_stack. destruct (list_pop (stack s)) as [[g rest]|] eqn:E;
    intros [= <- <-].
  - right. exists rest, g. split; [reflexivity|].
    split; [apply list_pop_Some, E | reflexivity].
  - left. split; [reflexivity|]. split; [apply list_pop_None, E | reflexivity].
Qed.

Ltac unbind_any H :=
  let x := fresh "x" in
  let t := fresh "t" in
  let E := fresh "E" in
  let e := fresh "e" in
  apply bind_inv in H;
  destruct H as [(x & t & E & H) | [(e & E & ->) | (E & ->)]];
  first
    [ apply notify_inv in E; destruct E as (? & ->)
    | apply resume_gen_inv in E; destruct E as (? & ->)
    | apply pop_stack_any in E;
      destruct E as [(E & ? & ->) | (? & ? & E & ? & ->)];
      [try discriminate E | try discriminate E]
    | discriminate E
    | injection E as <- <-
    | injection E as <-
    | idtac ].

Ltac one_frame :=
  simpl in *;
  first
    [ left; reflexivity
    | right; left; eexists; reflexivity
    | right; right; eexists; eassumption ].

Lemma try_body_one_frame (s s1 : tstate obj W MS) r :
  try_body resume monitor s = (r, s1) ->
  stack s1 = stack s \/ (exists g, stack s1 = stack s ++ [g]) \/
  (exists g, stack s = stack s1 ++ [g]).
Proof.
  intros H. unfold try_body in H.
  unbind_any H; try solve [one_frame].
  unbind_any H; try solve [one_frame].
  simpl in H. destruct (cur s) as [g|e|o].
  - do 6 (unbind_any H; try solve [one_frame]).
    injection H as <- <-. one_frame.
  - unbind_any H; try solve [one_frame].
    unbind_any H; try solve [one_frame].
    unbind_any H; try solve [one_frame].
    simpl in H. destruct (last _); destruct (exception s);
      repeat (unbind_any H; try solve [one_frame]);
      try (injection H as <- <-); one_frame.
  - unbind_any H; try solve [one_frame].
    unbind_any H; try solve [one_frame].
    unbind_any H; try solve [one_frame].
    simpl in H. destruct (last _); destruct (exception s);
      repeat (unbind_any H; try solve [one_frame]);
      try (injection H as <- <-); one_frame.
Qed.

Lemma handler_stack (s s' : tstate obj W MS) e r :
  handler monitor e s = (r, s') -> stack s' = stack s.
Proof.
  intros H. unfold handler in H.
  do 4 (unbind_any H; try reflexivity). simpl in H.
  match type of H with context [if ?b then _ else _] => destruct b end.
  - do 2 (unbind_any H; try reflexivity). injection H as _ <-. reflexivity.
  - injection H as _ <-. reflexivity.
Qed.

(** No iteration, however it ends, moves the frame stack by more than one
    frame. *)
Lemma step_stack_by_one (s : tstate obj W MS) :
  match step resume monitor main s with
  | Continue s' | Yield _ s' | Raised _ s' | Hangs s' =>
      stack s' = stack s \/ (exists g, stack s' = stack s ++ [g]) \/
      (exists g, stack s = stack s' ++ [g])
  end.
Proof.
  unfold step.
  destruct (try_body resume monitor (set_epoch (S (epoch s)) s))
    as [[f|e|] s1] eqn:Hb;
    apply try_body_one_frame in Hb; simpl in Hb.
  - destruct f; exact Hb.
  - destruct (is_Exception e); [|exact Hb].
    destruct (exception s1); [exact Hb|].
    destruct (handler monitor e s1) as [[[]| |] s2] eqn:Hh;
      apply handler_stack in Hh; rewrite Hh; exact Hb.
  - exact Hb.
Qed.

(** A result is yielded only when the last frame has been popped, and
    the generator resumes from there with [main] as its value. *)
Theorem yield_at_empty_stack (s s' : tstate obj W MS) v :
  step resume monitor main s = Yield v s' ->
  stack s' = [] /\ cur s' = main /\ exception s' = false /\
  is_generator v = false /\ cur s = v /\ exists p, stack s = [p].
Proof.
  unfold step.
  destruct (try_body resume monitor (set_epoch (S (epoch s)) s))
    as [[[|v0]|e|] s1] eqn:H; try discriminate.
  - intros [= <- <-]. unfold try_body in H.
    unbind H. unbind H. simpl in H.
    destruct (cur s) as [g|e|o] eqn:Ec.
    + do 6 unbind H. discriminate.
    + unbind H. unbind H. unbind H. simpl in H.
      destruct (last _) eqn:El; destruct (exception s) eqn:Ex.
      * do 5 unbind H. discriminate.
      * do 4 unbind H. discriminate.
      * do 2 unbind H. discriminate.
      * unbind H. injection H as <- <-. simpl.
        apply last_None in El. subst. simpl in *. eauto 10.
    + unbind H. unbind H. unbind H. simpl in H.
      destruct (last _) eqn:El; destruct (exception s) eqn:Ex.
      * do 5 unbind H. discriminate.
      * do 4 unbind H. discriminate.
      * do 2 unbind H. discriminate.
      * unbind H. injection H as <- <-. simpl.
        apply last_None in El. subst. simpl in *. eauto 10.
  - destruct (is_Exception e); [|discriminate].
    destruct (exception s1); [discriminate|].
    destruct (handler monitor e s1) as [[[]| |] s2]; discriminate.
Qed.

Lemma same_run_refl (s : tstate obj W MS) : same_run s s.
Proof. repeat split. Qed.

(** A [main] that is not a generator wrapper leaves nothing to pop: the
    first [next()] raises [IndexError]. *)
Theorem plain_main_IndexError (w : W) (ms : MS) (fuel : nat) :
  observers_return monitor -> is_generator main = false ->
  fst (pull resume monitor main (S (S fuel)) (init main w ms))
  = Raise (IndexError None).
Proof.
  intros Hq Hm.
  rewrite (proj1 (pull_transparent (S (S fuel)) _ _ Hq (same_run_refl _))).
  destruct main; [discriminate| |]; reflexivity.
Qed.


(** A monitor whose callbacks work on the monitor's own attributes,
    take what they are passed and return, does not change what a caller
    gets from the trampoline: the same results in the same order, ended
    by the same exception.  (A callback that changes the list [stack]
    or resumes a generator it is handed is not such a monitor.) *)
Theorem quiet_monitor_same_results (fuel k : nat) (w : W) (ms : MS) :
  observers_return monitor ->
  take_results resume monitor main fuel k (init main w ms)
  = take_results resume None main fuel k (init main w ms).
Proof.
  intros Hq.
  assert (H : forall k (s s0 : tstate obj W MS), same_run s s0 ->
             take_results resume monitor main fuel k s
             = take_results resume None main fuel k s0).
  { clear k. induction k as [|k IH]; intros s s0 Hs; [reflexivity|].
    cbn [take_results].
    destruct (pull_transparent fuel s s0 Hq Hs) as [Hr Hn].
    destruct (pull resume monitor main fuel s) as [r s'].
    destruct (pull resume None main fuel s0) as [r0 s0'].
    cbn [fst snd] in Hr, Hn. subst r0.
    destruct r; [rewrite (IH s' s0' Hn)|..]; reflexivity. }
  apply H. apply same_run_refl.
Qed.

End SchedulerProperties.

(** With no monitor attached, no iteration, however it ends (the loop
    goes on, a result is yielded, an exception is raised to the caller,
    a generator does not return) and whatever the generators do, moves
    the frame stack by more than one frame: the stack is left as it was,
    gets one frame pushed, or loses its top frame. *)
Theorem step_one_frame (obj W MS : Type)
    (resume : Parser.gen -> Parser.action obj -> M W (Parser.value obj))
    (main : Parser.value obj) (s : Parser.tstate obj W MS) :
  match Parser.step resume None main s with
  | Parser.Continue s' | Parser.Yield _ s' | Parser.Raised _ s'
  | Parser.Hangs s' =>
      Parser.stack s' = Parser.stack s \/
      (exists g, Parser.stack s' = Parser.stack s ++ [g]) \/
      (exists g, Parser.stack s = Parser.stack s' ++ [g])
  end.
Proof. exact (step_stack_by_one obj W resume MS None main s). Qed.

Lemma Counting_returns :
  Parser.observers_return (Some SchedulerExample.Counting).
Proof.
  intros n args ms Hlen. exists (S ms). unfold Parser.call. cbn.
  rewrite Hlen, Nat.eqb_refl. reflexivity.
Qed.

Lemma step_failure_held_witness :
  match Parser.step SchedulerExample.resume (Some SchedulerExample.Counting)
          SchedulerExample.main
          (Parser.TState [0%nat] (Parser.VGen 1%nat) false 1%nat None
                         (1%nat, 0%nat) 0%nat [] []) with
  | Parser.Continue s' | Parser.Yield _ s' => Parser.failure_held s'
  | _ => True
  end.
Proof.
  exact (step_failure_held nat (nat * nat)%type SchedulerExample.resume nat
           (Some SchedulerExample.Counting) SchedulerExample.main
           (Parser.TState [0%nat] (Parser.VGen 1%nat) false 1%nat None
                          (1%nat, 0%nat) 0%nat [] [])
           ltac:(intros H; discriminate H)).
Defined.

Lemma yield_at_empty_stack_witness :
  [] = @nil Parser.gen /\ SchedulerExample.main = SchedulerExample.main /\
  false = false /\ Parser.is_generator (Parser.VObj (obj := nat) 7%nat) = false /\
  Parser.VObj 7%nat = Parser.VObj 7%nat /\ exists p, [0%nat] = [p].
Proof.
  exact (yield_at_empty_stack nat (nat * nat)%type SchedulerExample.resume unit
           None SchedulerExample.main
           (Parser.TState [0%nat] (Parser.VObj 7%nat) false 3%nat None
                          (2%nat, 1%nat) tt [] [])
           (Parser.TState [] SchedulerExample.main false 4%nat None
                          (2%nat, 1%nat) tt [] [])
           (Parser.VObj 7%nat) eq_refl).
Defined.

Lemma plain_main_IndexError_witness :
  fst (Parser.pull SchedulerExample.resume (Some SchedulerExample.Counting)
         (Parser.VObj 7%nat) 2
         (Parser.init (Parser.VObj 7%nat) (0%nat, 0%nat) 0%nat))
  = Raise (IndexError None).
Proof.
  exact (plain_main_IndexError nat (nat * nat)%type SchedulerExample.resume nat
           (Some SchedulerExample.Counting) (Parser.VObj 7%nat)
           (0%nat, 0%nat) 0%nat 0 Counting_returns eq_refl).
Defined.


Lemma quiet_monitor_same_results_witness :
  Parser.take_results SchedulerExample.resume (Some SchedulerExample.Counting)
    SchedulerExample.main 8 3
    (Parser.init SchedulerExample.main (0%nat, 0%nat) 0%nat)
  = Parser.take_results SchedulerExample.resume None SchedulerExample.main 8 3
      (Parser.init SchedulerExample.main (0%nat, 0%nat) 0%nat).
Proof.
  exact (quiet_monitor_same_results nat (nat * nat)%type SchedulerExample.resume
           nat (Some SchedulerExample.Counting) SchedulerExample.main 8 3
           (0%nat, 0%nat) 0%nat Counting_returns).
Defined.

(** C2, on the example graph: without a monitor the first result is 7. *)
Lemma example_first_result :
  fst (Parser.pull SchedulerExample.resume None SchedulerExample.main 4
         SchedulerExample.start) = Ret (Parser.VObj 7%nat).
Proof. reflexivity. Qed.

Lemma trampoline_exception_one_frame_witness :
  (exists s',
      Parser.step SchedulerExample.resume None SchedulerExample.main
                  SchedulerExample.failed = Parser.Continue s' /\
      Parser.resumed (Parser.VObj 7%nat) [0%nat] (2%nat, 1%nat) s') /\
  (exists s',
      Parser.step SchedulerExample.resume None SchedulerExample.main
        (Parser.TState [0%nat] (Parser.VGen 1%nat) false 1%nat None
                       (1%nat, 0%nat) tt [] []) = Parser.Continue s' /\
      Parser.caught (Failure 5) [0%nat; 1%nat] (1%nat, 1%nat) s') /\
  (exists s',
      Parser.step SchedulerExample.resume None SchedulerExample.main
        (Parser.TState [0%nat] (Parser.VExc StopIteration) true 5%nat None
                       (2%nat, 1%nat) tt [] []) = Parser.Raised StopIteration s' /\
      Parser.stack s' = []).
Proof.
  destruct (trampoline_exception_one_frame nat (nat * nat)%type
              SchedulerExample.resume unit None SchedulerExample.main I)
    as (Hnext & _ & Hthrow & Hfatal).
  split; [|split].
  - exact (Hthrow SchedulerExample.failed (Failure 5) [] 0%nat 1%nat
                  eq_refl eq_refl eq_refl).
  - exact (Hnext (Parser.TState [0%nat] (Parser.VGen 1%nat) false 1%nat None
                                (1%nat, 0%nat) tt [] [])
                 1%nat (Failure 5) (1%nat, 1%nat)
                 eq_refl eq_refl eq_refl eq_refl).
  - exact (Hfatal (Parser.TState [0%nat] (Parser.VExc StopIteration) true 5%nat
                                 None (2%nat, 1%nat) tt [] [])
                  StopIteration 0%nat eq_refl eq_refl eq_refl).
Defined.

Lemma trampoline_stack_discipline_witness :
  exists notes : list (Parser.mname * list (Parser.arg nat)),
    [(Parser.NextIteration,
      [Parser.AInt 1; Parser.AValue (Parser.VGen 0%nat); Parser.ABool false;
       Parser.AStack []]);
     (Parser.Push, [Parser.AValue (Parser.VGen 0%nat)]);
     (Parser.BeforeNext, [Parser.AValue (Parser.VGen 0%nat)]);
     (Parser.AfterNext, [Parser.AValue (Parser.VGen 1%nat)])] = [] ++ notes /\
    [0%nat] = [] ++ [0%nat] /\
    Parser.stack_notes notes = [(Parser.Push, [Parser.AValue (Parser.VGen 0%nat)])].
Proof.
  exact (trampoline_stack_discipline nat (nat * nat)%type
           SchedulerExample.resume nat (Some SchedulerExample.Counting)
           (Parser.init SchedulerExample.main (0%nat, 0%nat) 0%nat)
           (Parser.TState [0%nat] (Parser.VGen 1%nat) false 1%nat None (1%nat, 0%nat) 4%nat
              [(Parser.NextIteration,
                [Parser.AInt 1; Parser.AValue (Parser.VGen 0%nat);
                 Parser.ABool false; Parser.AStack []]);
               (Parser.Push, [Parser.AValue (Parser.VGen 0%nat)]);
               (Parser.BeforeNext, [Parser.AValue (Parser.VGen 0%nat)]);
               (Parser.AfterNext, [Parser.AValue (Parser.VGen 1%nat)])] [])
           Parser.Next eq_refl).
Defined.

Section ConfigurationProperties.
Import Parser.
Variable obj : Type.
Variable MS : Type.
Variable Flat : Type.
Variable Memo : Type.
Variable LogMixin_init : res unit.

Lemma Configuration_no_monitor f m :
  Configuration_init obj MS Flat Memo LogMixin_init f m None
  = Ret (Build_Configuration obj MS Flat Memo
           (match f with None => [] | Some x => x end)
           (match m with None => [] | Some x => x end) None) /\
  Configuration_init obj MS Flat Memo LogMixin_init f m (Some [])
  = Ret (Build_Configuration obj MS Flat Memo
           (match f with None => [] | Some x => x end)
           (match m with None => [] | Some x => x end) None).
Proof. split; reflexivity. Qed.

Lemma Configuration_one_monitor f m mon :
  Configuration_init obj MS Flat Memo LogMixin_init f m (Some [mon])
  = Ret (Build_Configuration obj MS Flat Memo
           (match f with None => [] | Some x => x end)
           (match m with None => [] | Some x => x end)
           (Some (Single obj MS mon))).
Proof. reflexivity. Qed.

(** C8 (the defect): with two or more monitors [Configuration.__init__]
    calls [MultipleMonitors(monitors)], whose [__init__] takes no
    argument: the construction raises [TypeError]. *)
Theorem Configuration_monitors_TypeError f m mon1 mon2 rest :
  Configuration_init obj MS Flat Memo LogMixin_init f m
                     (Some (mon1 :: mon2 :: rest)) = Raise TypeError.
Proof. reflexivity. Qed.

(** No call of [MultipleMonitors] returns an instance, whatever the
    arguments: with arguments it raises [TypeError], and without, its
    body stops at the unbound name [monitors], if not before. *)
Theorem MultipleMonitors_never_built args :
  match MultipleMonitors_new obj MS LogMixin_init args with
  | Ret _ => False
  | Raise e => args <> [] /\ e = TypeError \/
               args = [] /\ (e = NameError \/ LogMixin_init = Raise e)
  | Diverge => args = [] /\ LogMixin_init = Diverge
  end.
Proof.
  unfold MultipleMonitors_new, MultipleMonitors_init_body,
    MultipleMonitors_init_params.
  destruct args as [|a args]; cbn [length Nat.eqb].
  - destruct LogMixin_init; auto.
  - left. split; [discriminate|reflexivity].
Qed.

(** Called as its [def] asks, without arguments, the constructor does
    not return either. *)
Lemma MultipleMonitors_not_constructible args a :
  MultipleMonitors_new obj MS LogMixin_init args <> Ret a.
Proof.
  unfold MultipleMonitors_new, MultipleMonitors_init_body.
  destruct (Nat.eqb _ _); [|discriminate].
  destruct LogMixin_init; discriminate.
Qed.

End ConfigurationProperties.

Section MakeParserProperties.
Import Parser.
Variable Values : Type.
Variable Pos : Type.
Variable Arg : Type.
Variable W : Type.
Variable resume : gen -> action (Values * Pos) -> M W (value (Values * Pos)).
Variable MS : Type.
Variable monitor : option (Monitor (Values * Pos) MS).
Variable ms0 : MS.
Variable graph : Arg -> value (Values * Pos) * W.

(** C4: [single] asks the result sequence for exactly one item (the
    generator is left as the first [next()] left it); it returns the
    matched values of that first result, and [None] exactly when the
    first [next()] raised [StopIteration]. *)
Theorem single_first_result (fuel : nat) (arg : Arg) :
  let first := pull resume monitor (fst (graph arg)) fuel
                    (init (fst (graph arg)) (snd (graph arg)) ms0) in
  let out := single Values Pos Arg W resume MS monitor ms0 graph fuel arg in
  snd out = snd first /\
  (forall vals pos, fst first = Ret (VObj (vals, pos)) ->
                    fst out = Ret (Some vals)) /\
  (fst out = Ret None <-> fst first = Raise StopIteration).
Proof.
  unfold single. destruct (graph arg) as [main w]. simpl.
  destruct (pull _ _ _ _ _) as [[v|e|] s]; simpl.
  - destruct v as [g|e|[vals pos]]; simpl; repeat split;
      try discriminate; intros; congruence.
  - unfold or_None. destruct e; simpl; repeat split;
      try discriminate; intros; congruence.
  - repeat split; try discriminate; intros; congruence.
Qed.

End MakeParserProperties.

Lemma single_first_result_witness :
  fst (Parser.single (list nat) nat bool nat SchedulerExample.parse_resume unit
                     None tt SchedulerExample.graph 2 true)
  = Ret (Some [1%nat; 2%nat]) /\
  fst (Parser.single (list nat) nat bool nat SchedulerExample.parse_resume unit
                     None tt SchedulerExample.graph 2 false)
  = Ret None.
Proof.
  split.
  - exact (proj1 (proj2 (single_first_result (list nat) nat bool nat
                   SchedulerExample.parse_resume unit None tt
                   SchedulerExample.graph 2 true))
                 [1%nat; 2%nat] 3%nat eq_refl).
  - exact (proj2 (proj2 (proj2 (single_first_result (list nat) nat bool nat
                   SchedulerExample.parse_resume unit None tt
                   SchedulerExample.graph 2 false)))
                 eq_refl).
Defined.

(** * Properties of the stream model *)

Section StreamProperties.
Import Stream.
Variable A : Type.
Variable LS : Type.
Variable Src : Type.
Variable source_next : M Src (option (list A) * option LS).
Variable join : list (list A) -> list A.

Lemma truth_len (l : list A) : truth (Some l) = true -> 1 <= len l.
Proof. destruct l; [discriminate|]. unfold len. simpl. lia. Qed.

Lemma at_loop_eq fuel r i (st : store A LS Src) :
  at_loop source_next fuel r i st =
  (let* L := deref r in
   match line L with
   | Some l =>
       if truth (Some l) && (len l <=? i) then
         match fuel with
         | O => diverge
         | S fuel' =>
             let* nxt := Line_next source_next r in
             at_loop source_next fuel' nxt (i - len l)
         end
       else ret (r, i)
   | None => ret (r, i)
   end) st.
Proof. destruct fuel; reflexivity. Qed.

Lemma loop_goes_on (l : list A) i :
  truth (Some l) && (len l <=? i) = true -> 1 <= len l <= i.
Proof.
  intros H. apply andb_true_iff in H as [Ht Hle].
  apply truth_len in Ht. apply Z.leb_le in Hle. lia.
Qed.

(** More fuel than the index needs changes nothing. *)
Lemma at_loop_fuel (f1 f2 : nat) r i (st : store A LS Src) :
  (Z.to_nat i <= f1)%nat -> (Z.to_nat i <= f2)%nat ->
  at_loop source_next f1 r i st = at_loop source_next f2 r i st.
Proof.
  revert f2 r i st. induction f1 as [|f1 IH]; intros f2 r i st H1 H2;
    rewrite (at_loop_eq _ r), (at_loop_eq f2 r); unfold bind;
    destruct (deref r st) as [[L| |] st1]; try reflexivity;
    destruct (line L) as [l|]; try reflexivity;
    destruct (truth (Some l) && (len l <=? i)) eqn:Hc; try reflexivity;
    apply loop_goes_on in Hc.
  - lia.
  - destruct f2 as [|f2]; [lia|].
    destruct (Line_next source_next r st1) as [[nxt| |] st2]; try reflexivity.
    apply IH; lia.
Qed.

(** Walking [i + m] items goes through the line reached after [i]. *)
Lemma at_loop_split (f : nat) r i m (st : store A LS Src) :
  0 <= m -> (Z.to_nat i <= f)%nat ->
  at_loop source_next (Z.to_nat (i + m)) r (i + m) st =
  match at_loop source_next f r i st with
  | (Ret found, st1) =>
      at_loop source_next (Z.to_nat (snd found + m)) (fst found)
              (snd found + m) st1
  | (Raise e, st1) => (Raise e, st1)
  | (Diverge, st1) => (Diverge, st1)
  end.
Proof.
  intros Hm. revert r i st. induction f as [|f IH]; intros r i st Hf.
  - rewrite (at_loop_eq 0 r i). unfold bind, deref.
    destruct (heap st !! r) as [L|] eqn:HL.
    + destruct (line L) as [l|] eqn:Hl; [|reflexivity].
      destruct (truth (Some l) && (len l <=? i)) eqn:Hc; [|reflexivity].
      apply loop_goes_on in Hc. lia.
    + rewrite at_loop_eq. unfold bind, deref. rewrite HL. reflexivity.
  - rewrite (at_loop_eq (S f) r i). unfold bind, deref.
    destruct (heap st !! r) as [L|] eqn:HL.
    + destruct (line L) as [l|] eqn:Hl; [|reflexivity].
      destruct (truth (Some l) && (len l <=? i)) eqn:Hc; [|reflexivity].
      assert (Hc' : truth (Some l) && (len l <=? i + m) = true).
      { apply andb_true_iff in Hc as [Ht Hle]. apply andb_true_iff.
        split; [exact Ht|]. apply Z.leb_le. apply Z.leb_le in Hle. lia. }
      apply loop_goes_on in Hc.
      rewrite at_loop_eq. unfold bind, deref. rewrite HL, Hl, Hc'.
      destruct (Z.to_nat (i + m)) as [|k] eqn:Hk; [lia|].
      destruct (Line_next source_next r st) as [[nxt| |] st2]; try reflexivity.
      rewrite <- (IH nxt (i - len l) st2) by lia.
      replace (i - len l + m) with (i + m - len l) by lia.
      apply at_loop_fuel; lia.
    + rewrite at_loop_eq. unfold bind, deref. rewrite HL. reflexivity.
Qed.

Lemma deref_inv r (st st1 : store A LS Src) x :
  deref r st = (x, st1) -> st1 = st.
Proof. unfold deref. destruct (heap st !! r); intros [= _ <-]; reflexivity. Qed.

(** The line [at_loop] stops at is false or holds the index. *)
Lemma at_loop_stops (f : nat) r i (st st1 : store A LS Src) found :
  at_loop source_next f r i st = (Ret found, st1) ->
  at_loop source_next 0 (fst found) (snd found) st1 = (Ret found, st1).
Proof.
  revert r i st. induction f as [|f IH]; intros r i st;
    rewrite at_loop_eq; unfold bind, deref;
    destruct (heap st !! r) as [L|] eqn:HL; try discriminate;
    destruct (line L) as [l|] eqn:Hl.
  - destruct (truth (Some l) && (len l <=? i)) eqn:Hc; [discriminate|].
    intros [= <- <-]. rewrite at_loop_eq. unfold bind, deref. cbn [fst snd].
    rewrite HL, Hl, Hc. reflexivity.
  - intros [= <- <-]. rewrite at_loop_eq. unfold bind, deref. cbn [fst snd].
    rewrite HL, Hl. reflexivity.
  - destruct (truth (Some l) && (len l <=? i)) eqn:Hc.
    + destruct (Line_next source_next r st) as [[nxt| |] st2]; try discriminate.
      apply IH.
    + intros [= <- <-]. rewrite at_loop_eq. unfold bind, deref. cbn [fst snd].
      rewrite HL, Hl, Hc. reflexivity.
  - intros [= <- <-]. rewrite at_loop_eq. unfold bind, deref. cbn [fst snd].
    rewrite HL, Hl. reflexivity.
Qed.

Lemma getitem_int_inv (s : StreamView) k (st st' : store A LS Src) x :
  getitem_int source_next s k st = (Ret x, st') ->
  exists r1 i1 L l,
    at_loop source_next (Z.to_nat (k + sv_offset s)) (sv_line s)
            (k + sv_offset s) st = (Ret (r1, i1), st') /\
    heap st' !! r1 = Some L /\ line L = Some l /\
    truth (Some l) = true /\ py_index l i1 = Ret x.
Proof.
  unfold getitem_int, StreamView_at, bind, deref, lift.
  destruct (at_loop _ _ _ _ _) as [[[r1 i1]| |] st1]; try discriminate.
  cbn [fst snd]. destruct (heap st1 !! r1) as [L|] eqn:HL; try discriminate.
  destruct (truth (line L)) eqn:Ht; cbn [negb andb orb]; try discriminate.
  unfold ret. cbn [fst snd]. rewrite HL.
  destruct (line L) as [l|] eqn:Hl; [|discriminate].
  intros H. exists r1, i1, L, l.
  destruct (py_index l i1) eqn:Hp; inversion H; subst. auto.
Qed.

Lemma getitem_int_intro (s : StreamView) k (st st' : store A LS Src) r1 i1 L l x :
  at_loop source_next (Z.to_nat (k + sv_offset s)) (sv_line s)
          (k + sv_offset s) st = (Ret (r1, i1), st') ->
  heap st' !! r1 = Some L -> line L = Some l ->
  truth (Some l) = true -> py_index l i1 = Ret x ->
  getitem_int source_next s k st = (Ret x, st').
Proof.
  intros Hw HL Hl Ht Hp.
  unfold getitem_int, StreamView_at, bind, deref, lift.
  rewrite Hw. cbn [fst snd]. rewrite HL, Hl, Ht. cbn [negb andb].
  unfold ret. cbn [fst snd]. rewrite HL, Hl, Hp. reflexivity.
Qed.

(** C10: when [s[n + m]] is an item of the data, [s[n:]] is a view and its
    item [m] is that same item; both ways of reading leave the same store. *)
Theorem advance_then_index (s : StreamView) n m (st st' : store A LS Src) x :
  0 <= m ->
  getitem_int source_next s (n + m) st = (Ret x, st') ->
  exists s1 st1,
    getitem_open source_next s n st = (Ret s1, st1) /\
    getitem_int source_next s1 m st1 = (Ret x, st').
Proof.
  intros Hm H.
  unfold getitem_open.
  destruct ((n =? 0) && (sv_offset s =? 0)) eqn:Hz.
  - apply andb_true_iff in Hz as [Hn _]. apply Z.eqb_eq in Hn. subst n.
    exists s, st. split; [reflexivity | exact H].
  - clear Hz. apply getitem_int_inv in H as (rf & jf & L & l & Hw & HL & Hl & Ht & Hp).
    replace (n + m + sv_offset s) with (n + sv_offset s + m) in Hw by lia.
    rewrite (at_loop_split (Z.to_nat (n + sv_offset s)) (sv_line s)
                           (n + sv_offset s) m st Hm (Nat.le_refl _)) in Hw.
    unfold StreamView_at, bind.
    destruct (at_loop source_next (Z.to_nat (n + sv_offset s)) (sv_line s)
                      (n + sv_offset s) st) as [[[r1 i1]| |] st1] eqn:Hw1;
      try discriminate.
    cbn [fst snd] in *.
    assert (Hstop := at_loop_stops _ _ _ _ _ _ Hw1). cbn [fst snd] in Hstop.
    rewrite at_loop_eq in Hstop. unfold bind, deref in Hstop.
    unfold deref.
    destruct (heap st1 !! r1) as [L1|] eqn:HL1; [|discriminate].
    destruct (truth (line L1)) eqn:Ht1.
    + cbn [negb andb]. exists (View r1 i1), st1. split; [reflexivity|].
      apply (getitem_int_intro _ _ _ _ rf jf L l); try assumption.
      cbn [sv_line sv_offset].
      replace (m + i1) with (i1 + m) by lia. exact Hw.
    + exfalso. rewrite at_loop_eq in Hw. unfold bind, deref in Hw.
      rewrite HL1 in Hw.
      destruct (line L1) as [l1|] eqn:Hl1.
      * rewrite Ht1 in Hw. cbn [andb] in Hw. inversion Hw; subst.
        rewrite HL1 in HL. inversion HL; subst. congruence.
      * inversion Hw; subst. rewrite HL1 in HL. inversion HL; subst. congruence.
Qed.

(** What the first access to [next] does. *)
Lemma Line_next_first (st : store A LS Src) r L item src' :
  heap st !! r = Some L -> next_ L = None ->
  source_next (source st) = (Ret item, src') ->
  Line_next source_next r st =
  (Ret (length (heap st)),
   Store (<[r := MkLine (line L) (previous_length L) (location_state L)
                        (Some (length (heap st)))]>
            (heap st ++
             [MkLine (fst item)
                     (match line L with
                      | Some l => previous_length L + len l
                      | None => previous_length L
                      end)
                     (snd item) None]))
         src').
Proof.
  intros HL Hn Hs.
  unfold Line_next, bind, deref, with_source, new_Line, set_next.
  rewrite HL, Hn, Hs. cbn [heap source fst snd].
  rewrite lookup_app_l by (eapply lookup_lt_Some; exact HL).
  rewrite HL. reflexivity.
Qed.

(** A cached [next] is returned as it is, and nothing changes. *)
Lemma Line_next_again (st : store A LS Src) r L r' :
  heap st !! r = Some L -> next_ L = Some r' ->
  Line_next source_next r st = (Ret r', st).
Proof.
  intros HL Hn. unfold Line_next, bind, deref. rewrite HL, Hn. reflexivity.
Qed.

(** No access to [next] disturbs a line that has its [next]. *)
Lemma Line_next_keeps (st st2 : store A LS Src) q y r L r' :
  heap st !! r = Some L -> next_ L = Some r' ->
  Line_next source_next q st = (y, st2) ->
  heap st2 !! r = Some L.
Proof.
  intros HL Hn. unfold Line_next, bind, deref.
  destruct (heap st !! q) as [Lq|] eqn:Hq; [|intros [= _ <-]; exact HL].
  destruct (next_ Lq) as [rq|] eqn:Hnq; [intros [= _ <-]; exact HL|].
  unfold with_source.
  destruct (source_next (source st)) as [[item| |] src']; cbn [heap source];
    try (intros [= _ <-]; exact HL).
  unfold new_Line, set_next. cbn [heap source].
  rewrite lookup_app_l by (eapply lookup_lt_Some; exact Hq).
  rewrite Hq. intros [= _ <-]. cbn [heap].
  assert (q <> r) by (intros ->; congruence).
  rewrite list_lookup_insert_ne by assumption.
  rewrite lookup_app_l by (eapply lookup_lt_Some; exact HL).
  exact HL.
Qed.

Lemma reads_keep (st st2 : store A LS Src) r L r' :
  reads source_next st st2 ->
  heap st !! r = Some L -> next_ L = Some r' ->
  heap st2 !! r = Some L.
Proof.
  induction 1 as [st|st q y st1 st2 Hq _ IH]; intros HL Hn; [exact HL|].
  apply IH; [|exact Hn]. eapply Line_next_keeps; eassumption.
Qed.

(** The data of a line never changes. *)
Lemma Line_next_line (st st2 : store A LS Src) q y a l :
  line <$> heap st !! a = Some l ->
  Line_next source_next q st = (y, st2) ->
  line <$> heap st2 !! a = Some l.
Proof.
  intros Ha. unfold Line_next, bind, deref.
  destruct (heap st !! q) as [Lq|] eqn:Hq; [|intros [= _ <-]; exact Ha].
  destruct (next_ Lq) as [rq|] eqn:Hnq; [intros [= _ <-]; exact Ha|].
  unfold with_source.
  destruct (source_next (source st)) as [[item| |] src']; cbn [heap source];
    try (intros [= _ <-]; exact Ha).
  unfold new_Line, set_next. cbn [heap source].
  rewrite lookup_app_l by (eapply lookup_lt_Some; exact Hq).
  rewrite Hq. intros [= _ <-]. cbn [heap].
  destruct (heap st !! a) as [La|] eqn:HLa; [|discriminate].
  assert (a < length (heap st))%nat by (eapply lookup_lt_Some; exact HLa).
  destruct (decide (q = a)) as [->|Hne].
  - rewrite list_lookup_insert_eq by (rewrite length_app; lia).
    rewrite HLa in Hq. injection Hq as <-. exact Ha.
  - rewrite list_lookup_insert_ne by assumption.
    rewrite lookup_app_l by assumption. rewrite HLa. exact Ha.
Qed.

Lemma reads_line (st st2 : store A LS Src) a l :
  reads source_next st st2 ->
  line <$> heap st !! a = Some l ->
  line <$> heap st2 !! a = Some l.
Proof.
  induction 1 as [st|st q y st1 st2 Hq _ IH]; intros Ha; [exact Ha|].
  apply IH. eapply Line_next_line; eassumption.
Qed.

(** C6: the first access to [next] takes exactly one item from the source
    and stores a new line made of it; from then on, whatever other lines
    are read, [next] returns that same line and leaves store and source
    as they are. *)
Theorem Line_next_cached (st : store A LS Src) r L item src' :
  heap st !! r = Some L -> next_ L = None ->
  source_next (source st) = (Ret item, src') ->
  exists st1,
    Line_next source_next r st = (Ret (length (heap st)), st1) /\
    source st1 = src' /\
    heap st !! length (heap st) = None /\
    line <$> heap st1 !! length (heap st) = Some (fst item) /\
    forall st2, reads source_next st1 st2 ->
      Line_next source_next r st2 = (Ret (length (heap st)), st2) /\
      line <$> heap st2 !! length (heap st) = Some (fst item).
Proof.
  intros HL Hn Hs. eexists. split; [apply (Line_next_first _ _ _ _ _ HL Hn Hs)|].
  assert (Hr : (r < length (heap st))%nat) by (eapply lookup_lt_Some; exact HL).
  split; [reflexivity|]. split; [apply lookup_ge_None; lia|].
  cbn [heap].
  assert (Hnew : forall y x : Line A LS,
             (<[r := y]> (heap st ++ [x])) !! length (heap st) = Some x).
  { intros y x. rewrite list_lookup_insert_ne by lia.
    rewrite lookup_app_r by lia. rewrite Nat.sub_diag. reflexivity. }
  split; [rewrite Hnew; reflexivity|].
  intros st2 Hreads. split.
  - apply (Line_next_again st2 r
             (MkLine (line L) (previous_length L) (location_state L)
                     (Some (length (heap st)))));
      [|reflexivity].
    eapply reads_keep; [exact Hreads| |reflexivity].
    cbn [heap]. apply list_lookup_insert_eq. rewrite length_app. lia.
  - eapply reads_line; [exact Hreads|]. cbn [heap]. rewrite Hnew. reflexivity.
Qed.

Lemma new_stream_inv (src : Src) (w w1 : world A LS Src) a :
  new_stream source_next src w = (Ret a, w1) ->
  exists v, factory source_next src = (Ret v, snd (factory source_next src)) /\
            a = InData (length w) v /\
            w1 = w ++ [snd (factory source_next src)].
Proof.
  unfold new_stream. destruct (factory source_next src) as [[v| |] st];
    [|discriminate|discriminate].
  intros [= <- <-]. exists v. auto.
Qed.

Lemma Position_open_data (a a' : Position) n (w w' : world A LS Src) :
  Position_open source_next a n w = (Ret a', w') ->
  p_data a' = p_data a /\ length w' = length w.
Proof.
  unfold Position_open, bind, in_data.
  destruct (w !! p_data a) as [st|]; [|discriminate].
  destruct (getitem_open source_next (p_view a) n st) as [[v| |] st'];
    [|discriminate|discriminate].
  intros [= <- <-]. split; [reflexivity|apply length_insert].
Qed.

(** C3: two views are equal exactly when they hold the same [Line] object
    and the same offset.  The views of two streams are never equal, even
    when the two streams were made from the same source and so hold the
    same data, item for item: their lines are distinct objects, and so
    are the lines of all the views taken from them. *)
Theorem StreamView_eq_same_line :
  (forall a b : Position,
      StreamView_eq a (OView b) = true <->
      (p_data a = p_data b /\ sv_line (p_view a) = sv_line (p_view b)) /\
      sv_offset (p_view a) = sv_offset (p_view b)) /\
  (forall (w w1 w2 : world A LS Src) src a b,
      new_stream source_next src w = (Ret a, w1) ->
      new_stream source_next src w1 = (Ret b, w2) ->
      (forall n, fst (Position_getitem source_next a n w2)
                 = fst (Position_getitem source_next b n w2)) /\
      StreamView_eq a (OView b) = false /\
      forall n m a' b' w3 w4,
        Position_open source_next a n w2 = (Ret a', w3) ->
        Position_open source_next b m w3 = (Ret b', w4) ->
        StreamView_eq a' (OView b') = false).
Proof.
  split.
  - intros a b. unfold StreamView_eq, same_Line.
    rewrite !andb_true_iff, !Nat.eqb_eq, Z.eqb_eq. reflexivity.
  - intros w w1 w2 src a b Ha Hb.
    apply new_stream_inv in Ha as (va & Hfa & -> & ->).
    apply new_stream_inv in Hb as (vb & Hfb & -> & ->).
    rewrite Hfa in Hfb. injection Hfb as <-.
    assert (Hne : forall x y : Position,
               p_data x = length w -> p_data y = length (w ++ [snd (factory source_next src)]) ->
               StreamView_eq x (OView y) = false).
    { intros x y Hx Hy. unfold StreamView_eq, same_Line. rewrite Hx, Hy.
      rewrite length_app. cbn [length].
      destruct (Nat.eqb_spec (length w) (length w + 1)) as [E|_]; [lia|].
      reflexivity. }
    split; [|split].
    + intros n. unfold Position_getitem, in_data. cbn [p_data p_view].
      generalize (snd (factory source_next src)). intros st. unfold world in *.
      assert (H1 : ((w ++ [st]) ++ [st]) !! length w = Some st).
      { apply lookup_app_l_Some. apply list_lookup_middle. reflexivity. }
      assert (H2 : ((w ++ [st]) ++ [st]) !! length (w ++ [st]) = Some st).
      { apply list_lookup_middle. reflexivity. }
      rewrite H1, H2.
      destruct (getitem_int source_next va n st) as [r st']. reflexivity.
    + apply Hne; reflexivity.
    + intros n m a' b' w3 w4 Ha' Hb'.
      apply Position_open_data in Ha' as [Ha' _].
      apply Position_open_data in Hb' as [Hb' _].
      apply Hne; [rewrite Ha'|rewrite Hb']; reflexivity.
Qed.

(** *** The lines of a dataset as a list *)

(** What an access to [next] that returns has done. *)
Lemma Line_next_effect (st st' : store A LS Src) q x :
  Line_next source_next q st = (Ret x, st') ->
  (exists L, heap st !! q = Some L /\ next_ L = Some x /\ st' = st) \/
  (exists L item,
      heap st !! q = Some L /\ next_ L = None /\
      source_next (source st) = (Ret item, source st') /\
      x = length (heap st) /\
      heap st' =
        <[q := MkLine (line L) (previous_length L) (location_state L) (Some x)]>
          (heap st ++
           [MkLine (fst item)
                   (match line L with
                    | Some l => previous_length L + len l
                    | None => previous_length L
                    end)
                   (snd item) None])).
Proof.
  intros H. destruct (heap st !! q) as [L|] eqn:HL.
  - destruct (next_ L) as [r'|] eqn:Hn.
    + rewrite (Line_next_again _ _ _ _ HL Hn) in H. injection H as <- <-.
      left. eauto.
    + destruct (source_next (source st)) as [[item| |] src'] eqn:Hs.
      * rewrite (Line_next_first _ _ _ _ _ HL Hn Hs) in H.
        injection H as <- <-. right. exists L, item. auto.
      * unfold Line_next, bind, deref, with_source in H.
        rewrite HL, Hn, Hs in H. discriminate.
      * unfold Line_next, bind, deref, with_source in H.
        rewrite HL, Hn, Hs in H. discriminate.
  - unfold Line_next, bind, deref in H. rewrite HL in H. discriminate.
Qed.

Lemma Line_next_frontier (st st' : store A LS Src) q x :
  one_frontier st -> Line_next source_next q st = (Ret x, st') ->
  one_frontier st'.
Proof.
  intros Hwf H. apply Line_next_effect in H as [(L & _ & _ & ->)|H]; [exact Hwf|].
  destruct H as (L & item & HL & Hn & _ & -> & Hheap).
  assert (Hq : (q < length (heap st))%nat) by (eapply lookup_lt_Some; exact HL).
  intros r Lr. rewrite Hheap, length_insert, length_app. cbn [length].
  destruct (decide (q = r)) as [->|Hne].
  - rewrite list_lookup_insert_eq by (rewrite length_app; lia).
    intros [= <-]. discriminate.
  - rewrite list_lookup_insert_ne by assumption.
    destruct (decide (r < length (heap st))%nat) as [Hlt|Hge].
    + rewrite lookup_app_l by assumption. intros Hr Hnr.
      pose proof (Hwf _ _ Hr Hnr). pose proof (Hwf q L HL Hn). lia.
    + intros Hr _. apply lookup_lt_Some in Hr. rewrite length_app in Hr.
      cbn [length] in Hr. lia.
Qed.

Lemma grown_lookup (h : list (Line A LS)) q Lq new r :
  (q < length h)%nat ->
  (<[q := Lq]> (h ++ [new])) !! r =
  if decide (r = q) then Some Lq
  else if decide (r = length h) then Some new
       else h !! r.
Proof.
  intros Hq. destruct (decide (r = q)) as [->|Hne].
  - apply list_lookup_insert_eq. rewrite length_app. lia.
  - rewrite list_lookup_insert_ne by congruence.
    destruct (decide (r = length h)) as [->|Hne'].
    + rewrite lookup_app_r by lia. rewrite Nat.sub_diag. reflexivity.
    + destruct (decide (r < length h)%nat).
      * apply lookup_app_l. assumption.
      * rewrite (proj2 (lookup_ge_None h r)) by lia.
        apply lookup_ge_None. rewrite length_app. cbn [length]. lia.
Qed.

(** Reading further never changes the data a line stands for. *)
Lemma chain_preserved (st st' : store A LS Src) q x r ls ended :
  one_frontier st -> Line_next source_next q st = (Ret x, st') ->
  chain source_next st r ls ended -> chain source_next st' r ls ended.
Proof.
  intros Hwf H. apply Line_next_effect in H as [(L & _ & _ & ->)|H]; [auto|].
  destruct H as (Lq & item & HLq & Hnq & Hs & -> & Hheap).
  assert (Hq : (q < length (heap st))%nat) by (eapply lookup_lt_Some; exact HLq).
  induction 1 as [r|r L HL Ht|r L l r' rest ended HL Hl Ht Hn _ IH
                  |r L l rest ended HL Hl Ht Hn Hp].
  - constructor.
  - assert (Hr : (r < length (heap st))%nat) by (eapply lookup_lt_Some; exact HL).
    destruct (decide (r = q)) as [->|Hne].
    + eapply chain_end.
      * rewrite Hheap, grown_lookup by assumption.
        rewrite decide_True by reflexivity. reflexivity.
      * rewrite HLq in HL. injection HL as <-. exact Ht.
    + eapply chain_end; [|exact Ht].
      rewrite Hheap, grown_lookup by assumption.
      rewrite decide_False by assumption. rewrite decide_False by lia.
      exact HL.
  - assert (Hr : (r < length (heap st))%nat) by (eapply lookup_lt_Some; exact HL).
    assert (r <> q) by (intros ->; congruence).
    eapply chain_made; [|exact Hl|exact Ht|exact Hn|exact IH].
    rewrite Hheap, grown_lookup by assumption.
    rewrite decide_False by assumption. rewrite decide_False by lia.
    exact HL.
  - assert (r = q) by (pose proof (Hwf _ _ HL Hn); pose proof (Hwf _ _ HLq Hnq); lia).
    subst r. rewrite HLq in HL. injection HL as <-.
    eapply chain_made.
    + rewrite Hheap, grown_lookup by assumption.
      rewrite decide_True by reflexivity. reflexivity.
    + exact Hl.
    + exact Ht.
    + reflexivity.
    + assert (Hx : heap st' !! length (heap st) =
                   Some (MkLine (fst item)
                           (match line Lq with
                            | Some l0 => previous_length Lq + len l0
                            | None => previous_length Lq
                            end) (snd item) None)).
      { rewrite Hheap, grown_lookup by assumption.
        rewrite decide_False by lia. rewrite decide_True by reflexivity.
        reflexivity. }
      inversion Hp as [src|src item' src' Hs' Ht'|src l2 ls2 src' rest' e' Hs' Ht' Hp'];
        subst.
      * constructor.
      * rewrite Hs in Hs'. injection Hs' as <- _.
        eapply chain_end; [exact Hx | exact Ht'].
      * rewrite Hs in Hs'. injection Hs' as -> Hsrc.
        eapply chain_unread; [exact Hx|reflexivity|exact Ht'|reflexivity|].
        rewrite Hsrc. exact Hp'.
Qed.

(** Reading the [next] of a line whose data go on gives the line that
    stands for the rest of them. *)
Lemma chain_next (st : store A LS Src) r l ls ended :
  one_frontier st ->
  chain source_next st r (l :: ls) ended -> ls <> [] \/ ended = true ->
  exists x st',
    Line_next source_next r st = (Ret x, st') /\
    chain source_next st' x ls ended.
Proof.
  intros Hwf Hc Hmore.
  inversion Hc as [| |r0 L l0 r' rest e0 HL Hl Ht Hn Hrest
                  |r0 L l0 rest e0 HL Hl Ht Hn Hp]; subst.
  - exists r', st. split; [eapply Line_next_again; eassumption | exact Hrest].
  - assert (Hr : (r < length (heap st))%nat) by (eapply lookup_lt_Some; exact HL).
    inversion Hp as [src|src item src' Hs Ht'|src l2 ls2 src' rest' e' Hs Ht' Hp'];
      subst.
    + destruct Hmore; congruence.
    + eexists _, _. split; [eapply Line_next_first; eassumption|].
      eapply chain_end;
        [ cbn [heap]; rewrite grown_lookup by assumption;
          rewrite decide_False by lia; rewrite decide_True by reflexivity;
          reflexivity
        | exact Ht' ].
    + eexists _, _. split; [eapply Line_next_first; eassumption|].
      eapply chain_unread;
        [ cbn [heap]; rewrite grown_lookup by assumption;
          rewrite decide_False by lia; rewrite decide_True by reflexivity;
          reflexivity
        | reflexivity | exact Ht' | reflexivity | exact Hp' ].
Qed.

Lemma chain_head (st : store A LS Src) r l ls ended :
  chain source_next st r (l :: ls) ended ->
  exists L, heap st !! r = Some L /\ line L = Some l /\ truth (Some l) = true.
Proof. inversion 1; subst; eauto. Qed.

Lemma py_slice_take (l : list A) a k :
  0 <= a <= len l -> 0 <= k ->
  py_slice l a (Z.min (a + k) (len l)) =
  take (Z.to_nat k) (drop (Z.to_nat a) l).
Proof.
  intros Ha Hk. unfold py_slice, clamp.
  destruct (a <? 0) eqn:E1; [apply Z.ltb_lt in E1; lia|].
  destruct (Z.min (a + k) (len l) <? 0) eqn:E2; [apply Z.ltb_lt in E2; lia|].
  rewrite (Z.min_l a (len l)) by lia.
  destruct (Z.le_gt_cases (a + k) (len l)) as [Hle|Hgt].
  - rewrite (Z.min_l (a + k)) by lia. rewrite (Z.min_l (a + k)) by lia.
    f_equal. lia.
  - rewrite (Z.min_r (a + k)) by lia. rewrite Z.min_id.
    rewrite !take_ge; [reflexivity| |]; rewrite length_drop; unfold len in *; lia.
Qed.

(** The walk of [__at] to an index inside the data. *)
Lemma at_loop_inside ls : forall (st : store A LS Src) r i f ended,
  one_frontier st -> chain source_next st r ls ended ->
  0 <= i < len (concat ls) -> (Z.to_nat i <= f)%nat ->
  exists r1 i1 st1 l1 ls1,
    at_loop source_next f r i st = (Ret (r1, i1), st1) /\
    one_frontier st1 /\ chain source_next st1 r1 (l1 :: ls1) ended /\
    0 <= i1 < len l1 /\
    drop (Z.to_nat i) (concat ls) = drop (Z.to_nat i1) l1 ++ concat ls1.
Proof.
  induction ls as [|l rest IH]; intros st r i f ended Hwf Hc Hi Hf.
  - unfold len in Hi. simpl in Hi. lia.
  - destruct (chain_head _ _ _ _ _ Hc) as (L & HL & Hl & Ht).
    rewrite at_loop_eq. unfold bind, deref. rewrite HL, Hl.
    cbn [concat] in *. unfold len in Hi. rewrite length_app in Hi.
    destruct (truth (Some l) && (len l <=? i)) eqn:Hcond.
    + apply loop_goes_on in Hcond. unfold len in Hcond.
      destruct f as [|f]; [lia|].
      destruct (chain_next st r l rest ended Hwf Hc) as (x & st' & Hnx & Hc').
      { left. intros ->. simpl in Hi. lia. }
      rewrite Hnx.
      destruct (IH st' x (i - len l) f ended) as (r1 & i1 & st1 & l1 & ls1 & Hw & Hwf1 & Hc1 & Hi1 & Hd).
      * eapply Line_next_frontier; eassumption.
      * exact Hc'.
      * unfold len. lia.
      * unfold len. lia.
      * exists r1, i1, st1, l1, ls1. repeat split; try assumption; try lia.
        rewrite drop_app_ge by lia. rewrite <- Hd. f_equal. unfold len. lia.
    + exists r, i, st, l, rest.
      rewrite Ht in Hcond. cbn [andb] in Hcond. apply Z.leb_gt in Hcond.
      unfold len in Hcond.
      repeat split; try assumption; try (unfold len; lia).
      rewrite drop_app_le by lia. reflexivity.
Qed.

(** The walk of [__at] to an index at or past the end of the data. *)
Lemma at_loop_outside ls : forall (st : store A LS Src) r i f,
  one_frontier st -> chain source_next st r ls true ->
  len (concat ls) <= i -> (Z.to_nat i <= f)%nat ->
  exists r1 st1 L1,
    at_loop source_next f r i st = (Ret (r1, i - len (concat ls)), st1) /\
    one_frontier st1 /\ heap st1 !! r1 = Some L1 /\ truth (line L1) = false.
Proof.
  induction ls as [|l rest IH]; intros st r i f Hwf Hc Hi Hf.
  - inversion Hc as [|r0 L HL Ht| |]; subst.
    exists r, st, L. rewrite at_loop_eq. unfold bind, deref. rewrite HL.
    unfold len. cbn [concat length]. rewrite Z.sub_0_r.
    destruct (line L) as [l|]; [|auto].
    rewrite Ht. cbn [andb]. auto.
  - destruct (chain_head _ _ _ _ _ Hc) as (L & HL & Hl & Ht).
    rewrite at_loop_eq. unfold bind, deref. rewrite HL, Hl.
    cbn [concat] in *. unfold len in Hi. rewrite length_app in Hi.
    assert (Hcond : truth (Some l) && (len l <=? i) = true).
    { rewrite Ht. cbn [andb]. apply Z.leb_le. unfold len. lia. }
    rewrite Hcond. apply loop_goes_on in Hcond. unfold len in Hcond.
    destruct f as [|f]; [lia|].
    destruct (chain_next st r l rest true Hwf Hc) as (x & st' & Hnx & Hc');
      [right; reflexivity|].
    rewrite Hnx.
    destruct (IH st' x (i - len l) f) as (r1 & st1 & L1 & Hw & Hwf1 & HL1 & Ht1).
    + eapply Line_next_frontier; eassumption.
    + exact Hc'.
    + unfold len. lia.
    + unfold len. lia.
    + exists r1, st1, L1. repeat split; try assumption.
      rewrite Hw. do 3 f_equal. unfold len. rewrite length_app. lia.
Qed.

Lemma slice_loop_eq fuel r lines rem (st : store A LS Src) :
  slice_loop source_next fuel r lines rem st =
  (let* L := deref r in
   if truth (line L) && (0 <? rem) then
     match fuel with
     | O => diverge
     | S fuel' =>
         let* nxt := Line_next source_next r in
         let* L' := deref nxt in
         match line L' with
         | Some (x :: l') =>
             slice_loop source_next fuel' nxt
               (lines ++ [py_slice (x :: l') 0 (Z.min rem (len (x :: l')))])
               (rem - len (x :: l'))
         | _ => slice_loop source_next fuel' nxt lines rem
         end
     end
   else ret (r, lines, rem)) st.
Proof. destruct fuel; reflexivity. Qed.

(** The loop of [self[n:m]] over the lines that follow the first one. *)
Lemma slice_loop_chain ls : forall (st : store A LS Src) r l lines rem f ended,
  one_frontier st -> chain source_next st r (l :: ls) ended ->
  (Z.to_nat rem < f)%nat -> rem <= len (concat ls) \/ ended = true ->
  exists r' st' pieces rem',
    slice_loop source_next f r lines rem st = (Ret (r', lines ++ pieces, rem'), st') /\
    concat pieces = take (Z.to_nat rem) (concat ls) /\
    (rem <= len (concat ls) -> rem' <= 0) /\
    (len (concat ls) < rem -> rem' = rem - len (concat ls)).
Proof.
  induction ls as [|l2 ls2 IH]; intros st r l lines rem f ended Hwf Hc Hf Hmore;
    destruct (chain_head _ _ _ _ _ Hc) as (L & HL & Hl & Ht);
    rewrite slice_loop_eq; unfold bind, deref; rewrite HL, Hl, Ht; cbn [andb];
    (destruct (0 <? rem) eqn:Hrem;
     [ apply Z.ltb_lt in Hrem
     | apply Z.ltb_ge in Hrem;
       exists r, st, [], rem; rewrite app_nil_r;
       replace (Z.to_nat rem) with 0%nat by lia; rewrite take_0;
       repeat split; [lia | intros; unfold len in *; lia] ]).
  - assert (ended = true) as -> by (destruct Hmore as [H|H]; [unfold len in H; simpl in H; lia | exact H]).
    destruct f as [|f]; [lia|].
    destruct (chain_next st r l [] true Hwf Hc) as (x & st' & Hnx & Hc');
      [right; reflexivity|].
    rewrite Hnx. inversion Hc' as [|r0 L' HL' Ht'| |]; subst. rewrite HL'.
    exists x, st', [], rem. rewrite app_nil_r.
    assert (Hstop : slice_loop source_next f x lines rem st' = (Ret (x, lines, rem), st')).
    { rewrite slice_loop_eq. unfold bind, deref. rewrite HL', Ht'. reflexivity. }
    split.
    + destruct (line L') as [[|y l']|]; try exact Hstop. discriminate.
    + cbn [concat]. rewrite take_nil. unfold len. cbn [length].
      repeat split; intros; lia.
  - destruct f as [|f]; [lia|].
    destruct (chain_next st r l (l2 :: ls2) ended Hwf Hc) as (x & st' & Hnx & Hc');
      [left; discriminate|].
    rewrite Hnx.
    destruct (chain_head _ _ _ _ _ Hc') as (L' & HL' & Hl' & Ht').
    rewrite HL', Hl'.
    assert (Hlen : 1 <= len l2) by (apply truth_len; exact Ht').
    destruct l2 as [|y l2']; [discriminate|].
    destruct (IH st' x (y :: l2')
                (lines ++ [py_slice (y :: l2') 0 (Z.min rem (len (y :: l2')))])
                (rem - len (y :: l2')) f ended)
      as (r' & st2 & pieces & rem' & Hrun & Hcat & Hok & Hshort).
    + eapply Line_next_frontier; eassumption.
    + exact Hc'.
    + lia.
    + destruct Hmore as [H|H]; [left|right; exact H].
      cbn [concat] in H. unfold len in *. rewrite length_app in H. lia.
    + exists r', st2, (py_slice (y :: l2') 0 (Z.min rem (len (y :: l2'))) :: pieces), rem'.
      split; [rewrite Hrun; rewrite <- app_assoc; reflexivity|].
      cbn [concat]. rewrite Hcat.
      pose proof (py_slice_take (y :: l2') 0 rem) as Hp.
      change (0 + rem) with rem in Hp. rewrite Hp by lia.
      rewrite take_app. cbn [Z.to_nat drop].
      split; [f_equal; f_equal; unfold len; lia|].
      unfold len in *. rewrite length_app.
      split; intros; [apply Hok | rewrite Hshort]; lia.
Qed.

Lemma StreamView_at_inside (s : StreamView) (st : store A LS Src) ls ended n strict :
  one_frontier st -> chain source_next st (sv_line s) ls ended ->
  0 <= n + sv_offset s < len (concat ls) ->
  exists r1 i1 st1 l1 ls1 L1,
    StreamView_at source_next s n strict st = (Ret (r1, i1), st1) /\
    one_frontier st1 /\ chain source_next st1 r1 (l1 :: ls1) ended /\
    heap st1 !! r1 = Some L1 /\ line L1 = Some l1 /\ truth (Some l1) = true /\
    0 <= i1 < len l1 /\
    drop (Z.to_nat (n + sv_offset s)) (concat ls)
    = drop (Z.to_nat i1) l1 ++ concat ls1.
Proof.
  intros Hwf Hc Hi.
  destruct (at_loop_inside ls st (sv_line s) (n + sv_offset s)
              (Z.to_nat (n + sv_offset s)) ended Hwf Hc Hi (Nat.le_refl _))
    as (r1 & i1 & st1 & l1 & ls1 & Hw & Hwf1 & Hc1 & Hi1 & Hd).
  destruct (chain_head _ _ _ _ _ Hc1) as (L1 & HL1 & Hl1 & Ht1).
  exists r1, i1, st1, l1, ls1, L1.
  unfold StreamView_at, bind, deref. rewrite Hw. cbn [fst snd].
  rewrite HL1, Hl1, Ht1. cbn [negb andb]. auto 10.
Qed.

Lemma StreamView_at_outside (s : StreamView) (st : store A LS Src) ls n :
  one_frontier st -> chain source_next st (sv_line s) ls true ->
  len (concat ls) <= n + sv_offset s ->
  exists st1,
    StreamView_at source_next s n true st = (Raise (IndexError None), st1).
Proof.
  intros Hwf Hc Hi.
  destruct (at_loop_outside ls st (sv_line s) (n + sv_offset s)
              (Z.to_nat (n + sv_offset s)) Hwf Hc Hi (Nat.le_refl _))
    as (r1 & st1 & L1 & Hw & Hwf1 & HL1 & Ht1).
  exists st1. unfold StreamView_at, bind, deref. rewrite Hw. cbn [fst snd].
  rewrite HL1, Ht1. reflexivity.
Qed.

Lemma len_remaining (s : StreamView) (ls : list (list A)) :
  0 <= sv_offset s ->
  len (remaining s ls) = Z.max 0 (len (concat ls) - sv_offset s).
Proof. intros H. unfold remaining, len. rewrite length_drop. lia. Qed.

Lemma py_index_lookup (l : list A) i x :
  0 <= i -> l !! Z.to_nat i = Some x -> py_index l i = Ret x.
Proof.
  intros Hi Hx. unfold py_index.
  destruct (i <? 0) eqn:E; [apply Z.ltb_lt in E; lia|].
  rewrite E, Hx. reflexivity.
Qed.

(** C5, as the code has it: for [0 <= n < m], [s[n:m]] raises [IndexError]
    when fewer than [m] items remain from the view on (with the number of
    missing items when item [n] exists, without it when [n] is at or past
    the end), and otherwise returns the join of pieces holding exactly the
    [m - n] items from [n] on; [s[n]] raises [IndexError] at or past the
    end and returns item [n] before it; [s[n:n]] is the empty join, for
    every [n]. *)
Theorem getitem_slice_bounds (s : StreamView) (st : store A LS Src) ls ended n :
  one_frontier st -> chain source_next st (sv_line s) ls ended ->
  0 <= sv_offset s -> 0 <= n ->
  (ended = true -> len (remaining s ls) <= n -> forall m, n < m ->
     exists st',
       getitem_slice source_next join s n m st = (Raise (IndexError None), st')) /\
  (ended = true -> forall m, n < len (remaining s ls) < m ->
     exists st',
       getitem_slice source_next join s n m st
       = (Raise (IndexError (Some (m - len (remaining s ls)))), st')) /\
  (forall m, n < m <= len (remaining s ls) ->
     exists pieces st',
       getitem_slice source_next join s n m st = (Ret (join pieces), st') /\
       concat pieces
       = take (Z.to_nat (m - n)) (drop (Z.to_nat n) (remaining s ls))) /\
  (ended = true -> len (remaining s ls) <= n ->
     exists st', getitem_int source_next s n st = (Raise (IndexError None), st')) /\
  (n < len (remaining s ls) ->
     exists x st',
       remaining s ls !! Z.to_nat n = Some x /\
       getitem_int source_next s n st = (Ret x, st')) /\
  getitem_slice source_next join s n n st = (Ret (join []), st).
Proof.
  intros Hwf Hc Hoff Hn.
  pose proof (len_remaining s ls Hoff) as Hlen.
  repeat split.
  - intros -> Hpast m Hm.
    destruct (StreamView_at_outside s st ls n Hwf Hc) as (st1 & Hat); [lia|].
    exists st1. unfold getitem_slice.
    destruct (m - n =? 0) eqn:E; [apply Z.eqb_eq in E; lia|].
    unfold bind. rewrite Hat. reflexivity.
  - intros -> m Hm.
    destruct (StreamView_at_inside s st ls true n true Hwf Hc)
      as (r1 & i1 & st1 & l1 & ls1 & L1 & Hat & Hwf1 & Hc1 & HL1 & Hl1 & Ht1 & Hi1 & Hd);
      [lia|].
    assert (Hcount : len (concat ls) - (n + sv_offset s)
                     = len l1 - i1 + len (concat ls1)).
    { apply (f_equal length) in Hd. rewrite length_drop, length_app, length_drop in Hd.
      unfold len in *. lia. }
    destruct (slice_loop_chain ls1 st1 r1 l1
                [py_slice l1 i1 (Z.min (i1 + (m - n)) (len l1))]
                (m - n - (len l1 - i1))
                (S (Z.to_nat (m - n - (len l1 - i1)))) true Hwf1 Hc1)
      as (r' & st' & pieces & rem' & Hrun & _ & _ & Hshort);
      [lia | right; reflexivity |].
    exists st'. unfold getitem_slice.
    destruct (m - n =? 0) eqn:E; [apply Z.eqb_eq in E; lia|].
    unfold bind, deref. rewrite Hat. cbn [fst snd]. rewrite HL1, Hl1, Hrun.
    cbn [fst snd]. rewrite Hshort by lia.
    destruct (0 <? m - n - (len l1 - i1) - len (concat ls1)) eqn:E2;
      [|apply Z.ltb_ge in E2; lia].
    unfold raise. do 4 f_equal. lia.
  - intros m Hm.
    destruct (StreamView_at_inside s st ls ended n true Hwf Hc)
      as (r1 & i1 & st1 & l1 & ls1 & L1 & Hat & Hwf1 & Hc1 & HL1 & Hl1 & Ht1 & Hi1 & Hd);
      [lia|].
    assert (Hcount : len (concat ls) - (n + sv_offset s)
                     = len l1 - i1 + len (concat ls1)).
    { apply (f_equal length) in Hd. rewrite length_drop, length_app, length_drop in Hd.
      unfold len in *. lia. }
    destruct (slice_loop_chain ls1 st1 r1 l1
                [py_slice l1 i1 (Z.min (i1 + (m - n)) (len l1))]
                (m - n - (len l1 - i1))
                (S (Z.to_nat (m - n - (len l1 - i1)))) ended Hwf1 Hc1)
      as (r' & st' & pieces & rem' & Hrun & Hcat & Hok & _);
      [lia | left; lia |].
    exists ([py_slice l1 i1 (Z.min (i1 + (m - n)) (len l1))] ++ pieces), st'.
    split.
    + unfold getitem_slice.
      destruct (m - n =? 0) eqn:E; [apply Z.eqb_eq in E; lia|].
      unfold bind, deref. rewrite Hat. cbn [fst snd]. rewrite HL1, Hl1, Hrun.
      cbn [fst snd].
      destruct (0 <? rem') eqn:E2; [apply Z.ltb_lt in E2; lia|]. reflexivity.
    + cbn [app concat]. rewrite Hcat.
      rewrite py_slice_take by lia.
      unfold remaining. rewrite drop_drop.
      replace (Z.to_nat (sv_offset s) + Z.to_nat n)%nat
        with (Z.to_nat (n + sv_offset s)) by lia.
      rewrite Hd, take_app, length_drop. do 2 f_equal. unfold len in *. lia.
  - intros -> Hpast.
    destruct (StreamView_at_outside s st ls n Hwf Hc) as (st1 & Hat); [lia|].
    exists st1. unfold getitem_int, bind. rewrite Hat. reflexivity.
  - intros Hin.
    destruct (StreamView_at_inside s st ls ended n true Hwf Hc)
      as (r1 & i1 & st1 & l1 & ls1 & L1 & Hat & Hwf1 & Hc1 & HL1 & Hl1 & Ht1 & Hi1 & Hd);
      [lia|].
    destruct (l1 !! Z.to_nat i1) as [x|] eqn:Hx;
      [|apply lookup_ge_None in Hx; unfold len in Hi1; lia].
    exists x, st1. split.
    + unfold remaining. rewrite lookup_drop.
      replace (Z.to_nat (sv_offset s) + Z.to_nat n)%nat
        with (Z.to_nat (n + sv_offset s) + 0)%nat by lia.
      rewrite <- lookup_drop, Hd.
      rewrite lookup_app_l by (rewrite length_drop; unfold len in Hi1; lia).
      rewrite lookup_drop, Nat.add_0_r. exact Hx.
    + unfold getitem_int, bind, deref, lift. rewrite Hat. cbn [fst snd].
      rewrite HL1, Hl1. rewrite (py_index_lookup l1 i1 x) by (lia || exact Hx).
      reflexivity.
  - unfold getitem_slice. rewrite Z.sub_diag. reflexivity.
Qed.

(** *** What reading leaves in place *)

Lemma grows_refl (st : store A LS Src) : grows st st.
Proof. intros a ol H. exact H. Qed.

Lemma grows_trans (st1 st2 st3 : store A LS Src) :
  grows st1 st2 -> grows st2 st3 -> grows st1 st3.
Proof. intros H12 H23 a ol H. apply H23, H12, H. Qed.

Lemma Line_next_grows (st st' : store A LS Src) q y :
  Line_next source_next q st = (y, st') -> grows st st'.
Proof. intros H a ol Ha. eapply Line_next_line; eassumption. Qed.

Lemma at_loop_grows f : forall r i (st st' : store A LS Src) y,
  at_loop source_next f r i st = (y, st') -> grows st st'.
Proof.
  induction f as [|f IH]; intros r i st st' y; rewrite at_loop_eq;
    unfold bind, deref; destruct (heap st !! r) as [L|];
    try (intros [= _ <-]; apply grows_refl);
    (destruct (line L) as [l|]; [|intros [= _ <-]; apply grows_refl]);
    (destruct (truth (Some l) && (len l <=? i));
     [|intros [= _ <-]; apply grows_refl]).
  - intros [= _ <-]. apply grows_refl.
  - destruct (Line_next source_next r st) as [[nxt| |] st1] eqn:Hn;
      try (intros [= _ <-]; eapply Line_next_grows; exact Hn).
    intros H. eapply grows_trans; [eapply Line_next_grows; exact Hn|].
    eapply IH; exact H.
Qed.

Lemma StreamView_at_grows (s : StreamView) n strict (st st' : store A LS Src) y :
  StreamView_at source_next s n strict st = (y, st') -> grows st st'.
Proof.
  unfold StreamView_at, bind.
  destruct (at_loop _ _ _ _ _) as [[found| |] st1] eqn:Hw;
    try (intros [= _ <-]; eapply at_loop_grows; exact Hw).
  unfold deref. destruct (heap st1 !! fst found) as [L|];
    [|intros [= _ <-]; eapply at_loop_grows; exact Hw].
  destruct (negb _ && _); intros [= _ <-]; eapply at_loop_grows; exact Hw.
Qed.

Lemma getitem_open_grows (s : StreamView) n (st st' : store A LS Src) y :
  getitem_open source_next s n st = (y, st') -> grows st st'.
Proof.
  unfold getitem_open. destruct ((n =? 0) && _).
  - intros [= _ <-]. apply grows_refl.
  - unfold bind.
    destruct (StreamView_at _ _ _ _ _) as [[found| |] st1] eqn:Hw;
      intros [= _ <-]; eapply StreamView_at_grows; exact Hw.
Qed.

Lemma getitem_int_grows (s : StreamView) n (st st' : store A LS Src) y :
  getitem_int source_next s n st = (y, st') -> grows st st'.
Proof.
  unfold getitem_int, bind.
  destruct (StreamView_at _ _ _ _ _) as [[found| |] st1] eqn:Hw;
    try (intros [= _ <-]; eapply StreamView_at_grows; exact Hw).
  unfold deref. destruct (heap st1 !! fst found) as [L|];
    [|intros [= _ <-]; eapply StreamView_at_grows; exact Hw].
  destruct (line L); unfold lift, raise; intros [= _ <-];
    eapply StreamView_at_grows; exact Hw.
Qed.

Lemma Line_location_grows {Loc}
    (source_location : Z -> option (list A) -> option LS -> M Src Loc)
    r offset (st st' : store A LS Src) y :
  Line_location source_location r offset st = (y, st') -> heap st' = heap st.
Proof.
  unfold Line_location, bind, deref. destruct (heap st !! r) as [L|];
    [|intros [= _ <-]; reflexivity].
  unfold with_source. destruct (source_location _ _ _ _) as [y' src].
  intros [= _ <-]. reflexivity.
Qed.

Lemma item_at_grows (st st' : store A LS Src) v x :
  grows st st' -> item_at st v x -> item_at st' v x.
Proof. intros Hg (l & Hl & Ho & Hx). exists l. auto. Qed.

Lemma settled_grows (st st' : store A LS Src) v :
  grows st st' -> settled st v -> settled st' v.
Proof. intros Hg (ol & Hl & Ho & Hin). exists ol. auto. Qed.

Lemma at_loop_nonneg f : forall r i (st st1 : store A LS Src) found,
  0 <= i -> at_loop source_next f r i st = (Ret found, st1) -> 0 <= snd found.
Proof.
  induction f as [|f IH]; intros r i st st1 found Hi; rewrite at_loop_eq;
    unfold bind, deref; destruct (heap st !! r) as [L|]; try discriminate;
    (destruct (line L) as [l|]; [|intros [= <- _]; exact Hi]);
    (destruct (truth (Some l) && (len l <=? i)) eqn:Hc;
     [|intros [= <- _]; exact Hi]); try discriminate.
  apply loop_goes_on in Hc.
  destruct (Line_next source_next r st) as [[nxt| |] st2]; try discriminate.
  apply IH. lia.
Qed.

(** Where [__at] stops, the view is settled. *)
Lemma at_loop_settled f r i (st st1 : store A LS Src) found :
  0 <= i -> at_loop source_next f r i st = (Ret found, st1) ->
  settled st1 (View (fst found) (snd found)).
Proof.
  intros Hi Hw. pose proof (at_loop_nonneg _ _ _ _ _ _ Hi Hw) as Hnn.
  apply at_loop_stops in Hw. rewrite at_loop_eq in Hw.
  unfold bind, deref in Hw.
  destruct (heap st1 !! fst found) as [L|] eqn:HL; [|discriminate].
  exists (line L). cbn [sv_line sv_offset]. rewrite HL.
  split; [reflexivity|]. split; [exact Hnn|].
  intros l Hl Ht. rewrite Hl, Ht in Hw. cbn [andb] in Hw.
  destruct (len l <=? snd found) eqn:E; [discriminate|].
  apply Z.leb_gt in E. exact E.
Qed.

Lemma getitem_open_settled (s : StreamView) (st st' : store A LS Src) v :
  0 <= sv_offset s ->
  getitem_open source_next s 1 st = (Ret v, st') -> settled st' v.
Proof.
  intros Ho. unfold getitem_open. cbn [Z.eqb andb]. unfold StreamView_at, bind.
  destruct (at_loop _ _ _ _ _) as [[found| |] st1] eqn:Hw; try discriminate.
  unfold deref. destruct (heap st1 !! fst found) as [L|]; [|discriminate].
  destruct (negb _ && _); [discriminate|]. intros [= <- <-].
  eapply at_loop_settled; [|exact Hw]. lia.
Qed.

(** A settled view on a line that is true stands on an item, and reading
    that item needs no further line. *)
Lemma settled_item (s : StreamView) (st st' : store A LS Src) :
  settled st s -> StreamView_bool s st = (Ret true, st') ->
  exists x, getitem_int source_next s 0 st = (Ret x, st) /\ item_at st s x.
Proof.
  intros (ol & Hol & Ho & Hin). unfold StreamView_bool, bind, deref.
  apply fmap_Some in Hol as (L & HL & ->). rewrite HL. intros [= Ht _].
  destruct (line L) as [l|] eqn:Hl; [|discriminate].
  specialize (Hin l eq_refl Ht).
  destruct (l !! Z.to_nat (sv_offset s)) as [x|] eqn:Hx;
    [|apply lookup_ge_None in Hx; unfold len in Hin; lia].
  exists x. split.
  - eapply (getitem_int_intro s 0 st st (sv_line s) (0 + sv_offset s) L l);
      try eassumption.
    + rewrite at_loop_eq. unfold bind, deref. rewrite HL, Hl, Ht. cbn [andb].
      destruct (len l <=? 0 + sv_offset s) eqn:E;
        [apply Z.leb_le in E; lia | reflexivity].
    + apply py_index_lookup; [lia | exact Hx].
  - exists l. rewrite HL. cbn. rewrite Hl. auto.
Qed.

(** Every way an access to [next] can go. *)
Lemma Line_next_cases (st st' : store A LS Src) q y :
  Line_next source_next q st = (y, st') ->
  st' = st \/
  exists yi,
    source_next (source st) = (yi, source st') /\
    (heap st' = heap st \/
     exists L item prev,
       yi = Ret item /\ heap st !! q = Some L /\
       heap st' =
         <[q := MkLine (line L) (previous_length L) (location_state L)
                       (Some (length (heap st)))]>
           (heap st ++ [MkLine (fst item) prev (snd item) None])).
Proof.
  unfold Line_next, bind, deref.
  destruct (heap st !! q) as [L|] eqn:HL; [|intros [= _ <-]; left; reflexivity].
  destruct (next_ L) as [r|]; [intros [= _ <-]; left; reflexivity|].
  unfold with_source.
  destruct (source_next (source st)) as [[item| |] src'] eqn:Hs;
    try (intros [= _ <-]; right; eexists; split; [reflexivity|left; reflexivity]).
  unfold new_Line, set_next. cbn [heap source].
  rewrite lookup_app_l by (eapply lookup_lt_Some; exact HL). rewrite HL.
  intros [= _ <-]. right. eexists. split; [reflexivity|]. right.
  eexists _, _, _. split; [reflexivity|]. split; reflexivity.
Qed.

(** *** Views are persistent *)

Lemma reads_trans (st1 st2 st3 : store A LS Src) :
  reads source_next st1 st2 -> reads source_next st2 st3 ->
  reads source_next st1 st3.
Proof.
  induction 1 as [st|st q y sta stb Hq _ IH]; intros H; [exact H|].
  eapply reads_next; [exact Hq|]. apply IH, H.
Qed.

Lemma reads_one (st st' : store A LS Src) q y :
  Line_next source_next q st = (y, st') -> reads source_next st st'.
Proof. intros H. eapply reads_next; [exact H|apply reads_none]. Qed.

Lemma at_loop_reads f : forall r i (st st' : store A LS Src) y,
  at_loop source_next f r i st = (y, st') -> reads source_next st st'.
Proof.
  induction f as [|f IH]; intros r i st st' y; rewrite at_loop_eq;
    unfold bind, deref; destruct (heap st !! r) as [L|];
    try (intros [= _ <-]; apply reads_none);
    (destruct (line L) as [l|]; [|intros [= _ <-]; apply reads_none]);
    (destruct (truth (Some l) && (len l <=? i));
     [|intros [= _ <-]; apply reads_none]).
  - intros [= _ <-]. apply reads_none.
  - destruct (Line_next source_next r st) as [[nxt| |] st1] eqn:Hn;
      try (intros [= _ <-]; eapply reads_one; exact Hn).
    intros H. eapply reads_next; [exact Hn|]. eapply IH; exact H.
Qed.

Lemma Line_next_after (st st' : store A LS Src) q x :
  Line_next source_next q st = (Ret x, st') ->
  exists L', heap st' !! q = Some L' /\ next_ L' = Some x.
Proof.
  intros H. apply Line_next_effect in H as [(L & HL & Hn & ->)|H]; [eauto|].
  destruct H as (L & item & HL & Hn & _ & -> & Hheap).
  eexists. rewrite Hheap. split.
  - apply list_lookup_insert_eq. rewrite length_app.
    apply lookup_lt_Some in HL. lia.
  - reflexivity.
Qed.

(** Where [__at] has walked once, it walks again without reading. *)
Lemma at_loop_again f : forall r i (st st1 : store A LS Src) found,
  at_loop source_next f r i st = (Ret found, st1) ->
  forall st2, reads source_next st1 st2 ->
  at_loop source_next f r i st2 = (Ret found, st2).
Proof.
  induction f as [|f IH]; intros r i st st1 found; rewrite at_loop_eq;
    unfold bind, deref; destruct (heap st !! r) as [L|] eqn:HL;
    try discriminate.
  - destruct (line L) as [l|] eqn:Hl.
    + destruct (truth (Some l) && (len l <=? i)) eqn:Hc; [discriminate|].
      intros [= <- <-] st2 Hr.
      assert (Hl2 : line <$> heap st2 !! r = Some (Some l)).
      { eapply reads_line; [exact Hr|]. rewrite HL. cbn. rewrite Hl. reflexivity. }
      apply fmap_Some in Hl2 as (L2 & HL2 & Hl2).
      rewrite at_loop_eq. unfold bind, deref. rewrite HL2, <- Hl2, Hc. reflexivity.
    + intros [= <- <-] st2 Hr.
      assert (Hl2 : line <$> heap st2 !! r = Some None).
      { eapply reads_line; [exact Hr|]. rewrite HL. cbn. rewrite Hl. reflexivity. }
      apply fmap_Some in Hl2 as (L2 & HL2 & Hl2).
      rewrite at_loop_eq. unfold bind, deref. rewrite HL2, <- Hl2. reflexivity.
  - destruct (line L) as [l|] eqn:Hl.
    + destruct (truth (Some l) && (len l <=? i)) eqn:Hc.
      * destruct (Line_next source_next r st) as [[nxt| |] st'] eqn:Hn;
          try discriminate.
        intros Hw st2 Hr.
        destruct (Line_next_after _ _ _ _ Hn) as (L' & HL' & Hn').
        assert (Hr' : reads source_next st' st2).
        { eapply reads_trans; [eapply at_loop_reads; exact Hw|exact Hr]. }
        pose proof (reads_keep _ _ _ _ _ Hr' HL' Hn') as HL2.
        assert (Hl' : line <$> heap st' !! r = Some (Some l)).
        { eapply Line_next_line; [|exact Hn]. rewrite HL. cbn. rewrite Hl.
          reflexivity. }
        rewrite HL' in Hl'. cbn in Hl'. injection Hl' as Hl'.
        rewrite at_loop_eq. unfold bind, deref. rewrite HL2, Hl', Hc.
        rewrite (Line_next_again _ _ _ _ HL2 Hn').
        eapply IH; eassumption.
      * intros [= <- <-] st2 Hr.
        assert (Hl2 : line <$> heap st2 !! r = Some (Some l)).
        { eapply reads_line; [exact Hr|]. rewrite HL. cbn. rewrite Hl. reflexivity. }
        apply fmap_Some in Hl2 as (L2 & HL2 & Hl2).
        rewrite at_loop_eq. unfold bind, deref. rewrite HL2, <- Hl2, Hc. reflexivity.
    + intros [= <- <-] st2 Hr.
      assert (Hl2 : line <$> heap st2 !! r = Some None).
      { eapply reads_line; [exact Hr|]. rewrite HL. cbn. rewrite Hl. reflexivity. }
      apply fmap_Some in Hl2 as (L2 & HL2 & Hl2).
      rewrite at_loop_eq. unfold bind, deref. rewrite HL2, <- Hl2. reflexivity.
Qed.

Lemma StreamView_at_again (s : StreamView) n strict (st st1 : store A LS Src) found :
  StreamView_at source_next s n strict st = (Ret found, st1) ->
  forall st2, reads source_next st1 st2 ->
  StreamView_at source_next s n strict st2 = (Ret found, st2).
Proof.
  unfold StreamView_at, bind.
  destruct (at_loop _ _ _ _ _) as [[fd| |] st'] eqn:Hw; try discriminate.
  unfold deref. destruct (heap st' !! fst fd) as [L|] eqn:HL; [|discriminate].
  destruct (negb (truth (line L)) && _) eqn:Hc; [discriminate|].
  intros [= <- <-] st2 Hr.
  rewrite (at_loop_again _ _ _ _ _ _ Hw st2 Hr).
  assert (Hl2 : line <$> heap st2 !! fst fd = Some (line L)).
  { eapply reads_line; [exact Hr|]. rewrite HL. reflexivity. }
  apply fmap_Some in Hl2 as (L2 & HL2 & Hl2).
  rewrite HL2, <- Hl2, Hc. reflexivity.
Qed.

Lemma StreamView_at_reads (s : StreamView) n strict (st st' : store A LS Src) y :
  StreamView_at source_next s n strict st = (y, st') -> reads source_next st st'.
Proof.
  unfold StreamView_at, bind.
  destruct (at_loop _ _ _ _ _) as [[found| |] st1] eqn:Hw;
    try (intros [= _ <-]; eapply at_loop_reads; exact Hw).
  unfold deref. destruct (heap st1 !! fst found) as [L|];
    [|intros [= _ <-]; eapply at_loop_reads; exact Hw].
  destruct (negb _ && _); intros [= _ <-]; eapply at_loop_reads; exact Hw.
Qed.

(** What [s[n]] or [s[n:]] has returned once, it returns from then on,
    whatever has been read of the stream in between, and without reading
    anything more: the store is left as it is. *)
Theorem views_persistent (s : StreamView) n (st st1 st2 : store A LS Src) :
  reads source_next st1 st2 ->
  (forall x, getitem_int source_next s n st = (Ret x, st1) ->
             getitem_int source_next s n st2 = (Ret x, st2)) /\
  (forall v, getitem_open source_next s n st = (Ret v, st1) ->
             getitem_open source_next s n st2 = (Ret v, st2)).
Proof.
  intros Hr. split.
  - intros x H. apply getitem_int_inv in H as (r1 & i1 & L & l & Hw & HL & Hl & Ht & Hx).
    assert (Hl2 : line <$> heap st2 !! r1 = Some (Some l)).
    { eapply reads_line; [exact Hr|]. rewrite HL. cbn. rewrite Hl. reflexivity. }
    apply fmap_Some in Hl2 as (L2 & HL2 & Hl2).
    eapply getitem_int_intro; [|exact HL2|symmetry; exact Hl2|exact Ht|exact Hx].
    eapply at_loop_again; eassumption.
  - intros v. unfold getitem_open. destruct ((n =? 0) && _).
    + intros [= <- <-]. reflexivity.
    + unfold bind.
      destruct (StreamView_at source_next s n false st) as [[found| |] st'] eqn:Hw;
        try discriminate.
      intros [= <- <-].
      rewrite (StreamView_at_again _ _ _ _ _ _ Hw st2 Hr). reflexivity.
Qed.

(** *** Slices of slices *)

(** For [n, m >= 0], [s[n:][m:]] is [s[n+m:]]: the same view, the same
    lines read, or the same failure. *)
Theorem getitem_open_compose (s : StreamView) n m (st : store A LS Src) :
  0 <= n -> 0 <= m -> 0 <= sv_offset s ->
  getitem_open source_next s (n + m) st =
  match getitem_open source_next s n st with
  | (Ret s1, st1) => getitem_open source_next s1 m st1
  | (Raise e, st1) => (Raise e, st1)
  | (Diverge, st1) => (Diverge, st1)
  end.
Proof.
  intros Hn Hm Ho. unfold getitem_open at 2.
  destruct ((n =? 0) && (sv_offset s =? 0)) eqn:E0.
  - apply andb_prop in E0 as [E1 _]. apply Z.eqb_eq in E1. subst n.
    rewrite Z.add_0_l. reflexivity.
  - unfold getitem_open at 1.
    assert (E1 : (n + m =? 0) && (sv_offset s =? 0) = false).
    { apply andb_false_iff. apply andb_false_iff in E0 as [E|E]; [left|right; exact E].
      apply Z.eqb_neq in E. apply Z.eqb_neq. lia. }
    rewrite E1. unfold StreamView_at, bind.
    replace (n + m + sv_offset s) with (n + sv_offset s + m) by lia.
    rewrite (at_loop_split (Z.to_nat (n + sv_offset s))) by lia.
    destruct (at_loop source_next (Z.to_nat (n + sv_offset s)) (sv_line s)
                (n + sv_offset s) st) as [[[r1 i1]| |] st1] eqn:Hw;
      [|reflexivity|reflexivity].
    cbn [fst snd].
    assert (Hi1 : 0 <= i1).
    { change i1 with (snd (r1, i1)). eapply at_loop_nonneg; [|exact Hw]. lia. }
    pose proof (at_loop_stops _ _ _ _ _ _ Hw) as Hstop. cbn [fst snd] in Hstop.
    pose proof Hstop as Hstop'.
    rewrite at_loop_eq in Hstop'. unfold bind, deref in Hstop'.
    unfold deref at 2.
    destruct (heap st1 !! r1) as [L1|] eqn:HL1; [|discriminate].
    destruct (negb (truth (line L1)) && (false || negb (i1 =? 0))) eqn:Hc.
    + apply andb_prop in Hc as [Hf Hnz]. cbn [orb] in Hnz.
      apply negb_true_iff in Hf. apply negb_true_iff in Hnz. apply Z.eqb_neq in Hnz.
      rewrite at_loop_eq. unfold bind, deref. rewrite HL1.
      destruct (line L1) as [l|] eqn:Hl.
      * rewrite Hf. cbn [andb]. unfold ret, raise. cbn [fst snd].
        rewrite HL1, Hl, Hf. cbn [negb andb orb].
        destruct (i1 + m =? 0) eqn:E; [apply Z.eqb_eq in E; lia|]. reflexivity.
      * unfold ret, raise. cbn [fst snd]. rewrite HL1, Hl. cbn [truth negb andb orb].
        destruct (i1 + m =? 0) eqn:E; [apply Z.eqb_eq in E; lia|]. reflexivity.
    + unfold ret. cbn [fst snd]. unfold getitem_open. cbn [sv_line sv_offset].
      destruct ((m =? 0) && (i1 =? 0)) eqn:E2.
      * apply andb_prop in E2 as [Em Ei]. apply Z.eqb_eq in Em, Ei. subst m i1.
        change (0 + 0) with 0. change (Z.to_nat 0) with 0%nat.
        rewrite Hstop. cbn [fst snd]. unfold deref. rewrite HL1, Hc. reflexivity.
      * unfold StreamView_at, bind, ret. cbn [sv_line sv_offset].
        replace (m + i1) with (i1 + m) by lia. reflexivity.
Qed.

(** *** The stream a factory makes *)

Lemma factory_store (src : Src) :
  snd (factory source_next src)
  = snd (Line_next source_next 0 (Store [MkLine None 0 None None] src)).
Proof.
  unfold factory, bind.
  destruct (Line_next source_next 0 _) as [[r| |] st]; reflexivity.
Qed.

Lemma Line_next_in_order (st st' : store A LS Src) q y :
  in_order st -> Line_next source_next q st = (y, st') -> in_order st'.
Proof.
  intros Hwf. unfold Line_next, bind, deref.
  destruct (heap st !! q) as [Lq|] eqn:Hq; [|intros [= _ <-]; exact Hwf].
  destruct (next_ Lq) as [rq|] eqn:Hnq; [intros [= _ <-]; exact Hwf|].
  unfold with_source.
  destruct (source_next (source st)) as [[item| |] src']; cbn [heap source];
    try (intros [= _ <-]; exact Hwf).
  unfold new_Line, set_next. cbn [heap source].
  rewrite lookup_app_l by (eapply lookup_lt_Some; exact Hq).
  rewrite Hq. intros [= _ <-].
  assert (Hlt : (q < length (heap st))%nat) by (eapply lookup_lt_Some; exact Hq).
  pose proof (Hwf q Lq Hq) as Hfront. rewrite Hnq in Hfront.
  destruct (decide (S q < length (heap st))%nat) as [|Hlast]; [discriminate|].
  intros r L. unfold in_order. cbn [heap].
  rewrite length_insert, length_app. cbn [length].
  rewrite grown_lookup by exact Hlt.
  destruct (decide (r = q)) as [->|Hne].
  - intros [= <-]. cbn [next_].
    destruct (decide (S q < length (heap st) + 1)%nat); [f_equal|]; lia.
  - destruct (decide (r = length (heap st))) as [->|Hne'].
    + intros [= <-]. cbn [next_].
      destruct (decide (S (length (heap st)) < length (heap st) + 1)%nat);
        [lia|reflexivity].
    + intros Hr. rewrite (Hwf r L Hr). apply lookup_lt_Some in Hr.
      destruct (decide (S r < length (heap st))%nat),
               (decide (S r < length (heap st) + 1)%nat); try reflexivity; lia.
Qed.

Lemma reads_in_order (st st' : store A LS Src) :
  reads source_next st st' -> in_order st -> in_order st'.
Proof.
  induction 1 as [st|st q y st1 st2 Hq _ IH]; intros Hwf; [exact Hwf|].
  apply IH. eapply Line_next_in_order; eassumption.
Qed.

(** The lines of a stream always stand in the order they were made: from
    the moment the factory returns, and whatever is read, the [next] of a
    line is the line made right after it, and only the line made last has
    none.  So following [next] never comes back to a line. *)
Theorem lines_in_order (src : Src) (st : store A LS Src) :
  reads source_next (snd (factory source_next src)) st -> in_order st.
Proof.
  intros Hr. eapply reads_in_order; [exact Hr|].
  rewrite factory_store.
  destruct (Line_next source_next 0 (Store [MkLine None 0 None None] src))
    as [y st0] eqn:Hn.
  eapply Line_next_in_order; [|exact Hn].
  intros r L Hr0. destruct r as [|r]; [|discriminate].
  injection Hr0 as <-. reflexivity.
Qed.

Lemma in_order_frontier (st : store A LS Src) : in_order st -> one_frontier st.
Proof.
  intros Hwf r L HL Hn. rewrite (Hwf r L HL) in Hn.
  apply lookup_lt_Some in HL.
  destruct (decide (S r < length (heap st))%nat); [discriminate|lia].
Qed.

(** The view the factory returns stands at the start of the data of the
    source. *)
Lemma factory_chain (src : Src) ls ended :
  pending source_next src ls ended -> ls <> [] \/ ended = true ->
  exists st,
    factory source_next src = (Ret (View 1 0), st) /\
    one_frontier st /\ chain source_next st 1 ls ended.
Proof.
  intros Hp Hsome.
  assert (Hitem : exists item src',
             source_next src = (Ret item, src') /\
             chain source_next
               (Store [MkLine None 0 None (Some 1%nat);
                       MkLine (fst item) 0 (snd item) None] src') 1 ls ended).
  { inversion Hp as [s0|s0 item src' Hs Ht|s0 l lst src' rest e Hs Ht Hrest]; subst.
    - destruct Hsome; congruence.
    - exists item, src'. split; [exact Hs|].
      eapply chain_end; [reflexivity|exact Ht].
    - exists (Some l, lst), src'. split; [exact Hs|].
      eapply chain_unread; [reflexivity|reflexivity|exact Ht|reflexivity|exact Hrest]. }
  destruct Hitem as (item & src' & Hs & Hc).
  eexists. unfold factory, bind.
  rewrite (Line_next_first (Store [MkLine None 0 None None] src) 0
             (MkLine None 0 None None) item src' eq_refl eq_refl Hs).
  cbn [heap length line previous_length location_state insert list_insert app].
  split; [reflexivity|]. split; [|exact Hc].
  intros r L. destruct r as [|[|r]]; cbn; intros [= <-]; [discriminate|reflexivity].
Qed.

(** Item [n] of a view, by the lines from its line on. *)
Lemma getitem_int_chain (s : StreamView) (st : store A LS Src) ls ended n :
  one_frontier st -> chain source_next st (sv_line s) ls ended ->
  0 <= sv_offset s -> 0 <= n ->
  match remaining s ls !! Z.to_nat n with
  | Some x => exists st', getitem_int source_next s n st = (Ret x, st')
  | None =>
      ended = true ->
      exists st', getitem_int source_next s n st = (Raise (IndexError None), st')
  end.
Proof.
  intros Hwf Hc Hoff Hn.
  pose proof (len_remaining s ls Hoff) as Hlen.
  destruct (remaining s ls !! Z.to_nat n) as [x|] eqn:Hx.
  - assert (Hin : n < len (remaining s ls)).
    { apply lookup_lt_Some in Hx. unfold len. lia. }
    destruct (StreamView_at_inside s st ls ended n true Hwf Hc)
      as (r1 & i1 & st1 & l1 & ls1 & L1 & Hat & Hwf1 & Hc1 & HL1 & Hl1 & Ht1 & Hi1 & Hd);
      [lia|].
    exists st1.
    assert (Hx1 : l1 !! Z.to_nat i1 = Some x).
    { unfold remaining in Hx. rewrite lookup_drop in Hx.
      replace (Z.to_nat (sv_offset s) + Z.to_nat n)%nat
        with (Z.to_nat (n + sv_offset s) + 0)%nat in Hx by lia.
      rewrite <- lookup_drop, Hd in Hx.
      rewrite lookup_app_l in Hx by (rewrite length_drop; unfold len in Hi1; lia).
      rewrite lookup_drop, Nat.add_0_r in Hx. exact Hx. }
    unfold getitem_int, bind, deref, lift. rewrite Hat. cbn [fst snd].
    rewrite HL1, Hl1. rewrite (py_index_lookup l1 i1 x) by (lia || exact Hx1).
    reflexivity.
  - intros ->. apply lookup_ge_None in Hx.
    destruct (StreamView_at_outside s st ls n Hwf Hc) as (st1 & Hat).
    { unfold len in *. lia. }
    exists st1. unfold getitem_int, bind. rewrite Hat. reflexivity.
Qed.

(** The stream made of a source that gives the lines [ls] and then ends
    holds the items of [ls] in order, and nothing else. *)
Lemma factory_items (src : Src) ls :
  pending source_next src ls true ->
  exists st,
    factory source_next src = (Ret (View 1 0), st) /\
    forall n, 0 <= n ->
      exists st',
        getitem_int source_next (View 1 0) n st
        = (match concat ls !! Z.to_nat n with
           | Some x => Ret x
           | None => Raise (IndexError None)
           end, st').
Proof.
  intros Hp.
  destruct (factory_chain src ls true Hp) as (st & Hf & Hwf & Hc); [auto|].
  exists st. split; [exact Hf|]. intros n Hn.
  pose proof (getitem_int_chain (View 1 0) st ls true n Hwf Hc
                ltac:(cbn; lia) Hn) as H.
  unfold remaining in H. cbn [sv_offset Z.to_nat] in H. rewrite drop_0 in H.
  destruct (concat ls !! Z.to_nat n); [exact H|apply H; reflexivity].
Qed.

(** *** One item after the other *)

Lemma chain_false (st : store A LS Src) r L ls ended :
  chain source_next st r ls ended -> heap st !! r = Some L ->
  truth (line L) = false -> ls = [].
Proof.
  intros Hc HL Ht. destruct ls as [|l rest]; [reflexivity|].
  destruct (chain_head _ _ _ _ _ Hc) as (L' & HL' & Hl & Htrue).
  rewrite HL in HL'. injection HL' as <-. rewrite Hl in Ht. congruence.
Qed.

(** A settled view with items left stands on the first of them. *)
Lemma getitem_int_head (v : StreamView) (st : store A LS Src) ls ended x rest :
  chain source_next st (sv_line v) ls ended -> settled st v ->
  remaining v ls = x :: rest ->
  StreamView_bool v st = (Ret true, st) /\
  getitem_int source_next v 0 st = (Ret x, st).
Proof.
  intros Hc (ol & Hol & Ho & Hin) Hrem.
  destruct ls as [|l ls'].
  { unfold remaining in Hrem. cbn [concat] in Hrem. rewrite drop_nil in Hrem.
    discriminate. }
  destruct (chain_head _ _ _ _ _ Hc) as (L & HL & Hl & Ht).
  rewrite HL in Hol. cbn in Hol. injection Hol as <-.
  specialize (Hin l Hl Ht).
  assert (Hx : l !! Z.to_nat (sv_offset v) = Some x).
  { unfold remaining in Hrem. cbn [concat] in Hrem.
    rewrite drop_app_le in Hrem by (unfold len in Hin; lia).
    destruct (drop (Z.to_nat (sv_offset v)) l) as [|y t] eqn:Hd.
    - apply (f_equal length) in Hd. rewrite length_drop in Hd. cbn in Hd.
      unfold len in Hin. lia.
    - injection Hrem as -> _.
      rewrite <- (Nat.add_0_r (Z.to_nat (sv_offset v))), <- lookup_drop, Hd.
      reflexivity. }
  split.
  - unfold StreamView_bool, bind, deref. rewrite HL, Hl, Ht. reflexivity.
  - eapply (getitem_int_intro v 0 st st (sv_line v) (0 + sv_offset v) L l);
      try eassumption.
    + rewrite at_loop_eq. unfold bind, deref. rewrite HL, Hl, Ht. cbn [andb].
      destruct (len l <=? 0 + sv_offset v) eqn:E;
        [apply Z.leb_le in E; lia | reflexivity].
    + apply py_index_lookup; [lia | exact Hx].
Qed.

(** A settled view with no item left stands on a line that is false. *)
Lemma StreamView_bool_end (v : StreamView) (st : store A LS Src) ls :
  chain source_next st (sv_line v) ls true -> settled st v ->
  remaining v ls = [] ->
  StreamView_bool v st = (Ret false, st).
Proof.
  intros Hc (ol & Hol & Ho & Hin) Hrem.
  destruct ls as [|l ls'].
  - inversion Hc as [|r0 L HL Ht| |]; subst.
    unfold StreamView_bool, bind, deref. rewrite HL, Ht. reflexivity.
  - destruct (chain_head _ _ _ _ _ Hc) as (L & HL & Hl & Ht).
    rewrite HL in Hol. cbn in Hol. injection Hol as <-.
    specialize (Hin l Hl Ht).
    apply (f_equal length) in Hrem. unfold remaining in Hrem.
    rewrite length_drop in Hrem. cbn [concat length] in Hrem.
    rewrite length_app in Hrem. unfold len in Hin. lia.
Qed.

(** [v[1:]] is the settled view on the items after the first. *)
Lemma getitem_open_tail (v : StreamView) (st : store A LS Src) ls x rest :
  one_frontier st -> chain source_next st (sv_line v) ls true ->
  0 <= sv_offset v -> remaining v ls = x :: rest ->
  exists v1 st1 ls1,
    getitem_open source_next v 1 st = (Ret v1, st1) /\
    one_frontier st1 /\ chain source_next st1 (sv_line v1) ls1 true /\
    settled st1 v1 /\ remaining v1 ls1 = rest.
Proof.
  intros Hwf Hc Ho Hrem.
  assert (Hlen : len (concat ls) - sv_offset v = 1 + len rest).
  { apply (f_equal length) in Hrem. unfold remaining in Hrem.
    rewrite length_drop in Hrem. cbn [length] in Hrem. unfold len. lia. }
  assert (Hrest : drop (Z.to_nat (1 + sv_offset v)) (concat ls) = rest).
  { replace (Z.to_nat (1 + sv_offset v)) with (Z.to_nat (sv_offset v) + 1)%nat
      by lia.
    rewrite <- drop_drop. unfold remaining in Hrem. rewrite Hrem. reflexivity. }
  unfold getitem_open. cbn [Z.eqb andb].
  destruct (decide (1 + sv_offset v < len (concat ls))) as [Hin|Hout].
  - destruct (StreamView_at_inside v st ls true 1 false Hwf Hc)
      as (r1 & i1 & st1 & l1 & ls1 & L1 & Hat & Hwf1 & Hc1 & HL1 & Hl1 & Ht1 & Hi1 & Hd);
      [lia|].
    exists (View r1 i1), st1, (l1 :: ls1). unfold bind. rewrite Hat.
    split; [reflexivity|]. split; [exact Hwf1|]. split; [exact Hc1|]. split.
    + exists (Some l1). cbn [sv_line sv_offset]. rewrite HL1. cbn. rewrite Hl1.
      split; [reflexivity|]. split; [lia|]. intros l [= <-] _. lia.
    + unfold remaining. cbn [sv_offset concat].
      rewrite drop_app_le by (unfold len in Hi1; lia).
      rewrite <- Hd. exact Hrest.
  - destruct (at_loop_outside ls st (sv_line v) (1 + sv_offset v)
                (Z.to_nat (1 + sv_offset v)) Hwf Hc ltac:(lia) (Nat.le_refl _))
      as (r1 & st1 & L1 & Hw & Hwf1 & HL1 & Ht1).
    assert (Hnn : 0 <= len rest) by (unfold len; lia).
    replace (1 + sv_offset v - len (concat ls)) with 0 in Hw by lia.
    exists (View r1 0), st1, []. unfold StreamView_at, bind, deref.
    rewrite Hw. cbn [fst snd]. rewrite HL1, Ht1. cbn [negb andb orb Z.eqb].
    split; [reflexivity|]. split; [exact Hwf1|].
    split; [eapply chain_end; eassumption|]. split.
    + exists (line L1). cbn [sv_line sv_offset]. rewrite HL1.
      split; [reflexivity|]. split; [lia|]. intros l Hl Ht.
      rewrite Hl in Ht1. congruence.
    + unfold remaining. cbn [concat]. rewrite drop_nil. symmetry.
      apply length_zero_iff_nil. unfold len in *. lia.
Qed.

(** [v[0:]] on a view that stands on an item is that view. *)
Lemma getitem_open_0_item (v : StreamView) (st : store A LS Src) x :
  item_at st v x -> getitem_open source_next v 0 st = (Ret v, st).
Proof.
  intros (l & Hl & Ho & Hx). unfold getitem_open.
  destruct ((0 =? 0) && (sv_offset v =? 0)); [reflexivity|].
  apply fmap_Some in Hl as (L & HL & Hline).
  assert (Hin : sv_offset v < len l).
  { apply lookup_lt_Some in Hx. unfold len. lia. }
  assert (Ht : truth (Some l) = true)
    by (destruct l; [rewrite lookup_nil in Hx; discriminate | reflexivity]).
  unfold StreamView_at, bind. rewrite at_loop_eq. unfold bind, deref.
  rewrite HL, <- Hline, Ht. cbn [andb].
  destruct (len l <=? 0 + sv_offset v) eqn:E; [apply Z.leb_le in E; lia|].
  unfold ret. cbn [fst snd]. rewrite HL, <- Hline, Ht. cbn [negb andb fst snd].
  destruct v as [r o]. cbn [sv_line sv_offset]. rewrite Z.add_0_l. reflexivity.
Qed.

(** *** Negative indices *)

(** A negative index counts from the end of the line the view stands on,
    not from the end of the data: it gives an item of that line, or
    raises [IndexError] before the start of the line; nothing is read. *)
Theorem negative_index_in_line (s : StreamView) (st : store A LS Src) L l n :
  heap st !! sv_line s = Some L -> line L = Some l -> truth (Some l) = true ->
  n + sv_offset s < 0 ->
  getitem_int source_next s n st
  = (if n + sv_offset s + len l <? 0 then Raise (IndexError None)
     else match l !! Z.to_nat (n + sv_offset s + len l) with
          | Some x => Ret x
          | None => Raise (IndexError None)
          end, st).
Proof.
  intros HL Hl Ht Hneg.
  assert (Hlen : 0 <= len l) by (unfold len; lia).
  unfold getitem_int, StreamView_at, bind. rewrite at_loop_eq.
  unfold bind, deref. rewrite HL, Hl, Ht. cbn [andb].
  destruct (len l <=? n + sv_offset s) eqn:E; [apply Z.leb_le in E; lia|].
  unfold ret. cbn [fst snd]. rewrite HL, Hl, Ht. cbn [negb andb fst snd].
  rewrite HL, Hl. unfold lift, py_index.
  destruct (n + sv_offset s <? 0) eqn:E1; [|apply Z.ltb_ge in E1; lia].
  destruct (n + sv_offset s + len l <? 0); [reflexivity|].
  destruct (l !! Z.to_nat (n + sv_offset s + len l)); reflexivity.
Qed.

End StreamProperties.

(** * Properties of transformed streams *)

Section DelegateProperties.
Import Stream.
Variable A0 : Type.
Variable LS0 : Type.
Variable Src0 : Type.
Variable Desc : Type.
Variable source_next0 : M Src0 (option (list A0) * option LS0).
Variable source_location0 :
  Z -> option (list A0) -> option LS0 -> M Src0 (location A0 Desc).
Variable B : Type.
Variable transform : A0 -> list (list B).

Lemma BTS_loop_eq fuel sb tr (self : BTS A0 LS0 Src0 B) :
  BTS_loop source_next0 transform fuel sb tr self =
  (let* self := get in
   match tr with
   | _ :: _ => ret (sb, tr)
   | [] =>
       let* more := with_under (StreamView_bool (bts_stream self)) in
       if more then
         match fuel with
         | O => diverge
         | S fuel' =>
             let* x := with_under
               (getitem_int source_next0 (bts_stream self) 0) in
             let* rest := with_under
               (getitem_open source_next0 (bts_stream self) 1) in
             modify (set_bts_stream A0 LS0 Src0 B rest);;
             BTS_loop source_next0 transform fuel' (Some (bts_stream self))
                      (transform x)
         end
       else ret (sb, tr)
   end) self.
Proof. destruct fuel; reflexivity. Qed.

Lemma StreamView_bool_inv (v : StreamView) (st st' : store A0 LS0 Src0) y :
  StreamView_bool v st = (y, st') -> st' = st.
Proof.
  unfold StreamView_bool, bind, deref.
  destruct (heap st !! sv_line v); intros [= _ <-]; reflexivity.
Qed.

Lemma kept_nil (u : store A0 LS0 Src0) sb : kept transform u (sb, []).
Proof. intros H. exfalso. apply H. reflexivity. Qed.

Lemma kept_grows (u u' : store A0 LS0 Src0) state :
  grows u u' -> kept transform u state -> kept transform u' state.
Proof.
  intros Hg Hk Hne. destruct (Hk Hne) as (o & x & Ho & Hat & Hin).
  exists o, x. split; [exact Ho|]. split; [|exact Hin].
  eapply item_at_grows; eassumption.
Qed.

(** The loop of [__next__] keeps the view it reads from settled, only
    adds lines to the stream read from, and leaves with items made of the
    item under [stream_before]. *)
Lemma BTS_loop_ok fuel : forall sb tr (self self' : BTS A0 LS0 Src0 B) y,
  BTS_loop source_next0 transform fuel sb tr self = (y, self') ->
  settled (bts_under self) (bts_stream self) ->
  kept transform (bts_under self) (sb, tr) ->
  settled (bts_under self') (bts_stream self') /\
  grows (bts_under self) (bts_under self') /\
  bts_state self' = bts_state self /\
  forall found, y = Ret found -> kept transform (bts_under self') found.
Proof.
  induction fuel as [|fuel IH]; intros sb tr self self' y;
    rewrite BTS_loop_eq; rewrite bind_get; cbn beta;
    (destruct tr as [|item tr];
     [|intros [= <- <-] Hs Hk; repeat split;
       [exact Hs|apply grows_refl|intros found [= <-]; exact Hk]]);
    unfold bind at 1; unfold with_under at 1;
    destruct (StreamView_bool (bts_stream self) (bts_under self))
      as [[more| |] u] eqn:Hb;
    pose proof (StreamView_bool_inv _ _ _ _ Hb) as ->;
    try (intros [= <- <-] Hs Hk; cbn; repeat split;
         [exact Hs|apply grows_refl|discriminate]);
    (destruct more;
     [|intros [= <- <-] Hs Hk; cbn; repeat split;
       [exact Hs|apply grows_refl|intros found [= <-]; apply kept_nil]]).
  - intros [= <- <-] Hs Hk; cbn; repeat split;
      [exact Hs|apply grows_refl|discriminate].
  - intros H Hs Hk.
    destruct (settled_item _ _ _ source_next0 _ _ _ Hs Hb) as (x & Hx & Hat).
    unfold bind at 1 in H. unfold with_under at 1 in H. cbn [bts_under] in H.
    rewrite Hx in H. cbn [bts_stream bts_total_length bts_length bts_state] in H.
    unfold bind at 1 in H. unfold with_under at 1 in H. cbn [bts_under bts_stream] in H.
    destruct (getitem_open source_next0 (bts_stream self) 1 (bts_under self))
      as [[rest| |] u2] eqn:Ho;
      pose proof (getitem_open_grows _ _ _ source_next0 _ _ _ _ _ Ho) as Hg;
      try (injection H as <- <-; cbn; repeat split;
           [eapply settled_grows; eassumption|exact Hg|discriminate]).
    rewrite bind_modify in H. cbn in H.
    apply IH in H; cbn in *.
    + destruct H as (Hs' & Hg' & Hst & Hk'). repeat split.
      * exact Hs'.
      * eapply grows_trans; eassumption.
      * exact Hst.
      * exact Hk'.
    + eapply getitem_open_settled; [|exact Ho].
      destruct Hs as (ol & _ & Hoff & _). exact Hoff.
    + intros _. exists (bts_stream self), x. split; [reflexivity|].
      split; [eapply item_at_grows; eassumption|]. intros it Hit. exact Hit.
Qed.

Lemma recorded_grows (u u' : store A0 LS0 Src0) l ls :
  grows u u' -> recorded transform u l ls -> recorded transform u' l ls.
Proof.
  intros Hg. destruct l as [item|]; [|auto].
  intros (o & x & Ho & Hat & Hin). exists o, x.
  split; [exact Ho|]. split; [eapply item_at_grows; eassumption | exact Hin].
Qed.

(** [__next__] hands out each item with the view on the item it was made
    of, and [None] with the end. *)
Lemma BTS_next_ok fuel (self self' : BTS A0 LS0 Src0 B) y :
  BTS_ok transform self ->
  BTS_next source_next0 transform fuel self = (y, self') ->
  BTS_ok transform self' /\ grows (bts_under self) (bts_under self') /\
  forall item, y = Ret item ->
    recorded transform (bts_under self') (fst item) (snd item).
Proof.
  intros [Hs Hk]. unfold BTS_next. rewrite bind_get. cbn beta. unfold bind at 1.
  destruct (BTS_loop source_next0 transform fuel _ _ self) as [yl s1] eqn:Hl.
  apply BTS_loop_ok in Hl as (Hs1 & Hg & Hst & Hk1);
    [|exact Hs|destruct (bts_state self); exact Hk].
  assert (Hk0 : kept transform (bts_under s1) (bts_state s1))
    by (rewrite Hst; eapply kept_grows; eassumption).
  destruct yl as [found| |];
    try (intros [= <- <-]; repeat split; try assumption; discriminate).
  specialize (Hk1 found eq_refl).
  destruct (snd found) as [|item rest] eqn:Hf.
  - rewrite bind_modify. intros [= <- <-]. cbn.
    repeat split; try assumption. intros it [= <-]. reflexivity.
  - rewrite bind_modify. intros [= <- <-]. cbn.
    destruct Hk1 as (o & x & Ho & Hat & Hin); [rewrite Hf; discriminate|].
    repeat split; try assumption.
    + intros _. exists o, x. cbn. split; [exact Ho|]. split; [exact Hat|].
      intros it Hit. apply Hin. rewrite Hf. right. exact Hit.
    + intros it [= <-]. exists o, x. cbn. split; [exact Ho|].
      split; [exact Hat|]. apply Hin. rewrite Hf. left.
Qed.

(** Asking for a location only adds lines to the stream read from. *)
Lemma BTS_location_ok offset l ls (self self' : BTS A0 LS0 Src0 B) y :
  BTS_location source_next0 source_location0 offset l ls self = (y, self') ->
  grows (bts_under self) (bts_under self') /\
  bts_stream self' = bts_stream self /\ bts_state self' = bts_state self.
Proof.
  unfold BTS_location, with_under.
  destruct (BaseDelegateSource_location _ _ _ _ _ _) as [y' u] eqn:Hl.
  intros [= _ <-]. cbn. split; [|auto].
  unfold BaseDelegateSource_location in Hl.
  destruct ls as [original|]; [|injection Hl as _ <-; apply grows_refl].
  unfold bind at 1 in Hl.
  destruct (StreamView_bool original (bts_under self)) as [[ne| |] u0] eqn:Hb;
    pose proof (StreamView_bool_inv _ _ _ _ Hb) as ->;
    try (injection Hl as _ <-; apply grows_refl).
  destruct ne; [|injection Hl as _ <-; apply grows_refl].
  unfold bind in Hl.
  destruct (getitem_open source_next0 original offset (bts_under self))
    as [[shifted| |] u1] eqn:Ho;
    pose proof (getitem_open_grows _ _ _ source_next0 _ _ _ _ _ Ho) as Hg;
    try (injection Hl as _ <-; exact Hg).
  unfold StreamView_location in Hl. apply Line_location_grows in Hl.
  intros a ol Ha. rewrite Hl. apply Hg, Ha.
Qed.

(** In every store of a transformed stream, each line carries what
    [__next__] gave with it. *)
Lemma derived_recorded fuel (dst : store B StreamView (BTS A0 LS0 Src0 B)) :
  derived source_next0 source_location0 transform fuel dst ->
  BTS_ok transform (source dst) /\
  forall r L, heap dst !! r = Some L ->
    recorded transform (bts_under (source dst)) (line L) (location_state L).
Proof.
  induction 1 as [stream under Hs|dst q y dst' _ [Hok Hrec] Hn
                  |dst q offset y dst' _ [Hok Hrec] Hl].
  - split; [split; [exact Hs|apply kept_nil]|].
    intros [|r] L; [|discriminate]. intros [= <-]. reflexivity.
  - apply Line_next_cases in Hn as [->|(yi & Hsrc & Hheap)]; [auto|].
    destruct (BTS_next_ok _ _ _ _ Hok Hsrc) as (Hok' & Hg & Hitem).
    split; [exact Hok'|]. intros r L.
    destruct Hheap as [->|(Lq & item & prev & -> & HLq & ->)].
    + intros HL. eapply recorded_grows; [exact Hg|]. apply Hrec with r. exact HL.
    + rewrite grown_lookup by (eapply lookup_lt_Some; exact HLq).
      destruct (decide (r = q)) as [->|_].
      * intros [= <-]. cbn. eapply recorded_grows; [exact Hg|].
        apply Hrec with q. exact HLq.
      * destruct (decide (r = length (heap dst))) as [->|_].
        -- intros [= <-]. cbn. apply Hitem. reflexivity.
        -- intros HL. eapply recorded_grows; [exact Hg|]. apply Hrec with r.
           exact HL.
  - unfold Line_location, bind, deref in Hl.
    destruct (heap dst !! q) as [Lq|]; [|injection Hl as _ <-; auto].
    unfold with_source in Hl.
    destruct (BTS_location _ _ _ _ _ _) as [y' src'] eqn:Hloc.
    injection Hl as _ <-. cbn.
    apply BTS_location_ok in Hloc as (Hg & Hst & Hstate).
    destruct Hok as [Hs Hk]. split.
    + split.
      * rewrite Hst. eapply settled_grows; eassumption.
      * rewrite Hstate. eapply kept_grows; eassumption.
    + intros r L HL. eapply recorded_grows; [exact Hg|]. apply Hrec with r.
      exact HL.
Qed.

(** The location of a derived position is the location of the view kept
    with its line, advanced by the offset. *)
Lemma derived_location_shift fuel
    (dst : store B StreamView (BTS A0 LS0 Src0 B)) r L offset :
  derived source_next0 source_location0 transform fuel dst ->
  heap dst !! r = Some L ->
  match line L with
  | Some item =>
      exists original x,
        location_state L = Some original /\
        item_at (bts_under (source dst)) original x /\
        item ∈ transform x /\
        StreamView_location (BTS_location source_next0 source_location0)
                            (View r offset) dst
        = with_source
            (with_under
               (let* shifted := getitem_open source_next0 original offset in
                StreamView_location source_location0 shifted)) dst
  | None =>
      StreamView_location (BTS_location source_next0 source_location0)
                          (View r offset) dst
      = (Ret no_location, dst)
  end.
Proof.
  intros Hd HL. destruct (derived_recorded fuel dst Hd) as [_ Hrec].
  specialize (Hrec r L HL). unfold recorded in Hrec.
  unfold StreamView_location, Line_location, bind, deref.
  cbn [sv_line sv_offset]. rewrite HL.
  destruct (line L) as [item|].
  - destruct Hrec as (original & x & Hls & Hat & Hin).
    exists original, x. split; [exact Hls|]. split; [exact Hat|].
    split; [exact Hin|]. rewrite Hls.
    unfold with_source, BTS_location, with_under, BaseDelegateSource_location.
    unfold bind at 1.
    destruct Hat as (l & Hl & _ & Hx).
    apply fmap_Some in Hl as (Lo & HLo & Hline).
    unfold StreamView_bool at 1. unfold bind at 1. unfold deref at 1.
    rewrite HLo. unfold ret at 1. rewrite <- Hline.
    assert (Ht : truth (Some l) = true)
      by (destruct l; [rewrite lookup_nil in Hx; discriminate | reflexivity]).
    rewrite Ht. reflexivity.
  - rewrite Hrec. unfold with_source, BTS_location, with_under,
      BaseDelegateSource_location, ret.
    destruct dst as [h src]. destruct src. reflexivity.
Qed.

(** C7, as the code has it: in every store of a transformed stream, a
    line that holds an item carries the view on the item of the stream
    read from that the item was made of.  The location of a derived
    position on that line is the location of that view advanced by the
    offset of the position: at offset 0 it is the location of the
    producing item itself; at another offset it is the location found
    that many items further in the stream read from.  This holds of an
    empty item too: a position on it, although past the end of the
    transformed data, is answered from the stream read from.  On a line
    without an item, where the transformed source has ended, the
    location is (-1, -1, -1, None, None). *)
Theorem derived_location_delegates fuel
    (dst : store B StreamView (BTS A0 LS0 Src0 B)) r L offset :
  derived source_next0 source_location0 transform fuel dst ->
  heap dst !! r = Some L ->
  match line L with
  | Some item =>
      exists original x,
        location_state L = Some original /\
        item_at (bts_under (source dst)) original x /\
        item ∈ transform x /\
        StreamView_location (BTS_location source_next0 source_location0)
                            (View r offset) dst
        = with_source
            (with_under
               (let* shifted := getitem_open source_next0 original offset in
                StreamView_location source_location0 shifted)) dst /\
        StreamView_location (BTS_location source_next0 source_location0)
                            (View r 0) dst
        = with_source
            (with_under (StreamView_location source_location0 original)) dst
  | None =>
      StreamView_location (BTS_location source_next0 source_location0)
                          (View r offset) dst
      = (Ret no_location, dst)
  end.
Proof.
  intros Hd HL.
  pose proof (derived_location_shift fuel dst r L offset Hd HL) as H1.
  pose proof (derived_location_shift fuel dst r L 0 Hd HL) as H0.
  destruct (line L) as [item|]; [|exact H1].
  destruct H1 as (original & x & Hls & Hat & Hin & Heq).
  destruct H0 as (o0 & x0 & Hls0 & _ & _ & Heq0).
  rewrite Hls in Hls0. injection Hls0 as <-.
  exists original, x. split; [exact Hls|]. split; [exact Hat|].
  split; [exact Hin|]. split; [exact Heq|].
  rewrite Heq0. unfold with_source, with_under, bind.
  rewrite (getitem_open_0_item _ _ _ source_next0 _ _ _ Hat). reflexivity.
Qed.

(** *** The items of a transformed stream *)

Lemma pending_upto {LS Src} (next : M Src (option (list B) * option LS))
    (src src' : Src) t lsx rest :
  next src = (Ret (Some t, lsx), src') ->
  pending next src' (upto_empty rest) true ->
  pending next src (upto_empty (t :: rest)) true.
Proof.
  intros Hn Hp. destruct t as [|b t].
  - eapply pending_end; [exact Hn|reflexivity].
  - cbn [upto_empty]. eapply pending_line; [exact Hn|reflexivity|exact Hp].
Qed.

Lemma BTS_next_cons fuel tl v len0 sb t tr (u : store A0 LS0 Src0) :
  BTS_next source_next0 transform fuel (MkBTS tl v len0 (sb, t :: tr) u)
  = (Ret (Some t, sb), MkBTS tl v (len0 + 1) (sb, tr) u).
Proof.
  unfold BTS_next. rewrite bind_get. cbn [bts_state fst snd].
  unfold bind at 1. rewrite BTS_loop_eq, bind_get. cbn [ret fst snd].
  unfold ret at 1. cbn [fst snd]. rewrite bind_modify. reflexivity.
Qed.

(** The loop of [__next__] skips the items that give nothing and stops at
    the first that gives something, or at the end of the stream. *)
Lemma BTS_loop_chain items : forall fuel sb v (u : store A0 LS0 Src0) ls tl len0 st0,
  one_frontier u -> chain source_next0 u (sv_line v) ls true -> settled u v ->
  remaining v ls = items -> (length items < fuel)%nat ->
  exists sb' tr' v' u' ls' items',
    BTS_loop source_next0 transform fuel sb [] (MkBTS tl v len0 st0 u)
    = (Ret (sb', tr'), MkBTS tl v' len0 st0 u') /\
    one_frontier u' /\ chain source_next0 u' (sv_line v') ls' true /\
    settled u' v' /\ remaining v' ls' = items' /\
    concat (map transform items) = tr' ++ concat (map transform items') /\
    (tr' <> [] -> (length items' < length items)%nat) /\
    (tr' = [] -> items' = []).
Proof.
  induction items as [|x rest IH]; intros fuel sb v u ls tl len0 st0 Hwf Hc Hs Hrem Hf.
  - exists sb, [], v, u, ls, []. rewrite BTS_loop_eq, bind_get. cbn beta iota.
    unfold bind at 1, with_under at 1. cbn [bts_stream bts_under].
    rewrite (StreamView_bool_end _ _ _ source_next0 v u ls Hc Hs Hrem).
    split; [reflexivity|]. split; [exact Hwf|]. split; [exact Hc|].
    split; [exact Hs|]. split; [exact Hrem|]. split; [reflexivity|].
    split; [congruence|reflexivity].
  - destruct fuel as [|fuel]; [cbn in Hf; lia|].
    destruct (getitem_int_head _ _ _ source_next0 v u ls true x rest Hc Hs Hrem)
      as (Hb & Hx).
    assert (Ho : 0 <= sv_offset v) by (destruct Hs as (ol & _ & Ho & _); exact Ho).
    destruct (getitem_open_tail _ _ _ source_next0 v u ls x rest Hwf Hc Ho Hrem)
      as (v1 & u1 & ls1 & Hopen & Hwf1 & Hc1 & Hs1 & Hrem1).
    rewrite BTS_loop_eq, bind_get. cbn beta iota.
    unfold bind at 1, with_under at 1. cbn [bts_stream bts_under]. rewrite Hb.
    cbn [bts_total_length bts_length bts_state bts_stream].
    unfold bind at 1, with_under at 1. cbn [bts_stream bts_under]. rewrite Hx.
    cbn [bts_total_length bts_length bts_state bts_stream].
    unfold bind at 1, with_under at 1. cbn [bts_stream bts_under]. rewrite Hopen.
    cbn [bts_total_length bts_length bts_state bts_stream].
    rewrite bind_modify. unfold set_bts_stream.
    cbn [bts_total_length bts_length bts_state bts_stream bts_under].
    destruct (transform x) as [|t tr2] eqn:Htx.
    + destruct (IH fuel (Some v) v1 u1 ls1 tl len0 st0 Hwf1 Hc1 Hs1 Hrem1)
        as (sb' & tr' & v' & u' & ls' & items' & Hrun & Hwf' & Hc' & Hs' & Hrem' & Hcat & Hlt & Hnil);
        [cbn in Hf; lia|].
      exists sb', tr', v', u', ls', items'.
      split; [exact Hrun|]. split; [exact Hwf'|]. split; [exact Hc'|].
      split; [exact Hs'|]. split; [exact Hrem'|].
      split; [cbn [map concat]; rewrite Htx; exact Hcat|].
      split; [|exact Hnil].
      intros Hne. destruct tr' as [|t' tr'];
        [congruence|specialize (Hlt ltac:(discriminate)); cbn; lia].
    + exists (Some v), (t :: tr2), v1, u1, ls1, rest.
      rewrite BTS_loop_eq, bind_get. cbn beta iota.
      split; [reflexivity|]. split; [exact Hwf1|]. split; [exact Hc1|].
      split; [exact Hs1|]. split; [exact Hrem1|].
      split; [cbn [map concat]; rewrite Htx; reflexivity|].
      split; [intros _; cbn; lia|discriminate].
Qed.

(** What [__next__] gives, call after call: the items made of the items
    of the stream read from, in order, up to the first that is false. *)
Lemma BTS_pending fuel : forall m items, (length items < m)%nat ->
  forall tr sb v (u : store A0 LS0 Src0) ls tl len0,
  one_frontier u -> chain source_next0 u (sv_line v) ls true -> settled u v ->
  remaining v ls = items -> (length items < fuel)%nat ->
  pending (BTS_next source_next0 transform fuel) (MkBTS tl v len0 (sb, tr) u)
          (upto_empty (tr ++ concat (map transform items))) true.
Proof.
  induction m as [|m IHm]; intros items Hm; [lia|].
  induction tr as [|t tr IHtr]; intros sb v u ls tl len0 Hwf Hc Hs Hrem Hf.
  - destruct (BTS_loop_chain items fuel sb v u ls tl len0 (sb, []) Hwf Hc Hs Hrem Hf)
      as (sb' & tr' & v' & u' & ls' & items' & Hrun & Hwf' & Hc' & Hs' & Hrem' & Hcat & Hlt & Hnil).
    cbn [app]. rewrite Hcat. destruct tr' as [|t tr'].
    + rewrite (Hnil eq_refl). cbn [app map concat upto_empty].
      eapply pending_end;
        [unfold BTS_next; rewrite bind_get; cbn [bts_state fst snd];
         unfold bind at 1; rewrite Hrun; cbn [fst snd]; rewrite bind_modify;
         reflexivity
        |reflexivity].
    + cbn [app]. eapply pending_upto.
      * unfold BTS_next. rewrite bind_get. cbn [bts_state fst snd].
        unfold bind at 1. rewrite Hrun. cbn [fst snd]. rewrite bind_modify.
        reflexivity.
      * cbn [bts_total_length bts_stream bts_length bts_under].
        specialize (Hlt ltac:(discriminate)).
        apply (IHm items' ltac:(lia) tr' sb' v' u' ls'); try assumption. lia.
  - cbn [app]. eapply pending_upto; [apply BTS_next_cons|].
    apply (IHtr sb v u ls); assumption.
Qed.

(** Each thing the transformation makes of an item of the stream read
    from is a line of the stream made of the transformed source: the new
    stream holds the items of these lines, in the order of the items
    they were made of, up to the first line that is false, which ends
    it. *)
Theorem transformed_stream_items fuel (s : StreamView) (u : store A0 LS0 Src0) ls :
  one_frontier u -> chain source_next0 u (sv_line s) ls true -> settled u s ->
  (length (remaining s ls) < fuel)%nat ->
  exists dst,
    factory (BTS_next source_next0 transform fuel) (BTS_init s u)
    = (Ret (View 1 0), dst) /\
    forall n, 0 <= n ->
      exists dst',
        getitem_int (BTS_next source_next0 transform fuel) (View 1 0) n dst
        = (match concat (upto_empty (concat (map transform (remaining s ls))))
                 !! Z.to_nat n with
           | Some x => Ret x
           | None => Raise (IndexError None)
           end, dst').
Proof.
  intros Hwf Hc Hs Hf. apply factory_items.
  apply (BTS_pending fuel (S (length (remaining s ls))) (remaining s ls)
           ltac:(lia) [] None s u ls None 0 Hwf Hc Hs eq_refl Hf).
Qed.

End DelegateProperties.

(** * Properties of the sources *)

Section LineSourceProperties.
Import Stream.
Variable A : Type.
Variable Desc : Type.

Lemma upto_empty_all (lines : list (list A)) :
  Forall (fun l => l <> []) lines -> upto_empty lines = lines.
Proof.
  induction 1 as [|l rest Hl _ IH]; [reflexivity|].
  destruct l as [|x l]; [congruence|]. cbn. rewrite IH. reflexivity.
Qed.

Lemma LineSource_pending (lines : list (list A)) : forall (d : Desc) tl lc cc,
  pending LineSource_next (MkLineSource d tl lines lc cc) (upto_empty lines) true.
Proof.
  induction lines as [|l rest IH]; intros d tl lc cc.
  - eapply pending_end; reflexivity.
  - destruct l as [|x l].
    + eapply pending_end; reflexivity.
    + cbn [upto_empty]. eapply pending_line; [reflexivity|reflexivity|apply IH].
Qed.

(** The stream made of a list of lines holds, in order, the items of the
    lines before the first empty line: item [n] is read there, and an
    index past them raises [IndexError].  With no empty line, these are
    all the items. *)
Theorem from_lines_items (lines : list (list A)) (d : Desc) :
  (exists st,
     factory LineSource_next (LineSource_init lines d) = (Ret (View 1 0), st) /\
     forall n, 0 <= n ->
       exists st',
         getitem_int LineSource_next (View 1 0) n st
         = (match concat (upto_empty lines) !! Z.to_nat n with
            | Some x => Ret x
            | None => Raise (IndexError None)
            end, st')) /\
  (Forall (fun l => l <> []) lines -> upto_empty lines = lines).
Proof.
  split; [|apply upto_empty_all].
  apply factory_items. apply LineSource_pending.
Qed.

(** *** The layout of the store *)

Variable all : list (list A).
Variable d : Desc.

Lemma before_S (k : nat) :
  before all (S k)
  = before all k + match all !! k with Some l => len l | None => 0 end.
Proof.
  unfold before, len. destruct (all !! k) as [l|] eqn:Hk.
  - rewrite (take_S_r _ _ _ Hk), concat_app, length_app. cbn [concat].
    rewrite app_nil_r. lia.
  - apply lookup_ge_None in Hk. rewrite !take_ge by lia. lia.
Qed.

Lemma before_0 : before all 0 = 0.
Proof. unfold before. rewrite take_0. reflexivity. Qed.

Lemma before_all (k : nat) :
  (length all <= k)%nat -> before all k = len (concat all).
Proof. intros H. unfold before. rewrite take_ge by lia. reflexivity. Qed.

Lemma LineSource_next_after (made : nat) :
  LineSource_next (LineSource_after all d made)
  = (Ret (all !! made,
          Some (if decide (made < length all)%nat
                then (before all made, Z.of_nat made + 1) else (-1, -1))),
     LineSource_after all d (S made)).
Proof.
  unfold LineSource_next, LineSource_after. cbn [ls_lines].
  destruct (drop made all) as [|l rest] eqn:Hd.
  - assert (Hge : (length all <= made)%nat).
    { apply (f_equal length) in Hd. rewrite length_drop in Hd. cbn in Hd. lia. }
    rewrite (proj2 (lookup_ge_None all made)) by lia.
    destruct (decide (made < length all)%nat); [lia|].
    cbn [ls_description ls_total_length ls_line_count ls_character_count].
    destruct (decide (length all < S made)%nat); [|lia].
    rewrite (drop_ge all (S made)) by lia.
    rewrite (before_all made), (before_all (S made)) by lia.
    do 2 f_equal. f_equal. lia.
  - assert (Hk : all !! made = Some l).
    { rewrite <- (Nat.add_0_r made), <- lookup_drop, Hd. reflexivity. }
    assert (Hlt : (made < length all)%nat) by (eapply lookup_lt_Some; exact Hk).
    rewrite Hk. destruct (decide (made < length all)%nat); [|lia].
    cbn [ls_description ls_total_length ls_line_count ls_character_count].
    destruct (decide (length all < made)%nat); [lia|].
    destruct (decide (length all < S made)%nat); [lia|].
    rewrite before_S, Hk.
    assert (Hrest : drop (S made) all = rest).
    { rewrite (drop_S _ _ _ Hk) in Hd. injection Hd as Hd. exact Hd. }
    rewrite Hrest.
    replace (1 + Z.of_nat (made `min` length all)) with (Z.of_nat made + 1) by lia.
    replace (1 + Z.of_nat (S made `min` length all)) with (Z.of_nat made + 1 + 1)
      by lia.
    reflexivity.
Qed.

Lemma laid_out_frontier made (st : store A (Z * Z) (LineSource A Desc)) :
  laid_out all d made st ->
  exists L, heap st !! made = Some L /\ next_ L = None /\
    match line L with
    | Some l => previous_length L + len l
    | None => previous_length L
    end = before all made.
Proof.
  intros (Hlen & Hsrc & H0 & Hk). destruct made as [|j].
  - eexists. split; [exact H0|]. split; reflexivity.
  - eexists. split; [apply Hk; lia|].
    cbn [LineSource_line next_ line previous_length].
    split; [destruct (decide (S j < S j)%nat); [lia|reflexivity]|].
    rewrite before_S. destruct (all !! j); lia.
Qed.

(** On such a store [next] is the following address; it reads the source
    when the line is the last one made. *)
Lemma laid_out_next made (st : store A (Z * Z) (LineSource A Desc)) q :
  laid_out all d made st -> (q <= made)%nat ->
  exists made' st',
    Line_next LineSource_next q st = (Ret (S q), st') /\
    laid_out all d made' st' /\ (made <= made')%nat /\ (S q <= made')%nat.
Proof.
  intros Hlay Hq. destruct (decide (q < made)%nat) as [Hlt|Hfront].
  - exists made, st. split; [|split; [exact Hlay|lia]].
    destruct Hlay as (Hlen & Hsrc & H0 & Hk). destruct q as [|k].
    + eapply Line_next_again; [exact H0|].
      destruct (decide (0 < made)%nat); [reflexivity|lia].
    + eapply Line_next_again; [apply Hk; lia|]. cbn.
      destruct (decide (S k < made)%nat); [reflexivity|lia].
  - assert (q = made) by lia. subst q.
    destruct (laid_out_frontier made st Hlay) as (L & HL & Hn & Hprev).
    destruct Hlay as (Hlen & Hsrc & H0 & Hk).
    pose proof (LineSource_next_after made) as Hs. rewrite <- Hsrc in Hs.
    exists (S made). eexists. split.
    + erewrite Line_next_first; [|exact HL|exact Hn|exact Hs].
      rewrite Hlen. reflexivity.
    + split; [|lia]. rewrite Hprev. cbn [fst snd].
      assert (Hm : (made < length (heap st))%nat) by lia.
      unfold laid_out. cbn [heap source]. repeat split.
      * rewrite length_insert, length_app. cbn [length]. lia.
      * rewrite grown_lookup by exact Hm.
        destruct (decide (0%nat = made)) as [<-|Hne].
        -- rewrite H0 in HL. injection HL as <-. reflexivity.
        -- destruct (decide (0%nat = length (heap st))); [lia|].
           rewrite H0. destruct (decide (0 < made)%nat); [|lia].
           destruct (decide (0 < S made)%nat); [reflexivity|lia].
      * intros k Hks. rewrite grown_lookup by exact Hm.
        destruct (decide (S k = made)) as [<-|Hne].
        -- rewrite (Hk k) in HL by lia. injection HL as <-.
           unfold LineSource_line. cbn [line previous_length location_state].
           destruct (decide (S k < S (S k))%nat); [reflexivity|lia].
        -- destruct (decide (S k = length (heap st))) as [Hnew|Hold].
           ++ assert (k = made) by lia. subst k. unfold LineSource_line.
              destruct (decide (S made < S made)%nat); [lia|reflexivity].
           ++ rewrite (Hk k) by lia. unfold LineSource_line.
              destruct (decide (S k < made)%nat); [|lia].
              destruct (decide (S k < S made)%nat); [reflexivity|lia].
Qed.

Lemma laid_out_read made (st st' : store A (Z * Z) (LineSource A Desc)) q y :
  laid_out all d made st -> Line_next LineSource_next q st = (y, st') ->
  exists made', laid_out all d made' st' /\ (made <= made')%nat.
Proof.
  intros Hlay Hn. destruct (decide (q <= made)%nat) as [Hq|Hq].
  - destruct (laid_out_next made st q Hlay Hq) as (made' & st1 & Hn1 & Hlay1 & Hm & _).
    rewrite Hn in Hn1. injection Hn1 as _ <-. eauto.
  - exists made. split; [|lia]. destruct Hlay as (Hlen & Hsrc & H0 & Hk).
    unfold Line_next, bind, deref in Hn.
    rewrite (proj2 (lookup_ge_None (heap st) q)) in Hn by lia.
    injection Hn as _ <-. repeat split; assumption.
Qed.

Lemma laid_out_reads (st st' : store A (Z * Z) (LineSource A Desc)) :
  reads LineSource_next st st' -> forall made, laid_out all d made st ->
  exists made', laid_out all d made' st' /\ (made <= made')%nat.
Proof.
  induction 1 as [st|st q y st1 st2 Hq _ IH]; intros made Hlay; [eauto|].
  destruct (laid_out_read made st st1 q y Hlay Hq) as (m1 & Hlay1 & Hm1).
  destruct (IH m1 Hlay1) as (m2 & Hlay2 & Hm2). exists m2. split; [exact Hlay2|lia].
Qed.

Lemma laid_out_factory (st : store A (Z * Z) (LineSource A Desc)) :
  reads LineSource_next (snd (factory LineSource_next (LineSource_init all d))) st ->
  exists made, laid_out all d made st /\ (1 <= made)%nat.
Proof.
  intros Hr.
  assert (H0 : laid_out all d 0
                 (Store [MkLine None 0 None None] (LineSource_init all d))).
  { split; [reflexivity|]. split; [|split; [reflexivity|intros k Hk; lia]].
    unfold LineSource_init, LineSource_after, before. cbn [source].
    destruct (decide (length all < 0)%nat); [lia|]. rewrite drop_0. reflexivity. }
  destruct (laid_out_next 0 _ 0 H0 (Nat.le_refl _)) as (m1 & st1 & Hn & Hlay1 & _ & Hm1).
  rewrite factory_store, Hn in Hr. cbn [snd] in Hr.
  destruct (laid_out_reads _ _ Hr m1 Hlay1) as (m2 & Hlay2 & Hm2).
  exists m2. split; [exact Hlay2|lia].
Qed.

(** The walk of [__at] keeps the number of items before the view. *)
Lemma at_loop_laid_out f : forall k i made (st : store A (Z * Z) (LineSource A Desc)),
  laid_out all d made st -> (k < made)%nat -> 0 <= i -> (Z.to_nat i <= f)%nat ->
  exists k1 i1 made1 st1,
    at_loop LineSource_next f (S k) i st = (Ret (S k1, i1), st1) /\
    laid_out all d made1 st1 /\ (k1 < made1)%nat /\
    before all k1 + i1 = before all k + i /\ 0 <= i1 /\
    truth (all !! k1) && (match all !! k1 with Some l => len l | None => 0 end <=? i1)
    = false.
Proof.
  assert (Hstay : forall k i made (st : store A (Z * Z) (LineSource A Desc)),
             (k < made)%nat -> 0 <= i -> laid_out all d made st ->
             truth (all !! k)
             && (match all !! k with Some l => len l | None => 0 end <=? i) = false ->
             exists k1 i1 made1 st1,
               (Ret (S k, i), st) = (Ret (S k1, i1), st1) /\
               laid_out all d made1 st1 /\ (k1 < made1)%nat /\
               before all k1 + i1 = before all k + i /\ 0 <= i1 /\
               truth (all !! k1)
               && (match all !! k1 with Some l => len l | None => 0 end <=? i1)
               = false).
  { intros k i made st Hk Hi Hlay Hc. exists k, i, made, st. auto 10. }
  induction f as [|f IH]; intros k i made st Hlay Hk Hi Hf;
    rewrite at_loop_eq; unfold bind, deref;
    rewrite (proj2 (proj2 (proj2 Hlay)) k Hk); cbn [line LineSource_line];
    (destruct (all !! k) as [l|] eqn:Hl;
     [|apply (Hstay k i made st);
       [assumption|assumption|assumption|rewrite Hl; reflexivity]]);
    (destruct (truth (Some l) && (len l <=? i)) eqn:Hc;
     [|apply (Hstay k i made st);
       [assumption|assumption|assumption|rewrite Hl; exact Hc]]).
  - apply loop_goes_on in Hc. lia.
  - apply loop_goes_on in Hc.
    destruct (laid_out_next made st (S k) Hlay ltac:(lia))
      as (made' & st' & Hn & Hlay' & Hm & Hk').
    rewrite Hn.
    destruct (IH (S k) (i - len l) made' st' Hlay' ltac:(lia) ltac:(lia) ltac:(lia))
      as (k1 & i1 & made1 & st1 & Hw & Hlay1 & Hk1 & Hcons & Hi1 & Hstop).
    exists k1, i1, made1, st1.
    split; [exact Hw|]. split; [exact Hlay1|]. split; [exact Hk1|].
    split; [|split; assumption]. rewrite Hcons, before_S, Hl. lia.
Qed.

Lemma getitem_open_laid_out made (st st' : store A (Z * Z) (LineSource A Desc)) n v :
  laid_out all d made st -> (1 <= made)%nat -> 0 <= n ->
  getitem_open LineSource_next (View 1 0) n st = (Ret v, st') ->
  exists k made',
    sv_line v = S k /\ laid_out all d made' st' /\ (k < made')%nat /\
    before all k + sv_offset v = n /\
    (truth (all !! k) = false -> sv_offset v = 0).
Proof.
  intros Hlay Hm Hn. unfold getitem_open. cbn [sv_offset sv_line].
  destruct ((n =? 0) && (0 =? 0)) eqn:E0.
  - apply andb_prop in E0 as [E _]. apply Z.eqb_eq in E. subst n.
    intros [= <- <-]. exists 0%nat, made. cbn [sv_line sv_offset].
    split; [reflexivity|]. split; [exact Hlay|]. split; [lia|].
    split; [rewrite before_0|]; reflexivity.
  - unfold StreamView_at, bind. cbn [sv_offset sv_line].
    destruct (at_loop_laid_out (Z.to_nat (n + 0)) 0 (n + 0) made st Hlay
                ltac:(lia) ltac:(lia) (Nat.le_refl _))
      as (k1 & i1 & made1 & st1 & Hw & Hlay1 & Hk1 & Hcons & Hi1 & Hstop).
    rewrite Hw. cbn [fst snd]. unfold deref.
    rewrite (proj2 (proj2 (proj2 Hlay1)) k1 Hk1). cbn [line LineSource_line].
    destruct (negb (truth (all !! k1)) && (false || negb (i1 =? 0))) eqn:Hc;
      [discriminate|].
    intros [= <- <-]. exists k1, made1. cbn [sv_line sv_offset].
    split; [reflexivity|]. split; [exact Hlay1|]. split; [exact Hk1|].
    split.
    + rewrite Hcons, before_0. lia.
    + intros Ht. rewrite Ht in Hc. cbn [negb andb orb] in Hc.
      apply negb_false_iff, Z.eqb_eq in Hc. exact Hc.
Qed.

(** On a stream made of the lines [all], the location of [s[n:]] has
    character offset [n]; its line number (from 1) and line offset say
    the same: [n] is the number of items in the lines before, plus the
    line offset; and the current line is that line.  Past the last line
    the location is [(-1, 0, -1, None, description)]. *)
Theorem from_lines_location n (st st' : store A (Z * Z) (LineSource A Desc)) v :
  reads LineSource_next (snd (factory LineSource_next (LineSource_init all d))) st ->
  0 <= n ->
  getitem_open LineSource_next (View 1 0) n st = (Ret v, st') ->
  exists k,
    sv_line v = S k /\ before all k + sv_offset v = n /\
    StreamView_location LineSource_location v st'
    = (Ret (match all !! k with
            | Some l =>
                Location (Some (Z.of_nat k + 1)) (sv_offset v) n (Some l) (Some d)
            | None => Location (Some (-1)) 0 (-1) None (Some d)
            end), st').
Proof.
  intros Hr Hn Hv.
  destruct (laid_out_factory st Hr) as (made & Hlay & Hm).
  destruct (getitem_open_laid_out made st st' n v Hlay Hm Hn Hv)
    as (k & made' & Hline & Hlay' & Hk & Hcons & Hend).
  exists k. split; [exact Hline|]. split; [exact Hcons|].
  destruct Hlay' as (Hlen & Hsrc & H0 & Hlines).
  unfold StreamView_location, Line_location, bind, deref. rewrite Hline.
  rewrite (Hlines k Hk). cbn [line location_state LineSource_line].
  unfold with_source, LineSource_location, bind, get, ret. rewrite Hsrc.
  cbn [LineSource_after ls_description].
  destruct (all !! k) as [l|] eqn:Hl.
  - apply lookup_lt_Some in Hl as Hlt.
    destruct (decide (k < length all)%nat); [|lia]. rewrite Hcons.
    destruct st' as [h src]. cbn [heap source] in *. rewrite Hsrc. reflexivity.
  - apply lookup_ge_None in Hl as Hge.
    destruct (decide (k < length all)%nat); [lia|]. rewrite (Hend eq_refl).
    destruct st' as [h src]. cbn [heap source] in *. rewrite Hsrc. reflexivity.
Qed.

Lemma len_loop_eq {LS Src} (source_next : M Src (option (list A) * option LS))
    (total_length : Src -> option Z) fuel ln (st : store A LS Src) :
  len_loop source_next total_length fuel ln st =
  match total_length (source st) with
  | Some total => (Ret total, st)
  | None =>
      match fuel with
      | O => (Diverge, st)
      | S fuel' =>
          (let* nxt := Line_next source_next ln in
           len_loop source_next total_length fuel' nxt) st
      end
  end.
Proof.
  destruct fuel; cbn; unfold bind, get;
    destruct (total_length (source st)); reflexivity.
Qed.

Lemma len_loop_laid_out fuel : forall k made (st : store A (Z * Z) (LineSource A Desc)),
  laid_out all d made st -> (k < made)%nat -> (length all - k <= fuel)%nat ->
  exists made1 st1,
    len_loop LineSource_next ls_total_length fuel (S k) st
    = (Ret (len (concat all)), st1) /\
    laid_out all d made1 st1 /\ (made <= made1)%nat.
Proof.
  induction fuel as [|fuel IH]; intros k made st Hlay Hk Hf;
    rewrite len_loop_eq; rewrite (proj1 (proj2 Hlay));
    cbn [LineSource_after ls_total_length];
    (destruct (decide (length all < made)%nat);
     [exists made, st; split; [reflexivity|split; [exact Hlay|lia]]|]).
  - lia.
  - destruct (laid_out_next made st (S k) Hlay ltac:(lia))
      as (made' & st' & Hn & Hlay' & Hm & Hk').
    unfold bind. rewrite Hn.
    destruct (IH (S k) made' st' Hlay' ltac:(lia) ltac:(lia))
      as (made1 & st1 & Hrun & Hlay1 & Hm1).
    exists made1, st1. split; [exact Hrun|]. split; [exact Hlay1|lia].
Qed.

(** On a stream made of the lines [all], [len(s[n:])] is the number of
    items of all the lines, less [n]. *)
Theorem from_lines_len n (st st' : store A (Z * Z) (LineSource A Desc)) v fuel :
  reads LineSource_next (snd (factory LineSource_next (LineSource_init all d))) st ->
  0 <= n -> (length all <= fuel)%nat ->
  getitem_open LineSource_next (View 1 0) n st = (Ret v, st') ->
  exists st'',
    StreamView_len LineSource_next ls_total_length fuel v st'
    = (Ret (len (concat all) - n), st'').
Proof.
  intros Hr Hn Hf Hv.
  destruct (laid_out_factory st Hr) as (made & Hlay & Hm).
  destruct (getitem_open_laid_out made st st' n v Hlay Hm Hn Hv)
    as (k & made' & Hline & Hlay' & Hk & Hcons & _).
  destruct (len_loop_laid_out fuel k made' st' Hlay' Hk ltac:(lia))
    as (made1 & st1 & Hrun & Hlay1 & Hm1).
  exists st1. unfold StreamView_len, bind, deref. rewrite Hline, Hrun.
  rewrite (proj2 (proj2 (proj2 Hlay1)) k ltac:(lia)).
  cbn [previous_length LineSource_line]. unfold ret. do 2 f_equal. lia.
Qed.

End LineSourceProperties.

Section CharacterSourceProperties.
Import Stream.
Variable A : Type.
Variable Desc : Type.

Lemma CharacterSource_pending (m : nat) : forall (chars : list A) (d : Desc) tl ll cc,
  (length chars <= m)%nat -> 0 < ll ->
  exists ls,
    pending CharacterSource_next (MkCharacterSource d tl chars ll cc) ls true /\
    concat ls = chars /\ Forall (fun l => 0 < len l <= ll) ls.
Proof.
  induction m as [|m IH]; intros chars d tl ll cc Hm Hll;
    (destruct (take (Z.to_nat ll) chars) as [|x l] eqn:Ht;
     [ exists []; split;
       [eapply pending_end;
        [unfold CharacterSource_next; cbn [cs_line_length cs_characters];
         rewrite Ht; reflexivity|reflexivity]|];
       split; [|constructor];
       destruct chars as [|y chars]; [reflexivity|];
       destruct (Z.to_nat ll) eqn:E; [lia|discriminate] |]).
  - destruct chars; [rewrite take_nil in Ht; discriminate|cbn in Hm; lia].
  - assert (Hlen : (length (x :: l) <= Z.to_nat ll)%nat).
    { rewrite <- Ht, length_take. lia. }
    assert (Hshort : (length (drop (Z.to_nat ll) chars) <= m)%nat).
    { rewrite length_drop. destruct chars; [rewrite take_nil in Ht; discriminate|].
      cbn [length] in *. lia. }
    destruct (IH (drop (Z.to_nat ll) chars) d tl ll (cc + len (x :: l)) Hshort Hll)
      as (ls & Hp & Hcat & Hall).
    exists ((x :: l) :: ls). split; [|split].
    + eapply pending_line; [|reflexivity|exact Hp].
      unfold CharacterSource_next. cbn [cs_line_length cs_characters].
      rewrite Ht. reflexivity.
    + cbn [concat]. rewrite Hcat, <- Ht. apply take_drop.
    + constructor; [|exact Hall]. unfold len. cbn [length] in *. lia.
Qed.

(** The stream made of a sequence of items, cut into chunks of
    [line_length], holds these items in order, and an index past them
    raises [IndexError]; with a [line_length] that is not positive it
    holds nothing, whatever the items. *)
Theorem from_items_items (chars : list A) (d : Desc) (line_length : Z) :
  exists st,
    factory CharacterSource_next (CharacterSource_init chars d line_length)
    = (Ret (View 1 0), st) /\
    forall n, 0 <= n ->
      exists st',
        getitem_int CharacterSource_next (View 1 0) n st
        = (match (if 0 <? line_length then chars else []) !! Z.to_nat n with
           | Some x => Ret x
           | None => Raise (IndexError None)
           end, st').
Proof.
  destruct (0 <? line_length) eqn:E.
  - apply Z.ltb_lt in E.
    destruct (CharacterSource_pending (length chars) chars d None line_length 0
                (Nat.le_refl _) E) as (ls & Hp & Hcat & _).
    destruct (factory_items _ _ _ CharacterSource_next _ ls Hp) as (st & Hf & Hn).
    exists st. split; [exact Hf|]. rewrite Hcat in Hn. exact Hn.
  - apply Z.ltb_ge in E. change (@nil A) with (concat (@nil (list A))).
    apply factory_items.
    eapply pending_end;
      [unfold CharacterSource_next, CharacterSource_init;
       cbn [cs_line_length cs_characters];
       replace (Z.to_nat line_length) with 0%nat by lia; rewrite take_0;
       reflexivity
      |reflexivity].
Qed.

End CharacterSourceProperties.

Section FilteredSourceProperties.
Import Stream.
Variable LS0 : Type.
Variable Src0 : Type.
Variable source_next0 : M Src0 (option (list ascii) * option LS0).
Variable predicate : ascii -> bool.

Lemma filtered_lines (items : list ascii) :
  concat (upto_empty (concat (map (FilteredSource_transform predicate) items)))
  = List.filter predicate items.
Proof.
  induction items as [|x items IH]; [reflexivity|].
  cbn [map concat List.filter]. unfold FilteredSource_transform at 1.
  destruct (predicate x); cbn [app upto_empty concat]; [rewrite IH|exact IH].
  reflexivity.
Qed.

(** The stream made of a filtered source over a stream of text holds, in
    order, exactly the characters of the stream read from that satisfy
    the predicate. *)
Theorem filtered_stream_items fuel (s : StreamView) (u : store ascii LS0 Src0) ls :
  one_frontier u -> chain source_next0 u (sv_line s) ls true -> settled u s ->
  (length (remaining s ls) < fuel)%nat ->
  exists dst,
    factory (BTS_next source_next0 (FilteredSource_transform predicate) fuel)
            (BTS_init s u)
    = (Ret (View 1 0), dst) /\
    forall n, 0 <= n ->
      exists dst',
        getitem_int (BTS_next source_next0 (FilteredSource_transform predicate) fuel)
                    (View 1 0) n dst
        = (match List.filter predicate (remaining s ls) !! Z.to_nat n with
           | Some x => Ret x
           | None => Raise (IndexError None)
           end, dst').
Proof.
  intros Hwf Hc Hs Hf. rewrite <- filtered_lines. apply factory_items.
  apply (BTS_pending _ _ _ source_next0 _ (FilteredSource_transform predicate)
           fuel (S (length (remaining s ls))) (remaining s ls)
           ltac:(lia) [] None s u ls None 0 Hwf Hc Hs eq_refl Hf).
Qed.

End FilteredSourceProperties.

Section SampleProperties.
Import Stream.

Lemma py_slice_from_0 {A} (l : list A) k :
  0 <= k -> len (py_slice l 0 k) <= k.
Proof.
  intros Hk. unfold py_slice, clamp. cbn [Z.ltb Z.compare].
  destruct (k <? 0) eqn:E; [apply Z.ltb_lt in E; lia|].
  unfold len. rewrite length_take, length_drop. lia.
Qed.

(** [sample] returns the whole text when it has at most [size]
    characters.  Otherwise, when the prefix leaves room for the three
    dots, it returns a text of at most [size] characters that starts
    with the prefix, goes on with a prefix of the rest and ends with
    the dots. *)
Theorem sample_bounded (prefix rest : list ascii) (size : Z) :
  (len (prefix ++ rest) <= size -> sample prefix rest size = prefix ++ rest) /\
  (len prefix + 3 <= size ->
   len (sample prefix rest size) <= size /\
   (size < len (prefix ++ rest) ->
    exists middle,
      sample prefix rest size
      = prefix ++ middle ++ ["."%char; "."%char; "."%char] /\
      middle `prefix_of` rest)).
Proof.
  unfold sample. split.
  - intros Hfit. destruct (size <? len (prefix ++ rest)) eqn:E;
      [apply Z.ltb_lt in E; lia|reflexivity].
  - intros Hroom. destruct (size <? len (prefix ++ rest)) eqn:E.
    + apply Z.ltb_lt in E.
      pose proof (py_slice_from_0 rest (size - len prefix - 3) ltac:(lia)) as Hs.
      split.
      * unfold len in *. rewrite !length_app. cbn [length]. lia.
      * intros _. eexists. split; [reflexivity|].
        unfold py_slice.
        assert (H0 : clamp (len rest) 0 = 0).
        { unfold clamp, len. cbn [Z.ltb Z.compare]. lia. }
        rewrite H0. cbn [Z.to_nat]. rewrite drop_0. apply prefix_take.
    + apply Z.ltb_ge in E. split; [exact E|lia].
Qed.

End SampleProperties.

(** * Properties of the columns *)

Section ColumnsProperties.
Import Columns.
Variable Matcher : Type.

Lemma clean_from_lookup (pairs : list (col * Matcher)) : forall start i l r m,
  clean_from start pairs !! i = Some (l, r, m) ->
  exists c,
    pairs !! i = Some (c, m) /\
    match c with
    | Range a b => l = a /\ r = b
    | Width n =>
        r = l + n /\
        l = match i with
            | O => start
            | S j =>
                match clean_from start pairs !! j with
                | Some (_, r', _) => r'
                | None => start
                end
            end
    end.
Proof.
  induction pairs as [|[c m0] rest IH]; intros start i l r m; [discriminate|].
  destruct i as [|i].
  - destruct c as [a b|n]; cbn; intros [= <- <- <-]; eexists;
      (split; [reflexivity|]); cbn; split; reflexivity.
  - assert (Hstep : forall start' head,
               clean_from start' rest !! i = Some (l, r, m) ->
               head.1.2 = start' ->
               exists c,
                 rest !! i = Some (c, m) /\
                 match c with
                 | Range a b => l = a /\ r = b
                 | Width n =>
                     r = l + n /\
                     l = match (head :: clean_from start' rest) !! i with
                         | Some (_, r', _) => r'
                         | None => start
                         end
                 end).
    { intros start' head H Hhead.
      destruct (IH _ _ _ _ _ H) as (c1 & Hc & Hlr). exists c1.
      split; [exact Hc|]. destruct c1 as [a' b'|n']; [exact Hlr|].
      destruct Hlr as [Hr Hl]. split; [exact Hr|].
      destruct i as [|j]; [destruct head as [[hl hr] hm]; cbn in *; congruence|].
      cbn [lookup list_lookup].
      destruct (clean_from start' rest !! j) as [[[l' r'] m']|] eqn:Hj;
        [exact Hl|].
      apply lookup_ge_None in Hj. apply lookup_lt_Some in H. lia. }
    destruct c as [a b|n]; cbn [clean_from]; intros H.
    + exact (Hstep b (a, b, m0) H eq_refl).
    + exact (Hstep (start + n) (start, start + n, m0) H eq_refl).
Qed.

(** Each matcher gets the column of the same rank, one column for each
    pair of an entry of [indices] and a matcher.  A column given as a
    pair keeps its bounds; a column given as a number of characters has
    that width and starts where the column before it ends, or at 0 when
    it is the first. *)
Theorem Columns_clean_contiguous (indices : list col) (matchers : list Matcher) :
  length (clean indices matchers) = min (length indices) (length matchers) /\
  forall i l r m,
    clean indices matchers !! i = Some (l, r, m) ->
    matchers !! i = Some m /\
    match indices !! i with
    | Some (Range a b) => l = a /\ r = b
    | Some (Width n) =>
        r = l + n /\
        l = match i with
            | O => 0
            | S j =>
                match clean indices matchers !! j with
                | Some (_, r', _) => r'
                | None => 0
                end
            end
    | None => False
    end.
Proof.
  unfold clean. split.
  - rewrite <- (length_zip_with pair indices matchers).
    generalize 0. generalize (zip indices matchers).
    induction l as [|[[a b|n] m] rest IH]; intros start; cbn; [reflexivity| |];
      rewrite IH; reflexivity.
  - intros i l r m H.
    destruct (clean_from_lookup _ _ _ _ _ _ H) as (c & Hc & Hlr).
    apply lookup_zip_with_Some in Hc as (c' & m' & [= <- <-] & Hi & Hm).
    split; [exact Hm|]. rewrite Hi. exact Hlr.
Qed.

End ColumnsProperties.

(** ** The example stream *)

Lemma example_frontier : Stream.one_frontier StreamExample.st0.
Proof.
  intros r L. destruct r as [|[|r]]; cbn; intros [= <-]; cbn; congruence.
Qed.

Lemma example_chain :
  Stream.chain Stream.LineSource_next StreamExample.st0 1
               [[1%nat; 2%nat]; [3%nat]] true.
Proof.
  eapply Stream.chain_unread; try reflexivity.
  eapply Stream.pending_line; try reflexivity.
  eapply Stream.pending_end; reflexivity.
Qed.

Lemma StreamView_eq_same_line_witness :
  (forall n,
      fst (Stream.Position_getitem Stream.LineSource_next
             (Stream.InData 0 (Stream.View 1 0)) n
             [StreamExample.st0; StreamExample.st0])
      = fst (Stream.Position_getitem Stream.LineSource_next
               (Stream.InData 1 (Stream.View 1 0)) n
               [StreamExample.st0; StreamExample.st0])) /\
  Stream.StreamView_eq (Stream.InData 0 (Stream.View 1 0))
                       (Stream.OView (Stream.InData 1 (Stream.View 1 0)))
  = false.
Proof.
  destruct (proj2 (StreamView_eq_same_line nat (Z * Z)%type
                     (Stream.LineSource nat unit) Stream.LineSource_next)
                  [] [StreamExample.st0] [StreamExample.st0; StreamExample.st0]
                  StreamExample.src
                  (Stream.InData 0 (Stream.View 1 0))
                  (Stream.InData 1 (Stream.View 1 0))
                  eq_refl eq_refl) as (Hsame & Hne & _).
  split; [exact Hsame|exact Hne].
Defined.

Lemma Line_next_cached_witness :
  exists st1,
    Stream.Line_next Stream.LineSource_next 1 StreamExample.st0 = (Ret 2%nat, st1) /\
    Stream.ls_lines (Stream.source st1) = [] /\
    Stream.heap StreamExample.st0 !! 2%nat = None /\
    Stream.line <$> Stream.heap st1 !! 2%nat = Some (Some [3%nat]) /\
    forall st2, Stream.reads Stream.LineSource_next st1 st2 ->
      Stream.Line_next Stream.LineSource_next 1 st2 = (Ret 2%nat, st2) /\
      Stream.line <$> Stream.heap st2 !! 2%nat = Some (Some [3%nat]).
Proof.
  destruct (Line_next_cached nat (Z * Z)%type (Stream.LineSource nat unit)
              Stream.LineSource_next StreamExample.st0 1
              (Stream.MkLine (Some [1%nat; 2%nat]) 0 (Some (0, 1)) None)
              (Some [3%nat], Some (2, 2))
              (Stream.MkLineSource tt None [] 3 3)
              eq_refl eq_refl eq_refl)
    as (st1 & H1 & H2 & H3 & H4 & H5).
  exists st1. split; [exact H1|]. split; [rewrite H2; reflexivity|].
  split; [exact H3|]. split; [exact H4|exact H5].
Defined.

Lemma advance_then_index_witness :
  exists s1 st1,
    Stream.getitem_open Stream.LineSource_next StreamExample.s0 1 StreamExample.st0
    = (Ret s1, st1) /\
    Stream.getitem_int Stream.LineSource_next s1 1 st1
    = (Ret 3%nat,
       snd (Stream.getitem_int Stream.LineSource_next StreamExample.s0 2
                               StreamExample.st0)).
Proof.
  apply (advance_then_index nat (Z * Z)%type (Stream.LineSource nat unit)
           Stream.LineSource_next StreamExample.s0 1 1 StreamExample.st0).
  - lia.
  - reflexivity.
Defined.

(** C5, as stated, fails for an empty slice: only three items remain from
    the view on, yet [s[5:5]] raises nothing and returns the empty join;
    and the [IndexError] of [s[5:7]], whose start is past the end, reports
    no number of missing items. *)
Lemma empty_slice_past_end :
  Stream.len (Stream.remaining StreamExample.s0 [[1%nat; 2%nat]; [3%nat]]) < 5 /\
  Stream.getitem_slice Stream.LineSource_next (@concat nat) StreamExample.s0 5 5
                       StreamExample.st0 = (Ret [], StreamExample.st0) /\
  (~ exists e st',
      Stream.getitem_slice Stream.LineSource_next (@concat nat) StreamExample.s0
                           5 5 StreamExample.st0 = (Raise e, st')) /\
  fst (Stream.getitem_slice Stream.LineSource_next (@concat nat)
                            StreamExample.s0 5 7 StreamExample.st0)
  = Raise (IndexError None).
Proof.
  split; [reflexivity|]. split; [reflexivity|]. split; [|reflexivity].
  intros (e & st' & H). discriminate H.
Qed.

Lemma getitem_slice_bounds_witness :
  (exists st',
      Stream.getitem_slice Stream.LineSource_next (@concat nat) StreamExample.s0
                           1 5 StreamExample.st0
      = (Raise (IndexError (Some 2)), st')) /\
  (exists pieces st',
      Stream.getitem_slice Stream.LineSource_next (@concat nat) StreamExample.s0
                           1 3 StreamExample.st0
      = (Ret (concat pieces), st') /\
      concat pieces = [2%nat; 3%nat]) /\
  (exists x st',
      [1%nat; 2%nat; 3%nat] !! 1%nat = Some x /\
      Stream.getitem_int Stream.LineSource_next StreamExample.s0 1
                         StreamExample.st0 = (Ret x, st')).
Proof.
  destruct (getitem_slice_bounds nat (Z * Z)%type (Stream.LineSource nat unit)
              Stream.LineSource_next (@concat nat) StreamExample.s0
              StreamExample.st0 [[1%nat; 2%nat]; [3%nat]] true 1
              example_frontier example_chain ltac:(reflexivity) ltac:(lia))
    as (_ & Hshort & Hok & _ & Hint & _).
  split; [|split].
  - exact (Hshort eq_refl 5 ltac:(split; reflexivity)).
  - exact (Hok 3 ltac:(split; [reflexivity | discriminate])).
  - exact (Hint eq_refl).
Defined.

Lemma example_settled : Stream.settled StreamExample.st0 StreamExample.s0.
Proof.
  exists (Some [1%nat; 2%nat]). split; [reflexivity|]. split; [reflexivity|].
  intros l [= <-] _. reflexivity.
Qed.

Lemma example_derived :
  Stream.derived Stream.LineSource_next
                 (Stream.LineSource_location (Desc := unit))
                 StreamExample.keep_even 5 StreamExample.dst1.
Proof.
  apply Stream.derived_next
    with (dst := StreamExample.dst0) (q := 1%nat) (y := Ret 2%nat);
    [|vm_compute; reflexivity].
  apply Stream.derived_next
    with (dst := Stream.Store [Stream.MkLine None 0 None None]
                   (Stream.BTS_init StreamExample.s0 StreamExample.st0))
         (q := 0%nat) (y := Ret 1%nat);
    [|vm_compute; reflexivity].
  apply Stream.derived_new. exact example_settled.
Qed.

Lemma derived_location_delegates_witness :
  (exists original x,
      Some (Stream.View 1 1) = Some original /\
      Stream.item_at (Stream.bts_under (Stream.source StreamExample.dst1))
                     original x /\
      [2%nat] ∈ StreamExample.keep_even x /\
      Stream.StreamView_location
        (Stream.BTS_location Stream.LineSource_next
                             (Stream.LineSource_location (Desc := unit)))
        (Stream.View 1 0) StreamExample.dst1
      = Stream.with_source
          (Stream.with_under
             (let* shifted :=
                Stream.getitem_open Stream.LineSource_next original 0 in
              Stream.StreamView_location Stream.LineSource_location shifted))
          StreamExample.dst1 /\
      Stream.StreamView_location
        (Stream.BTS_location Stream.LineSource_next
                             (Stream.LineSource_location (Desc := unit)))
        (Stream.View 1 0) StreamExample.dst1
      = Stream.with_source
          (Stream.with_under
             (Stream.StreamView_location Stream.LineSource_location original))
          StreamExample.dst1) /\
  Stream.StreamView_location
    (Stream.BTS_location Stream.LineSource_next
                         (Stream.LineSource_location (Desc := unit)))
    (Stream.View 2 0) StreamExample.dst1
  = (Ret Stream.no_location, StreamExample.dst1).
Proof.
  split.
  - exact (derived_location_delegates nat (Z * Z)%type
             (Stream.LineSource nat unit) unit Stream.LineSource_next
             Stream.LineSource_location nat StreamExample.keep_even 5
             StreamExample.dst1 1
             (Stream.MkLine (Some [2%nat]) 0 (Some (Stream.View 1 1)) (Some 2%nat))
             0 example_derived ltac:(vm_compute; reflexivity)).
  - exact (derived_location_delegates nat (Z * Z)%type
             (Stream.LineSource nat unit) unit Stream.LineSource_next
             Stream.LineSource_location nat StreamExample.keep_even 5
             StreamExample.dst1 2
             (Stream.MkLine None 1 None None)
             0 example_derived ltac:(vm_compute; reflexivity)).
Defined.

(** C7, as stated, fails where a line of the transformed stream holds
    more than one item, and where it holds none.  With [pair_up] the
    derived position on the item 13, made of the item 3 at (2, 0, 2),
    reports the location one item further in the stream read from,
    which is past its end; with [blank] the derived position stands
    past the end of the data, on an empty line, and yet reports the
    coordinates (1, 0, 0) of the stream read from. *)
Lemma derived_location_off_producer :
  (Stream.derived Stream.LineSource_next
                  (Stream.LineSource_location (Desc := unit))
                  StreamExample.pair_up 5 StreamExample.dst_pairs /\
   Stream.getitem_open (Stream.BTS_next Stream.LineSource_next StreamExample.pair_up 5)
                       (Stream.View 1 0) 5 StreamExample.dst_pairs
   = (Ret (Stream.View 3 1), StreamExample.dst_pairs) /\
   Stream.getitem_int (Stream.BTS_next Stream.LineSource_next StreamExample.pair_up 5)
                      (Stream.View 3 1) 0 StreamExample.dst_pairs
   = (Ret 13%nat, StreamExample.dst_pairs) /\
   Stream.location_state <$> Stream.heap StreamExample.dst_pairs !! 3%nat
   = Some (Some (Stream.View 2 0)) /\
   [3%nat; 13%nat] ∈ StreamExample.pair_up 3 /\
   Stream.item_at (Stream.bts_under (Stream.source StreamExample.dst_pairs))
                  (Stream.View 2 0) 3%nat /\
   fst (Stream.StreamView_location (Stream.LineSource_location (Desc := unit))
          (Stream.View 2 0)
          (Stream.bts_under (Stream.source StreamExample.dst_pairs)))
   = Ret (Stream.Location (Some 2) 0 2 (Some [3%nat]) (Some tt)) /\
   fst (Stream.StreamView_location
          (Stream.BTS_location Stream.LineSource_next
                               (Stream.LineSource_location (Desc := unit)))
          (Stream.View 3 1) StreamExample.dst_pairs)
   = Ret (Stream.Location (Some (-1)) 0 (-1) None (Some tt))) /\
  (Stream.derived Stream.LineSource_next
                  (Stream.LineSource_location (Desc := unit))
                  StreamExample.blank 5 StreamExample.dst_blank /\
   Stream.line <$> Stream.heap StreamExample.dst_blank !! 1%nat = Some (Some []) /\
   fst (Stream.getitem_int (Stream.BTS_next Stream.LineSource_next StreamExample.blank 5)
          (Stream.View 1 0) 0 StreamExample.dst_blank)
   = Raise (IndexError None) /\
   fst (Stream.StreamView_location
          (Stream.BTS_location Stream.LineSource_next
                               (Stream.LineSource_location (Desc := unit)))
          (Stream.View 1 0) StreamExample.dst_blank)
   = Ret (Stream.Location (Some 1) 0 0 (Some [1%nat; 2%nat]) (Some tt)) /\
   Stream.Location (Some 1) 0 0 (Some [1%nat; 2%nat]) (Some tt)
   <> Stream.no_location (A0 := nat) (Desc := unit)).
Proof.
  split.
  - split.
    { apply Stream.derived_next
        with (dst := snd (Stream.Line_next
                            (Stream.BTS_next Stream.LineSource_next
                                             StreamExample.pair_up 5) 1
                            (snd (Stream.factory
                                    (Stream.BTS_next Stream.LineSource_next
                                                     StreamExample.pair_up 5)
                                    (Stream.BTS_init StreamExample.s0
                                                     StreamExample.st0)))))
             (q := 2%nat) (y := Ret 3%nat);
        [|vm_compute; reflexivity].
      apply Stream.derived_next
        with (dst := snd (Stream.factory
                            (Stream.BTS_next Stream.LineSource_next
                                             StreamExample.pair_up 5)
                            (Stream.BTS_init StreamExample.s0 StreamExample.st0)))
             (q := 1%nat) (y := Ret 2%nat);
        [|vm_compute; reflexivity].
      apply Stream.derived_next
        with (dst := Stream.Store [Stream.MkLine None 0 None None]
                       (Stream.BTS_init StreamExample.s0 StreamExample.st0))
             (q := 0%nat) (y := Ret 1%nat);
        [|vm_compute; reflexivity].
      apply Stream.derived_new. exact example_settled. }
    split; [vm_compute; reflexivity|]. split; [vm_compute; reflexivity|].
    split; [vm_compute; reflexivity|]. split; [left|].
    split; [exists [3%nat]; split; [reflexivity|split; [reflexivity|reflexivity]]|].
    split; vm_compute; reflexivity.
  - split.
    { apply Stream.derived_next
        with (dst := Stream.Store [Stream.MkLine None 0 None None]
                       (Stream.BTS_init StreamExample.s0 StreamExample.st0))
             (q := 0%nat) (y := Ret 1%nat);
        [|vm_compute; reflexivity].
      apply Stream.derived_new. exact example_settled. }
    split; [vm_compute; reflexivity|]. split; [vm_compute; reflexivity|].
    split; [vm_compute; reflexivity|]. discriminate.
Qed.

(** On the example, the location of the derived position on the item 2 is
    that of the item 2 in the stream read from: line 1, offset 1. *)
Lemma example_derived_location :
  fst (Stream.StreamView_location
         (Stream.BTS_location Stream.LineSource_next
                              (Stream.LineSource_location (Desc := unit)))
         (Stream.View 1 0) StreamExample.dst1)
  = Ret (Stream.Location (Some 1) 1 1 (Some [1%nat; 2%nat]) (Some tt)).
Proof. vm_compute. reflexivity. Qed.

Lemma views_persistent_witness :
  Stream.getitem_int Stream.LineSource_next StreamExample.s0 2 StreamExample.st_read
  = (Ret 3%nat, StreamExample.st_read).
Proof.
  refine (proj1 (views_persistent nat (Z * Z)%type (Stream.LineSource nat unit)
                   Stream.LineSource_next StreamExample.s0 2 StreamExample.st0
                   StreamExample.st_read StreamExample.st_read _) 3%nat _).
  - apply Stream.reads_none.
  - reflexivity.
Defined.

Lemma getitem_open_compose_witness :
  Stream.getitem_open Stream.LineSource_next StreamExample.s0 (1 + 1)
                      StreamExample.st0
  = match Stream.getitem_open Stream.LineSource_next StreamExample.s0 1
                              StreamExample.st0 with
    | (Ret s1, st1) => Stream.getitem_open Stream.LineSource_next s1 1 st1
    | (Raise e, st1) => (Raise e, st1)
    | (Diverge, st1) => (Diverge, st1)
    end.
Proof.
  apply (getitem_open_compose nat (Z * Z)%type (Stream.LineSource nat unit)
           Stream.LineSource_next StreamExample.s0 1 1 StreamExample.st0);
    cbn; lia.
Defined.

Lemma lines_in_order_witness : Stream.in_order StreamExample.st0.
Proof.
  apply (lines_in_order nat (Z * Z)%type (Stream.LineSource nat unit)
           Stream.LineSource_next StreamExample.src StreamExample.st0).
  apply Stream.reads_none.
Defined.

Lemma from_lines_location_witness :
  exists k,
    Stream.sv_line (Stream.View 2 0) = S k /\
    Stream.before [[1%nat; 2%nat]; [3%nat]] k + Stream.sv_offset (Stream.View 2 0)
    = 2 /\
    Stream.StreamView_location Stream.LineSource_location (Stream.View 2 0)
                               StreamExample.st_open
    = (Ret (match [[1%nat; 2%nat]; [3%nat]] !! k with
            | Some l =>
                Stream.Location (Some (Z.of_nat k + 1))
                  (Stream.sv_offset (Stream.View 2 0)) 2 (Some l) (Some tt)
            | None => Stream.Location (Some (-1)) 0 (-1) None (Some tt)
            end), StreamExample.st_open).
Proof.
  apply (from_lines_location nat unit [[1%nat; 2%nat]; [3%nat]] tt 2
           StreamExample.st0 StreamExample.st_open (Stream.View 2 0)).
  - apply Stream.reads_none.
  - lia.
  - reflexivity.
Defined.

Lemma from_lines_len_witness :
  exists st'',
    Stream.StreamView_len Stream.LineSource_next Stream.ls_total_length 2
                          (Stream.View 2 0) StreamExample.st_open
    = (Ret (Stream.len (concat [[1%nat; 2%nat]; [3%nat]]) - 2), st'').
Proof.
  apply (from_lines_len nat unit [[1%nat; 2%nat]; [3%nat]] tt 2
           StreamExample.st0 StreamExample.st_open (Stream.View 2 0) 2).
  - apply Stream.reads_none.
  - lia.
  - cbn. lia.
  - reflexivity.
Defined.

Lemma transformed_stream_items_witness :
  exists dst,
    Stream.factory (Stream.BTS_next Stream.LineSource_next StreamExample.keep_even 5)
                   (Stream.BTS_init StreamExample.s0 StreamExample.st0)
    = (Ret (Stream.View 1 0), dst) /\
    forall n, 0 <= n ->
      exists dst',
        Stream.getitem_int
          (Stream.BTS_next Stream.LineSource_next StreamExample.keep_even 5)
          (Stream.View 1 0) n dst
        = (match concat (Stream.upto_empty
                           (concat (map StreamExample.keep_even
                                        (Stream.remaining StreamExample.s0
                                           [[1%nat; 2%nat]; [3%nat]]))))
                 !! Z.to_nat n with
           | Some x => Ret x
           | None => Raise (IndexError None)
           end, dst').
Proof.
  apply (transformed_stream_items nat (Z * Z)%type (Stream.LineSource nat unit)
           Stream.LineSource_next nat StreamExample.keep_even 5
           StreamExample.s0 StreamExample.st0 [[1%nat; 2%nat]; [3%nat]]).
  - exact example_frontier.
  - exact example_chain.
  - exact example_settled.
  - vm_compute. lia.
Defined.

Lemma example_text_stream :
  Stream.one_frontier StreamExample.st_text /\
  Stream.chain Stream.LineSource_next StreamExample.st_text 1
               [["a"; "1"]; ["b"]]%char true /\
  Stream.settled StreamExample.st_text (Stream.View 1 0).
Proof.
  split; [|split].
  - intros r L. destruct r as [|[|r]]; cbn; intros [= <-]; cbn; congruence.
  - eapply Stream.chain_unread; try reflexivity.
    eapply Stream.pending_line; try reflexivity.
    eapply Stream.pending_end; reflexivity.
  - exists (Some ["a"; "1"]%char). split; [reflexivity|]. split; [reflexivity|].
    intros l [= <-] _. reflexivity.
Qed.

Lemma filtered_stream_items_witness :
  exists dst,
    Stream.factory
      (Stream.BTS_next Stream.LineSource_next
                       (Stream.FilteredSource_transform StreamExample.is_letter) 5)
      (Stream.BTS_init (Stream.View 1 0) StreamExample.st_text)
    = (Ret (Stream.View 1 0), dst) /\
    forall n, 0 <= n ->
      exists dst',
        Stream.getitem_int
          (Stream.BTS_next Stream.LineSource_next
                           (Stream.FilteredSource_transform StreamExample.is_letter) 5)
          (Stream.View 1 0) n dst
        = (match List.filter StreamExample.is_letter
                   (Stream.remaining (Stream.View 1 0) [["a"; "1"]; ["b"]]%char)
                 !! Z.to_nat n with
           | Some x => Ret x
           | None => Raise (IndexError None)
           end, dst').
Proof.
  apply (filtered_stream_items (Z * Z)%type (Stream.LineSource ascii unit)
           Stream.LineSource_next StreamExample.is_letter 5
           (Stream.View 1 0) StreamExample.st_text [["a"; "1"]; ["b"]]%char).
  - exact (proj1 example_text_stream).
  - exact (proj1 (proj2 example_text_stream)).
  - exact (proj2 (proj2 example_text_stream)).
  - vm_compute. lia.
Defined.

Lemma sample_bounded_witness :
  Stream.sample ["a"; "b"]%char ["c"; "d"]%char 4 = ["a"; "b"; "c"; "d"]%char /\
  Stream.len (Stream.sample ["s"; "t"; "r"; ":"; " "]%char
                            ["a"; "b"; "c"; "d"; "e"; "f"]%char 10) <= 10.
Proof.
  split.
  - apply (proj1 (sample_bounded ["a"; "b"]%char ["c"; "d"]%char 4)).
    unfold Stream.len. simpl. lia.
  - apply (proj2 (sample_bounded ["s"; "t"; "r"; ":"; " "]%char
                                 ["a"; "b"; "c"; "d"; "e"; "f"]%char 10)).
    unfold Stream.len. simpl. lia.
Defined.

Lemma negative_index_in_line_witness :
  Stream.getitem_int Stream.LineSource_next StreamExample.s0 (-1) StreamExample.st0
  = (Ret 2%nat, StreamExample.st0).
Proof.
  exact (negative_index_in_line nat (Z * Z)%type (Stream.LineSource nat unit)
           Stream.LineSource_next StreamExample.s0 StreamExample.st0
           (Stream.MkLine (Some [1%nat; 2%nat]) 0 (Some (0, 1)) None)
           [1%nat; 2%nat] (-1) eq_refl eq_refl eq_refl eq_refl).
Defined.

